(** * Python-Game-Jam-2025: the view orchestrator, the button widget and the
      player sprite, embedded in Rocq.

    The development follows the layout of the repository:
    - [Py]      : the fragment of Python the sources rely on (exceptions,
                  a state-and-exception monad, floats, dictionaries);
    - [Player]  : [src/code/player/player.py];
    - [Button]  : [src/code/views/button.py];
    - [Main]    : [main.py], the class [Game];
    - [Motion]  : the rest of the player ([move], [update],
                  [set_all_animation_speeds]) and what a directory yields;
    - [Widget], [Loop] : buttons with an image; what the loop and the
                  handlers of [Game] leave behind;
    - [Layout]  : the layout of a menu, which the missing view classes do,
                  from the specification;
    - [PyFacts], [FloatFacts], [PlayerFacts], [ButtonFacts], [MainFacts] :
                  what is proved about each;
    - [MotionFacts], [ButtonGeometry], [LoopFacts], [LayoutFacts] : further
                  facts about the player, the button, the game and the
                  layout.

    Python floats are binary64 numbers.  Every function that computes with
    them is written once, over the interface [PyFloat]; the interface has two
    instances, the machine numbers ([binary64], on Rocq's primitive floats)
    and the exact rationals ([exact], on [Q]). *)

From Stdlib Require Import ZArith QArith Qround Floats Lia Lqa Ascii String List.
From stdpp Require Import base option list gmap strings.

Set Warnings "-inexact-float,-notation-overridden,-ambiguous-paths".

Local Open Scope string_scope.
Local Open Scope list_scope.
Local Open Scope Z_scope.

(* ===================================================================== *)
(** * The Python fragment *)
(* ===================================================================== *)

Module Py.

(** The exceptions the modelled code can meet. *)
Inductive exn : Type :=
  | AttributeError (attr : string)
  | OSError (path : string)
  | FileNotFoundError (path : string)
  | PygameError (what : string)
  | ValueError
  | TypeError
  | IndexError
  | ZeroDivisionError
  | SystemExit.

(** The outcome of a call: a value, or a raised exception. *)
Inductive result (A : Type) : Type :=
  | Ok (a : A)
  | Raise (e : exn).
Arguments Ok {A} a.
Arguments Raise {A} e.

(** A method call on a mutable world [S]: the world after the call is kept
    also when the call raises, as in Python. *)
Definition M (S A : Type) : Type := S -> result A * S.

Definition ret {S A} (a : A) : M S A := fun s => (Ok a, s).
Definition raise {S A} (e : exn) : M S A := fun s => (Raise e, s).
Definition bind {S A B} (m : M S A) (k : A -> M S B) : M S B :=
  fun s => match m s with
           | (Ok a, s') => k a s'
           | (Raise e, s') => (Raise e, s')
           end.
Definition get {S} : M S S := fun s => (Ok s, s).
Definition gets {S A} (f : S -> A) : M S A := fun s => (Ok (f s), s).
Definition modify {S} (f : S -> S) : M S unit := fun s => (Ok tt, f s).
Definition lift {S A} (r : result A) : M S A := fun s => (r, s).

(** [try: body except Exception as e: handler e]. [SystemExit] is not an
    [Exception] and passes through. *)
Definition is_Exception (e : exn) : bool :=
  match e with SystemExit => false | _ => true end.

Definition try_except {S A} (body : M S A) (handler : exn -> M S A) : M S A :=
  fun s => match body s with
           | (Ok a, s') => (Ok a, s')
           | (Raise e, s') =>
               if is_Exception e then handler e s' else (Raise e, s')
           end.

(** [try: body except <class> as e: handler e], for the class picked by
    [catches]. *)
Definition try_catch {S A} (catches : exn -> bool) (body : M S A)
    (handler : exn -> M S A) : M S A :=
  fun s => match body s with
           | (Ok a, s') => (Ok a, s')
           | (Raise e, s') => if catches e then handler e s' else (Raise e, s')
           end.

(** [for x in xs: body x] *)
Fixpoint for_each {S A} (xs : list A) (body : A -> M S unit) : M S unit :=
  match xs with
  | [] => ret tt
  | x :: xs' => bind (body x) (fun _ => for_each xs' body)
  end.

Definition when {S} (b : bool) (m : M S unit) : M S unit :=
  if b then m else ret tt.

Module Notations.
Notation "x <- m ;; k" := (bind m (fun x => k))
  (at level 100, m at next level, right associativity,
   format "'[v' x  <-  m  ;;  '/' k ']'").
Notation "m ;; k" := (bind m (fun _ => k))
  (at level 100, right associativity,
   format "'[v' m  ;;  '/' k ']'").
End Notations.

(** A specification of a call: from a world in [P], the call either returns
    [a] in a world with [Q a], or raises [e] in a world with [E e]. *)
Definition triple {S A} (P : S -> Prop) (m : M S A)
    (Q : A -> S -> Prop) (E : exn -> S -> Prop) : Prop :=
  forall s, P s ->
    match m s with
    | (Ok a, s') => Q a s'
    | (Raise e, s') => E e s'
    end.

(** ** Floats *)

(** The operations on [float] that the sources use.  [f_div] is the raw
    quotient; Python's [/] raises on a zero divisor, see [py_div].
    [f_trunc] is [int(x)], which fails on an infinity or a NaN; [f_round] is
    the nearest integer, a tie going away from zero (C's [round]), which
    fails on the same. *)
Class PyFloat (F : Type) : Type := {
  f_of_Z : Z -> F;
  f_add : F -> F -> F;
  f_sub : F -> F -> F;
  f_mul : F -> F -> F;
  f_div : F -> F -> F;
  f_eqb : F -> F -> bool;
  f_ltb : F -> F -> bool;
  f_leb : F -> F -> bool;
  f_trunc : F -> option Z;
  f_round : F -> option Z
}.

Section FloatOps.
Context {F : Type} `{PyFloat F}.

(** A decimal literal [n / d], e.g. [0.3] is [f_lit 3 10]: the quotient of
    two integers, rounded once, which is how Python reads the literal. *)
Definition f_lit (n d : Z) : F := f_div (f_of_Z n) (f_of_Z d).

(** [a / b] on integers (true division); below 2^53 in size, the integers
    convert exactly and the quotient is rounded once. *)
Definition py_div (a b : Z) : result F :=
  if b =? 0 then Raise ZeroDivisionError
  else Ok (f_div (f_of_Z a) (f_of_Z b)).

(** [min(a, b)] and [max(a, b)]: the first argument wins a tie. *)
Definition py_min (a b : F) : F := if f_ltb b a then b else a.
Definition py_max (a b : F) : F := if f_ltb a b then b else a.

(** [int(x)] *)
Definition py_int (x : F) : result Z :=
  match f_trunc x with Some z => Ok z | None => Raise ValueError end.
End FloatOps.

(** *** The machine numbers *)

(** [float(z)], for [z] below 2^63 in size. *)
Definition float_of_Z (z : Z) : float :=
  match z with
  | Z0 => PrimFloat.zero
  | Zpos _ => PrimFloat.of_uint63 (Uint63.of_Z z)
  | Zneg p => PrimFloat.opp (PrimFloat.of_uint63 (Uint63.of_Z (Zpos p)))
  end.

(** [int(x)]: the integer part, towards zero. *)
Definition float_trunc (x : float) : option Z :=
  match Prim2SF x with
  | S754_zero _ => Some 0
  | S754_finite s m e =>
      let a := if 0 <=? e then Z.shiftl (Zpos m) e else Z.shiftr (Zpos m) (- e) in
      Some (if s then - a else a)
  | S754_infinity _ | S754_nan => None
  end.

(** The nearest integer, a tie away from zero: for [m * 2^(-k)], half a unit
    is added to the magnitude before the shift. *)
Definition float_round (x : float) : option Z :=
  match Prim2SF x with
  | S754_zero _ => Some 0
  | S754_finite s m e =>
      let a := if 0 <=? e then Z.shiftl (Zpos m) e
               else Z.shiftr (Zpos m + Z.shiftl 1 (- e - 1)) (- e) in
      Some (if s then - a else a)
  | S754_infinity _ | S754_nan => None
  end.

(** The place of a positive float among the floats: 0 for what is not
    positive, and a number that grows with the float otherwise. *)
Definition float_rank (x : float) : Z :=
  match Prim2SF x with
  | S754_finite false m e => 1 + (e - SpecFloat.emin prec emax) * 2 ^ prec + Zpos m
  | S754_infinity false => 2 + (emax - SpecFloat.emin prec emax) * 2 ^ prec
  | _ => 0
  end.

#[export] Instance binary64 : PyFloat float := {|
  f_of_Z := float_of_Z;
  f_add := PrimFloat.add;
  f_sub := PrimFloat.sub;
  f_mul := PrimFloat.mul;
  f_div := PrimFloat.div;
  f_eqb := PrimFloat.eqb;
  f_ltb := PrimFloat.ltb;
  f_leb := PrimFloat.leb;
  f_trunc := float_trunc;
  f_round := float_round
|}.

(** *** The exact numbers *)

Definition Q_trunc (q : Q) : Z :=
  if Qle_bool 0 q then Qfloor q else - Qfloor (- q).

Definition Q_round (q : Q) : Z :=
  if Qle_bool 0 q then Qfloor (q + (1 # 2)) else - Qfloor (- q + (1 # 2)).

Definition Q_ltb (a b : Q) : bool := negb (Qle_bool b a).

#[export] Instance exact : PyFloat Q := {|
  f_of_Z := inject_Z;
  f_add := Qplus;
  f_sub := Qminus;
  f_mul := Qmult;
  f_div := Qdiv;
  f_eqb := Qeq_bool;
  f_ltb := Q_ltb;
  f_leb := Qle_bool;
  f_trunc := fun q => Some (Q_trunc q);
  f_round := fun q => Some (Q_round q)
|}.

(** ** Dictionaries with string keys, in insertion order *)

Section Dict.
Context {V : Type}.

Fixpoint dict_get (k : string) (d : list (string * V)) : option V :=
  match d with
  | [] => None
  | (k', v) :: d' => if String.eqb k k' then Some v else dict_get k d'
  end.

(** [d[k] = v]: overwrite in place, or append a new key. *)
Fixpoint dict_set (k : string) (v : V) (d : list (string * V)) : list (string * V) :=
  match d with
  | [] => [(k, v)]
  | (k', v') :: d' =>
      if String.eqb k k' then (k, v) :: d' else (k', v') :: dict_set k v d'
  end.

Definition dict_mem (k : string) (d : list (string * V)) : bool :=
  match dict_get k d with Some _ => true | None => false end.

Definition dict_keys (d : list (string * V)) : list string := map fst d.
End Dict.

End Py.

(* ===================================================================== *)
(** * The parts of pygame the sources call *)
(* ===================================================================== *)

Module Pygame.
Import Py.

(** A surface is known by how it was made: decoded from a file, scaled,
    mirrored, assembled from nine slices, or created blank and filled with
    one colour. *)
Inductive Surface : Type :=
  | Image (path : string) (w h : Z)
  | Scaled (src : Surface) (w h : Z)
  | Flipped (src : Surface)
  | NineSlice (src : Surface) (w h border : Z)
  | Brightened (src : Surface)
  | Filled (w h : Z) (color : Z * Z * Z).

Fixpoint get_width (s : Surface) : Z :=
  match s with
  | Image _ w _ | Scaled _ w _ | NineSlice _ w _ _ | Filled w _ _ => w
  | Flipped src | Brightened src => get_width src
  end.

Fixpoint get_height (s : Surface) : Z :=
  match s with
  | Image _ _ h | Scaled _ _ h | NineSlice _ _ h _ | Filled _ h _ => h
  | Flipped src | Brightened src => get_height src
  end.

(** [pygame.transform.scale(img, (w, h))] refuses a negative size. *)
Definition transform_scale (img : Surface) (w h : Z) : result Surface :=
  if (w <? 0) || (h <? 0) then Raise ValueError else Ok (Scaled img w h).

(** [pygame.transform.flip(img, True, False)] *)
Definition transform_flip (img : Surface) : Surface := Flipped img.

(** A rectangle holds C integers. *)
Record Rect : Type := { rect_x : Z; rect_y : Z; rect_w : Z; rect_h : Z }.

Definition fits_int (z : Z) : bool := (- 2 ^ 31 <=? z) && (z <=? 2 ^ 31 - 1).

(** [image.get_rect(center=pos)] *)
Definition get_rect_center (img : Surface) (pos : Z * Z) : Rect :=
  let w := get_width img in
  let h := get_height img in
  {| rect_x := fst pos - w / 2; rect_y := snd pos - h / 2; rect_w := w; rect_h := h |}.

End Pygame.

(* ===================================================================== *)
(** * [src/code/player/player.py] *)
(* ===================================================================== *)

Module Player.
Import Py Py.Notations Pygame.

Definition magenta : Z * Z * Z := (255, 0, 255).

(** [s = pygame.Surface((32, 32)); s.fill((255, 0, 255))] *)
Definition magenta_square : Surface := Filled 32 32 magenta.

(** One animation frame: [{'original': ..., 'flipped': ...}]. *)
Record Frame : Type := { original : Surface; flipped : Surface }.

(** ** The operating system, as the loader sees it *)

(** A failing system call carries its message; [os.listdir] fails with an
    [OSError], [pygame.image.load(p).convert_alpha()] with a [pygame.error]. *)
Record FileSystem : Type := {
  path_exists : string -> bool;                (* os.path.exists *)
  os_listdir : string -> string + list string; (* os.listdir *)
  isfile : string -> bool;                     (* os.path.isfile *)
  pygame_image_load : string -> string + Surface
}.

Definition listdir (fs : FileSystem) (path : string) : result (list string) :=
  match os_listdir fs path with
  | inl msg => Raise (OSError msg)
  | inr names => Ok names
  end.

Definition image_load (fs : FileSystem) (path : string) : result Surface :=
  match pygame_image_load fs path with
  | inl msg => Raise (PygameError msg)
  | inr img => Ok img
  end.

(** [os.path.join(a, b)] on POSIX paths. *)
Definition ends_with_slash (a : string) : bool :=
  match String.get (String.length a - 1)%nat a with
  | Some c => Ascii.eqb c "/"%char
  | None => false
  end.

Definition os_path_join (a b : string) : string :=
  if String.prefix "/" b then b
  else if String.eqb a "" || ends_with_slash a then String.append a b
  else String.append a (String.append "/" b).

(** [sorted(names)]: insertion by code point order, stable. *)
Fixpoint insert_sorted (x : string) (l : list string) : list string :=
  match l with
  | [] => [x]
  | y :: l' => if String.ltb x y then x :: l else y :: insert_sorted x l'
  end.

Definition sorted (l : list string) : list string :=
  fold_right insert_sorted [] (rev l).

(** ** What the player prints *)

Inductive Msg : Type :=
  | WarnPathMissing (path : string)       (* Warning: Animation path does not exist *)
  | ErrLoadingFrame (frame_path : string) (e : exn)
  | LoadedFrames (n : nat) (animation_name : string)
  | WarnNoFrames (animation_name : string)
  | ErrProcessing (animation_name : string) (e : exn)
  | WarnPlaceholder                       (* Warning: No animations loaded. Using placeholder. *)
  | SetDefaultSpeed (anim_name : string).

Section WithFloat.
Context {F : Type} `{PyFloat F}.

(** ** The object while [__init__] runs

    [load_animations] is called before [__init__] has assigned [debug]: the
    attribute is absent then, and reading it raises.  The record holds the
    attributes the loader reads or writes, and the console. *)
Record Attrs : Type := {
  a_scale : F;
  a_animation_frames : list (string * list Frame);
  a_animation_speeds : list (string * F);
  a_debug : option bool;
  a_stdout : list Msg
}.

Definition set_animation_frames (v : list (string * list Frame)) (a : Attrs) : Attrs :=
  {| a_scale := a_scale a; a_animation_frames := v;
     a_animation_speeds := a_animation_speeds a; a_debug := a_debug a;
     a_stdout := a_stdout a |}.

Definition set_animation_speeds (v : list (string * F)) (a : Attrs) : Attrs :=
  {| a_scale := a_scale a; a_animation_frames := a_animation_frames a;
     a_animation_speeds := v; a_debug := a_debug a; a_stdout := a_stdout a |}.

Definition print (m : Msg) : M Attrs unit :=
  modify (fun a =>
    {| a_scale := a_scale a; a_animation_frames := a_animation_frames a;
       a_animation_speeds := a_animation_speeds a; a_debug := a_debug a;
       a_stdout := a_stdout a ++ [m] |}).

(** [self.debug] *)
Definition self_debug : M Attrs bool :=
  fun a => match a_debug a with
           | Some b => (Ok b, a)
           | None => (Raise (AttributeError "debug"), a)
           end.

(** ** [Player.load_animations] *)

(** The body of the inner [try]: decode one file, scale it, mirror it. *)
Definition load_frame (fs : FileSystem) (frame_path : string) : M Attrs Frame :=
  frame_image <- lift (image_load fs frame_path) ;;
  scale <- gets a_scale ;;
  frame_image <-
    (if negb (f_eqb scale (f_of_Z 1)) then
       width <- lift (py_int (f_mul (f_of_Z (get_width frame_image)) scale)) ;;
       height <- lift (py_int (f_mul (f_of_Z (get_height frame_image)) scale)) ;;
       lift (transform_scale frame_image width height)
     else ret frame_image) ;;
  ret {| original := frame_image; flipped := transform_flip frame_image |}.

(** [for frame_name in files: try: ... frames.append(...) except Exception ...] *)
Fixpoint load_frames (fs : FileSystem) (path : string) (files : list string)
    (frames : list Frame) : M Attrs (list Frame) :=
  match files with
  | [] => ret frames
  | frame_name :: files' =>
      let frame_path := os_path_join path frame_name in
      frames <- try_except
                  (fr <- load_frame fs frame_path ;; ret (frames ++ [fr]))
                  (fun e => print (ErrLoadingFrame frame_path e) ;; ret frames) ;;
      load_frames fs path files' frames
  end.

(** One turn of the loop over [animation_paths.items()]. *)
Definition load_animation (fs : FileSystem) (animation_name path : string) : M Attrs unit :=
  if negb (path_exists fs path) then
    print (WarnPathMissing path)
  else
    try_except
      (names <- lift (listdir fs path) ;;
       let files :=
         List.filter (fun f => isfile fs (os_path_join path f)) (sorted names) in
       frames <- load_frames fs path files [] ;;
       match frames with
       | _ :: _ =>
           modify (fun a =>
             set_animation_frames
               (dict_set animation_name frames (a_animation_frames a)) a) ;;
           debug <- self_debug ;;
           when debug (print (LoadedFrames (length frames) animation_name))
       | [] => print (WarnNoFrames animation_name)
       end)
      (fun e => print (ErrProcessing animation_name e)).

Definition placeholder_frame : Frame :=
  {| original := magenta_square; flipped := magenta_square |}.

(** No animation of the table has an empty frame list. *)
Definition frames_nonempty (table : list (string * list Frame)) : Prop :=
  Forall (fun kv => snd kv <> []) table.

Definition is_empty {A} (l : list A) : bool :=
  match l with [] => true | _ => false end.

Definition load_animations (fs : FileSystem) (animation_paths : list (string * string))
  : M Attrs unit :=
  for_each animation_paths (fun np => load_animation fs (fst np) (snd np)) ;;
  frames <- gets a_animation_frames ;;
  when (is_empty frames)
    (modify (fun a =>
       set_animation_frames
         (dict_set "idle" [placeholder_frame] (a_animation_frames a)) a) ;;
     print WarnPlaceholder) ;;
  frames <- gets a_animation_frames ;;
  for_each (dict_keys frames) (fun anim_name =>
    speeds <- gets a_animation_speeds ;;
    when (negb (dict_mem anim_name speeds))
      (modify (fun a =>
         set_animation_speeds
           (dict_set anim_name (f_lit 1 10) (a_animation_speeds a)) a) ;;
       print (SetDefaultSpeed anim_name))).

(** ** The constructed player *)

Record Player : Type := {
  speed : F;
  scale : F;
  animation_frames : list (string * list Frame);
  animation_speeds : list (string * F);
  current_animation : string;
  frame_index : Z;
  animation_timer : F;
  direction : F * F;
  facing_right : bool;
  image : Surface;
  rect : Rect;
  debug : bool
}.

(** [Player.__init__(pos, animation_paths, speed, scale)]: the new object
    and what was printed, or the exception that escaped. *)
Definition init (fs : FileSystem) (pos : Z * Z)
    (animation_paths : list (string * string)) (speed0 scale0 : F)
  : result Player * list Msg :=
  let self0 :=
    {| a_scale := scale0;
       a_animation_frames := [];
       a_animation_speeds :=
         [("idle", f_lit 1 10); ("walking", f_lit 8 100); ("attack", f_lit 5 100)];
       a_debug := None;
       a_stdout := [] |} in
  match load_animations fs animation_paths self0 with
  | (Raise e, a) => (Raise e, a_stdout a)
  | (Ok _, a) =>
      let current := "idle" in
      let img :=
        match dict_get current (a_animation_frames a) with
        | Some (fr :: _) => original fr
        | _ => magenta_square
        end in
      (Ok {| speed := speed0;
             scale := a_scale a;
             animation_frames := a_animation_frames a;
             animation_speeds := a_animation_speeds a;
             current_animation := current;
             frame_index := 0;
             animation_timer := f_of_Z 0;
             direction := (f_of_Z 0, f_of_Z 0);
             facing_right := true;
             image := img;
             rect := get_rect_center img pos;
             debug := false |},
       a_stdout a)
  end.

(** ** [Player.get_current_animation_speed] and [Player.animate] *)

Definition get_current_animation_speed (self : Player) : F :=
  match dict_get (current_animation self) (animation_speeds self) with
  | Some s => s
  | None => f_lit 1 10
  end.

(** [l[i]] on a Python list: a negative index counts from the end. *)
Definition py_getitem {A} (l : list A) (i : Z) : result A :=
  let n := Z.of_nat (length l) in
  let j := if i <? 0 then i + n else i in
  if (j <? 0) || (n <=? j) then Raise IndexError
  else match nth_error l (Z.to_nat j) with
       | Some x => Ok x
       | None => Raise IndexError
       end.

(** The catch-up loop
    [while timer >= current_speed: timer -= current_speed; frame_index = ...].
    [None] when the loop is still running after [fuel] turns. *)
Fixpoint animate_loop (fuel : nat) (current_speed : F) (frames_count : Z)
    (timer : F) (index : Z) : option (result (F * Z)) :=
  if f_leb current_speed timer then
    match fuel with
    | O => None
    | S fuel' =>
        if frames_count =? 0 then Some (Raise ZeroDivisionError)
        else animate_loop fuel' current_speed frames_count
               (f_sub timer current_speed) ((index + 1) mod frames_count)
    end
  else Some (Ok (timer, index)).

(** The timers the catch-up loop goes through, from [timer] on. *)
Inductive visited (current_speed : F) : F -> F -> Prop :=
  | visited_here (timer : F) : visited current_speed timer timer
  | visited_next (timer t : F) :
      f_leb current_speed timer = true ->
      visited current_speed (f_sub timer current_speed) t ->
      visited current_speed timer t.

(** Every [timer -= current_speed] of the loop lowers the timer. *)
Definition lowers (current_speed timer : F) : Prop :=
  forall t, visited current_speed timer t -> f_leb current_speed t = true ->
            f_ltb (f_sub t current_speed) t = true.

(** The same, checked along the loop for at most [fuel] turns. *)
Fixpoint lowers_within (fuel : nat) (current_speed timer : F) : bool :=
  if f_leb current_speed timer then
    match fuel with
    | O => false
    | S fuel' =>
        f_ltb (f_sub timer current_speed) timer
        && lowers_within fuel' current_speed (f_sub timer current_speed)
    end
  else true.

(** A [timer -= current_speed] of the loop leaves the timer as it was. *)
Definition absorbs (current_speed timer : F) : Prop :=
  exists t, visited current_speed timer t /\ f_leb current_speed t = true
            /\ f_sub t current_speed = t.
Definition set_frame (timer : F) (index : Z) (img : Surface) (self : Player) : Player :=
  {| speed := speed self; scale := scale self;
     animation_frames := animation_frames self;
     animation_speeds := animation_speeds self;
     current_animation := current_animation self;
     frame_index := index;
     animation_timer := timer;
     direction := direction self;
     facing_right := facing_right self;
     image := img;
     rect := rect self;
     debug := debug self |}.

Definition facing (self : Player) (fr : Frame) : Surface :=
  if facing_right self then original fr else flipped fr.

(** [Player.animate(dt)]; the lines printed in debug mode are left out. *)
Definition animate (fuel : nat) (self : Player) (dt : F) : option (result Player) :=
  match dict_get (current_animation self) (animation_frames self) with
  | None => Some (Ok self)
  | Some frames =>
      let current_speed := get_current_animation_speed self in
      let timer := f_add (animation_timer self) dt in
      let frames_count := Z.of_nat (length frames) in
      if f_leb current_speed timer then
        match animate_loop fuel current_speed frames_count timer (frame_index self) with
        | None => None
        | Some (Raise e) => Some (Raise e)
        | Some (Ok (timer', index')) =>
            match py_getitem frames index' with
            | Raise e => Some (Raise e)
            | Ok fr => Some (Ok (set_frame timer' index' (facing self fr) self))
            end
        end
      else Some (Ok (set_frame timer (frame_index self) (image self) self))
  end.

(** [Player.set_animation(animation_name)] *)
Definition set_animation (self : Player) (animation_name : string) : result Player :=
  match dict_get animation_name (animation_frames self) with
  | Some frames =>
      if negb (String.eqb (current_animation self) animation_name) then
        match py_getitem frames 0 with
        | Raise e => Raise e
        | Ok fr =>
            Ok {| speed := speed self; scale := scale self;
                  animation_frames := animation_frames self;
                  animation_speeds := animation_speeds self;
                  current_animation := animation_name;
                  frame_index := 0;
                  animation_timer := f_of_Z 0;
                  direction := direction self;
                  facing_right := facing_right self;
                  image := facing self fr;
                  rect := rect self;
                  debug := debug self |}
        end
      else Ok self
  | None => Ok self
  end.

(** [Player.attack()] *)
Definition attack (self : Player) : result Player := set_animation self "attack".

(** [Player.set_animation_speed(animation_name, speed)] *)
Definition set_animation_speed (self : Player) (animation_name : string) (v : F) : Player :=
  {| speed := speed self; scale := scale self;
     animation_frames := animation_frames self;
     animation_speeds := dict_set animation_name v (animation_speeds self);
     current_animation := current_animation self;
     frame_index := frame_index self;
     animation_timer := animation_timer self;
     direction := direction self;
     facing_right := facing_right self;
     image := image self;
     rect := rect self;
     debug := debug self |}.

(** The state the claims about [animate] speak of: the current animation is
    in the table with [frames], and [frame_index] points into it. *)
Definition index_valid (self : Player) : Prop :=
  match dict_get (current_animation self) (animation_frames self) with
  | Some frames => 0 <= frame_index self < Z.of_nat (length frames)
  | None => True
  end.

(** ** Predicates for the proofs about the loader *)

(** The loader lets no exception out. *)
Definition never : exn -> Attrs -> Prop := fun _ _ => False.

(** Predicates on the object that printing does not disturb. *)
Definition print_stable (I : Attrs -> Prop) : Prop :=
  forall a m, I a ->
    I {| a_scale := a_scale a; a_animation_frames := a_animation_frames a;
         a_animation_speeds := a_animation_speeds a; a_debug := a_debug a;
         a_stdout := a_stdout a ++ [m] |}.

(** Predicates that survive storing a non-empty frame list. *)
Definition store_stable (I : Attrs -> Prop) : Prop :=
  forall a name frames, frames <> [] -> I a ->
    I (set_animation_frames (dict_set name frames (a_animation_frames a)) a).

(** Predicates that do not look at the speeds. *)
Definition speeds_stable (I : Attrs -> Prop) : Prop :=
  forall a v, I a -> I (set_animation_speeds v a).

(** The object once the placeholder has been installed. *)
Definition with_placeholder (a : Attrs) : Attrs :=
  {| a_scale := a_scale a;
     a_animation_frames := [("idle", [placeholder_frame])];
     a_animation_speeds := a_animation_speeds a;
     a_debug := a_debug a;
     a_stdout := a_stdout a ++ [WarnPlaceholder] |}.

(** The player [__init__] builds when nothing could be loaded. *)
Definition placeholder_player : Player :=
  {| speed := f_of_Z 5; scale := f_of_Z 1;
     animation_frames := [("idle", [placeholder_frame])];
     animation_speeds :=
       [("idle", f_lit 1 10); ("walking", f_lit 8 100); ("attack", f_lit 5 100)];
     current_animation := "idle"; frame_index := 0;
     animation_timer := f_of_Z 0; direction := (f_of_Z 0, f_of_Z 0);
     facing_right := true; image := magenta_square;
     rect := get_rect_center magenta_square (0, 0); debug := false |}.

End WithFloat.
Arguments Attrs F : clear implicits.
Arguments Player F : clear implicits.

(** ** File systems to run the loader on *)

(** No directory at all. *)
Definition no_files : FileSystem :=
  {| path_exists := fun _ => false;
     os_listdir := fun _ => inl "No such file or directory";
     isfile := fun _ => false;
     pygame_image_load := fun _ => inl "No file found" |}.

(** One decodable frame for [idle], and nothing else. *)
Definition only_idle : FileSystem :=
  {| path_exists := fun p => String.eqb p "assets/idle";
     os_listdir := fun p =>
       if String.eqb p "assets/idle" then inr ["0.png"]
       else inl "No such file or directory";
     isfile := fun _ => true;
     pygame_image_load := fun p => inr (Image p 64 64) |}.

Definition idle_and_walking : list (string * string) :=
  [("idle", "assets/idle"); ("walking", "assets/walking")].

End Player.

(* ===================================================================== *)
(** * [src/code/views/button.py] *)
(* ===================================================================== *)

Module Button.
Import Py Py.Notations Pygame.

(** The attributes of a button; [on_click] is a callback of the owning view
    and plays no part in the geometry.  [scaled_hover_image] is absent until
    [scale_hover_image] has run. *)
Record Button : Type := {
  text : string;
  original_x : Z;
  original_y : Z;
  original_width : Z;
  original_height : Z;
  rect : Rect;
  hovered : bool;
  image_path : option string;
  image : option Surface;
  scaled_image : option Surface;
  hover_image : option Surface;
  scaled_hover_image : option Surface;
  border_size : Z;
  use_9slice : bool
}.

Definition set_rect (v : Rect) (b : Button) : Button :=
  {| text := text b; original_x := original_x b; original_y := original_y b;
     original_width := original_width b; original_height := original_height b; rect := v;
     hovered := hovered b; image_path := image_path b; image := image b;
     scaled_image := scaled_image b; hover_image := hover_image b;
     scaled_hover_image := scaled_hover_image b; border_size := border_size b;
     use_9slice := use_9slice b |}.

Definition set_scaled_image (v : option Surface) (b : Button) : Button :=
  {| text := text b; original_x := original_x b; original_y := original_y b;
     original_width := original_width b; original_height := original_height b;
     rect := rect b; hovered := hovered b; image_path := image_path b; image := image b;
     scaled_image := v; hover_image := hover_image b;
     scaled_hover_image := scaled_hover_image b; border_size := border_size b;
     use_9slice := use_9slice b |}.

Definition set_scaled_hover_image (v : option Surface) (b : Button) : Button :=
  {| text := text b; original_x := original_x b; original_y := original_y b;
     original_width := original_width b; original_height := original_height b;
     rect := rect b; hovered := hovered b; image_path := image_path b; image := image b;
     scaled_image := scaled_image b; hover_image := hover_image b;
     scaled_hover_image := v; border_size := border_size b; use_9slice := use_9slice b |}.

Definition set_image (v : option Surface) (b : Button) : Button :=
  {| text := text b; original_x := original_x b; original_y := original_y b;
     original_width := original_width b; original_height := original_height b;
     rect := rect b; hovered := hovered b; image_path := image_path b; image := v;
     scaled_image := scaled_image b; hover_image := hover_image b;
     scaled_hover_image := scaled_hover_image b; border_size := border_size b;
     use_9slice := use_9slice b |}.

Definition set_hover_image (v : option Surface) (b : Button) : Button :=
  {| text := text b; original_x := original_x b; original_y := original_y b;
     original_width := original_width b; original_height := original_height b;
     rect := rect b; hovered := hovered b; image_path := image_path b; image := image b;
     scaled_image := scaled_image b; hover_image := v;
     scaled_hover_image := scaled_hover_image b; border_size := border_size b;
     use_9slice := use_9slice b |}.

Definition is_pygame_error (e : exn) : bool :=
  match e with PygameError _ => true | _ => false end.

Definition min3 (a b c : Z) : Z := Z.min (Z.min a b) c.

Section WithFloat.
Context {F : Type} `{PyFloat F}.

(** Storing a float in a coordinate of a [pygame.Rect] rounds it to the
    nearest integer, a tie away from zero; what is no number, or does not
    fit a C [int], is refused. *)
Definition rect_assign (v : F) : result Z :=
  match f_round v with
  | Some z => if fits_int z then Ok z else Raise TypeError
  | None => Raise TypeError
  end.

(** [Button.scale_9slice(source_image)]: the nine pieces are cut out of the
    source and the stretched ones are scaled to the button. *)
Definition scale_9slice (b : Button) (source_image : Surface) : result Surface :=
  let w := rect_w (rect b) in
  let h := rect_h (rect b) in
  if (w <? 0) || (h <? 0) then Raise (PygameError "Invalid resolution for Surface")
  else
    let orig_width := get_width source_image in
    let orig_height := get_height source_image in
    let border := min3 (border_size b) (orig_width / 2) (orig_height / 2) in
    if border <? 0 then Raise (PygameError "Invalid subsurface rectangle")
    else if (w - 2 * border <? 0) || (h - 2 * border <? 0) then Raise ValueError
    else Ok (NineSlice source_image w h border).

Definition fits_9slice (b : Button) (img : Surface) : bool :=
  use_9slice b && (border_size b * 2 <=? get_width img)
               && (border_size b * 2 <=? get_height img).

(** [Button.scale_image()] *)
Definition scale_image : M Button unit :=
  b <- get ;;
  match image b with
  | None => ret tt
  | Some img =>
      scaled <- lift (if fits_9slice b img then scale_9slice b img
                      else transform_scale img (rect_w (rect b)) (rect_h (rect b))) ;;
      modify (set_scaled_image (Some scaled))
  end.

(** [Button.scale_hover_image()] *)
Definition scale_hover_image : M Button unit :=
  b <- get ;;
  match hover_image b with
  | None => ret tt
  | Some img =>
      scaled <- lift (if fits_9slice b img then scale_9slice b img
                      else transform_scale img (rect_w (rect b)) (rect_h (rect b))) ;;
      modify (set_scaled_hover_image (Some scaled))
  end.

(** [Button.resize(scale_x, scale_y)] *)
Definition resize (scale_x scale_y : F) : M Button unit :=
  b <- get ;;
  x <- lift (rect_assign (f_mul (f_of_Z (original_x b)) scale_x)) ;;
  modify (fun b => set_rect {| rect_x := x; rect_y := rect_y (rect b);
                               rect_w := rect_w (rect b); rect_h := rect_h (rect b) |} b) ;;
  y <- lift (rect_assign (f_mul (f_of_Z (original_y b)) scale_y)) ;;
  modify (fun b => set_rect {| rect_x := rect_x (rect b); rect_y := y;
                               rect_w := rect_w (rect b); rect_h := rect_h (rect b) |} b) ;;
  width <- lift (rect_assign (f_mul (f_of_Z (original_width b)) scale_x)) ;;
  modify (fun b => set_rect {| rect_x := rect_x (rect b); rect_y := rect_y (rect b);
                               rect_w := width; rect_h := rect_h (rect b) |} b) ;;
  height <- lift (rect_assign (f_mul (f_of_Z (original_height b)) scale_y)) ;;
  modify (fun b => set_rect {| rect_x := rect_x (rect b); rect_y := rect_y (rect b);
                               rect_w := rect_w (rect b); rect_h := height |} b) ;;
  b <- get ;;
  match image b with
  | Some _ => scale_image ;; scale_hover_image
  | None => ret tt
  end.

(** [Button.create_hover_image()]: a brighter copy of the image. *)
Definition create_hover_image : M Button unit :=
  b <- get ;;
  match image b with
  | None => ret tt
  | Some img =>
      modify (set_hover_image (Some (Brightened img))) ;;
      scale_hover_image
  end.

(** [Button.load_image()]; [decode] is [pygame.image.load(p).convert_alpha()],
    which raises [FileNotFoundError] for a file that is not there and
    [pygame.error] for one that is no image. *)
Definition load_image (decode : string -> result Surface) (path : string)
  : M Button unit :=
  try_catch is_pygame_error
    (img <- lift (decode path) ;;
     modify (set_image (Some img)) ;;
     scale_image ;;
     create_hover_image)
    (fun _ => modify (set_image None)).

(** [Button(text, x, y, width, height, on_click, image_path, border_size,
    use_9slice)] *)
Definition init (decode : string -> result Surface) (text0 : string)
    (x y width height : Z) (image_path0 : option string) (border_size0 : Z)
    (use_9slice0 : bool) : result unit * Button :=
  let b :=
    {| text := text0; original_x := x; original_y := y;
       original_width := width; original_height := height;
       rect := {| rect_x := x; rect_y := y; rect_w := width; rect_h := height |};
       hovered := false; image_path := image_path0; image := None;
       scaled_image := None; hover_image := None; scaled_hover_image := None;
       border_size := border_size0; use_9slice := use_9slice0 |} in
  match image_path0 with
  | Some path => if String.eqb path "" then (Ok tt, b) else load_image decode path b
  | None => (Ok tt, b)
  end.

(** The rectangle a single factor [s] on both axes would give. *)
Definition uniformly_scaled (b : Button) (s : F) (r : Rect) : Prop :=
  rect_assign (f_mul (f_of_Z (original_x b)) s) = Ok (rect_x r)
  /\ rect_assign (f_mul (f_of_Z (original_y b)) s) = Ok (rect_y r)
  /\ rect_assign (f_mul (f_of_Z (original_width b)) s) = Ok (rect_w r)
  /\ rect_assign (f_mul (f_of_Z (original_height b)) s) = Ok (rect_h r).

End WithFloat.

(** No image file is there. *)
Definition no_decoder : string -> result Surface := fun p => Raise (FileNotFoundError p).

(** [Button("Play", 10, 10, 100, 50, on_click)] *)
Definition play_button : Button :=
  snd (init no_decoder "Play" 10 10 100 50 None 12 true).

End Button.

(* ===================================================================== *)
(** * [main.py] *)
(* ===================================================================== *)

Module Main.
Import Py Py.Notations.

(** ** Collaborators of [Game] *)

(** A view object is known by its address: [current_view] and
    [saved_game_view] hold addresses, and two of them may name one object. *)
Definition ref : Type := positive.

Record Font : Type := { font_size : Z }.

(** Modelled from the spec: the view classes [MainMenu], [Settings] and
    [GameView] ([src/code/views/]) are missing.  A view keeps the arguments
    its constructor was called with, and the window size its
    [handle_resize(w, h)] was last called with; a settings view also has the
    attribute [show_fps], which starts from the game state it can read. *)
Inductive ViewObj : Type :=
  | MainMenu (design_width design_height : Z) (layout : option (Z * Z))
  | Settings (design_width design_height : Z)
             (toggle_fullscreen is_ingame return_to_game : bool)
             (show_fps : bool) (layout : option (Z * Z))
  | GameView (animation_paths : list (string * string)) (font : option Font)
             (show_fps : bool) (layout : option (Z * Z)).

Definition is_GameView (v : ViewObj) : bool :=
  match v with GameView _ _ _ _ => true | _ => false end.

Definition is_Settings (v : ViewObj) : bool :=
  match v with Settings _ _ _ _ _ _ _ => true | _ => false end.

(** [view.handle_resize(w, h)] *)
Definition view_handle_resize (v : ViewObj) (w h : Z) : ViewObj :=
  match v with
  | MainMenu dw dh _ => MainMenu dw dh (Some (w, h))
  | Settings dw dh tf ig rtg fps _ => Settings dw dh tf ig rtg fps (Some (w, h))
  | GameView paths f fps _ => GameView paths f fps (Some (w, h))
  end.

(** [hasattr(view, "update")]: only the game view advances with time. *)
Definition has_update (v : ViewObj) : bool := is_GameView v.

(** Modelled from the spec: the class [LoadingScreen]
    ([src/code/views/loading_screen.py]) is missing.  The overlay starts
    transparent and active, with no progress; [update_progress] stores the
    percentage and [update_screen_size] the window size. *)
Record LoadingScreen : Type := {
  ls_design_width : Z;
  ls_design_height : Z;
  current_width : Z;
  current_height : Z;
  alpha : Z;
  active : bool;
  progress : Z
}.

Definition set_alpha (v : Z) (ts : LoadingScreen) : LoadingScreen :=
  {| ls_design_width := ls_design_width ts; ls_design_height := ls_design_height ts;
     current_width := current_width ts; current_height := current_height ts; alpha := v;
     active := active ts; progress := progress ts |}.

Definition set_active (v : bool) (ts : LoadingScreen) : LoadingScreen :=
  {| ls_design_width := ls_design_width ts; ls_design_height := ls_design_height ts;
     current_width := current_width ts; current_height := current_height ts;
     alpha := alpha ts; active := v; progress := progress ts |}.

Definition set_progress (v : Z) (ts : LoadingScreen) : LoadingScreen :=
  {| ls_design_width := ls_design_width ts; ls_design_height := ls_design_height ts;
     current_width := current_width ts; current_height := current_height ts;
     alpha := alpha ts; active := active ts; progress := v |}.

Definition set_current_size (w h : Z) (ts : LoadingScreen) : LoadingScreen :=
  {| ls_design_width := ls_design_width ts; ls_design_height := ls_design_height ts;
     current_width := w; current_height := h;
     alpha := alpha ts; active := active ts; progress := progress ts |}.

Definition LoadingScreen_init (design_width design_height current_width0 current_height0 : Z)
  : LoadingScreen :=
  {| ls_design_width := design_width; ls_design_height := design_height;
     current_width := current_width0; current_height := current_height0;
     alpha := 0; active := true; progress := 0 |}.

Definition update_progress (p : Z) (ts : LoadingScreen) : LoadingScreen :=
  set_progress p ts.

Definition update_screen_size (w h : Z) (ts : LoadingScreen) : LoadingScreen :=
  set_current_size w h ts.

(** Modelled from the spec: one call of [LoadingScreen.update_fade] moves
    [alpha] by a fixed step, up to 255 while the overlay is active and down
    to 0 once it is not. *)
Definition update_fade_by (step : Z) (ts : LoadingScreen) : LoadingScreen :=
  if active ts then set_alpha (Z.min 255 (alpha ts + step)) ts
  else set_alpha (Z.max 0 (alpha ts - step)) ts.

(** ** pygame: events, the window, the calls that reach the screen *)

Inductive Event : Type :=
  | QUIT
  | VIDEORESIZE (w h : Z)
  | MOUSEMOTION (x y : Z)
  | MOUSEBUTTONDOWN (x y : Z)
  | MOUSEBUTTONUP (x y : Z)
  | KEYDOWN (key : Z).

Inductive EventType : Type :=
  | TQUIT | TVIDEORESIZE | TMOUSEMOTION | TMOUSEBUTTONDOWN | TMOUSEBUTTONUP | TKEYDOWN.

Definition EventType_eqb (a b : EventType) : bool :=
  match a, b with
  | TQUIT, TQUIT | TVIDEORESIZE, TVIDEORESIZE | TMOUSEMOTION, TMOUSEMOTION
  | TMOUSEBUTTONDOWN, TMOUSEBUTTONDOWN | TMOUSEBUTTONUP, TMOUSEBUTTONUP
  | TKEYDOWN, TKEYDOWN => true
  | _, _ => false
  end.

(** [[pygame.MOUSEMOTION, pygame.MOUSEBUTTONDOWN, pygame.MOUSEBUTTONUP]] *)
Definition mouse_events : list EventType :=
  [TMOUSEMOTION; TMOUSEBUTTONDOWN; TMOUSEBUTTONUP].

Inductive WindowFlags : Type := RESIZABLE | FULLSCREEN.

Record Window : Type := { window_size : Z * Z; window_flags : WindowFlags }.

(** What a frame is made of.  An overlay is drawn as it is at that moment. *)
Inductive Call : Type :=
  | Fill
  | DrawView (r : ref)
  | DrawOverlay (ts_drawn : LoadingScreen)
  | Flip
  | Tick (fps : Z)
  | Pump.

(** ** asyncio: coroutines and tasks *)

(** The statements of the coroutine [load_game_resources]. *)
Inductive Action : Type :=
  | UpdateProgress (percent : Z)
  | RenderTransition
  | EventPump
  | CreateGameView
  | BlockMouseEvents
  | HideCursor
  | StartFadeOut.

(** A coroutine: what is left to run.  [Await d k] stands at
    [await asyncio.sleep(d)]. *)
Inductive Coro : Type :=
  | Await (delay : Q) (k : Coro)
  | Do (a : Action) (k : Coro)
  | Return.

(** A task of the event loop: its coroutine, whether it has been scheduled
    once, and the exception that ended it. *)
Record Task : Type := { coro : Coro; started : bool; failure : option exn }.

(** [for i in range(lo, lo + n): body i], in a coroutine. *)
Fixpoint for_range (lo : Z) (n : nat) (body : Z -> Coro -> Coro) (k : Coro) : Coro :=
  match n with
  | O => k
  | S n' => body lo (for_range (lo + 1) n' body k)
  end.

(** ** The game object and the process around it *)

Record Game : Type := {
  animation_paths : list (string * string);
  design_width : Z;
  design_height : Z;
  WIDTH : Z;
  HEIGHT : Z;
  FPS : Z;
  fullscreen : bool;
  show_fps : bool;
  windowed_size : Z * Z;
  font : option Font;
  current_view : option ref;
  transition_screen : option LoadingScreen;
  pending_view : option string;
  window : Window;
  load_task : option nat;
  saved_game_view : option ref
}.

Definition set_WIDTH (v : Z) (g : Game) : Game :=
  {| animation_paths := animation_paths g; design_width := design_width g;
     design_height := design_height g; WIDTH := v; HEIGHT := HEIGHT g; FPS := FPS g;
     fullscreen := fullscreen g; show_fps := show_fps g;
     windowed_size := windowed_size g; font := font g; current_view := current_view g;
     transition_screen := transition_screen g; pending_view := pending_view g;
     window := window g; load_task := load_task g; saved_game_view := saved_game_view g |}.

Definition set_HEIGHT (v : Z) (g : Game) : Game :=
  {| animation_paths := animation_paths g; design_width := design_width g;
     design_height := design_height g; WIDTH := WIDTH g; HEIGHT := v; FPS := FPS g;
     fullscreen := fullscreen g; show_fps := show_fps g;
     windowed_size := windowed_size g; font := font g; current_view := current_view g;
     transition_screen := transition_screen g; pending_view := pending_view g;
     window := window g; load_task := load_task g; saved_game_view := saved_game_view g |}.

Definition set_fullscreen (v : bool) (g : Game) : Game :=
  {| animation_paths := animation_paths g; design_width := design_width g;
     design_height := design_height g; WIDTH := WIDTH g; HEIGHT := HEIGHT g;
     FPS := FPS g; fullscreen := v; show_fps := show_fps g;
     windowed_size := windowed_size g; font := font g; current_view := current_view g;
     transition_screen := transition_screen g; pending_view := pending_view g;
     window := window g; load_task := load_task g; saved_game_view := saved_game_view g |}.

Definition set_show_fps (v : bool) (g : Game) : Game :=
  {| animation_paths := animation_paths g; design_width := design_width g;
     design_height := design_height g; WIDTH := WIDTH g; HEIGHT := HEIGHT g;
     FPS := FPS g; fullscreen := fullscreen g; show_fps := v;
     windowed_size := windowed_size g; font := font g; current_view := current_view g;
     transition_screen := transition_screen g; pending_view := pending_view g;
     window := window g; load_task := load_task g; saved_game_view := saved_game_view g |}.

Definition set_windowed_size (v : Z * Z) (g : Game) : Game :=
  {| animation_paths := animation_paths g; design_width := design_width g;
     design_height := design_height g; WIDTH := WIDTH g; HEIGHT := HEIGHT g;
     FPS := FPS g; fullscreen := fullscreen g; show_fps := show_fps g;
     windowed_size := v; font := font g; current_view := current_view g;
     transition_screen := transition_screen g; pending_view := pending_view g;
     window := window g; load_task := load_task g; saved_game_view := saved_game_view g |}.

Definition set_font (v : option Font) (g : Game) : Game :=
  {| animation_paths := animation_paths g; design_width := design_width g;
     design_height := design_height g; WIDTH := WIDTH g; HEIGHT := HEIGHT g;
     FPS := FPS g; fullscreen := fullscreen g; show_fps := show_fps g;
     windowed_size := windowed_size g; font := v; current_view := current_view g;
     transition_screen := transition_screen g; pending_view := pending_view g;
     window := window g; load_task := load_task g; saved_game_view := saved_game_view g |}.

Definition set_current_view (v : option ref) (g : Game) : Game :=
  {| animation_paths := animation_paths g; design_width := design_width g;
     design_height := design_height g; WIDTH := WIDTH g; HEIGHT := HEIGHT g;
     FPS := FPS g; fullscreen := fullscreen g; show_fps := show_fps g;
     windowed_size := windowed_size g; font := font g; current_view := v;
     transition_screen := transition_screen g; pending_view := pending_view g;
     window := window g; load_task := load_task g; saved_game_view := saved_game_view g |}.

Definition set_transition_screen (v : option LoadingScreen) (g : Game) : Game :=
  {| animation_paths := animation_paths g; design_width := design_width g;
     design_height := design_height g; WIDTH := WIDTH g; HEIGHT := HEIGHT g;
     FPS := FPS g; fullscreen := fullscreen g; show_fps := show_fps g;
     windowed_size := windowed_size g; font := font g; current_view := current_view g;
     transition_screen := v; pending_view := pending_view g; window := window g;
     load_task := load_task g; saved_game_view := saved_game_view g |}.

Definition set_pending_view (v : option string) (g : Game) : Game :=
  {| animation_paths := animation_paths g; design_width := design_width g;
     design_height := design_height g; WIDTH := WIDTH g; HEIGHT := HEIGHT g;
     FPS := FPS g; fullscreen := fullscreen g; show_fps := show_fps g;
     windowed_size := windowed_size g; font := font g; current_view := current_view g;
     transition_screen := transition_screen g; pending_view := v; window := window g;
     load_task := load_task g; saved_game_view := saved_game_view g |}.

Definition set_window (v : Window) (g : Game) : Game :=
  {| animation_paths := animation_paths g; design_width := design_width g;
     design_height := design_height g; WIDTH := WIDTH g; HEIGHT := HEIGHT g;
     FPS := FPS g; fullscreen := fullscreen g; show_fps := show_fps g;
     windowed_size := windowed_size g; font := font g; current_view := current_view g;
     transition_screen := transition_screen g; pending_view := pending_view g;
     window := v; load_task := load_task g; saved_game_view := saved_game_view g |}.

Definition set_load_task (v : option nat) (g : Game) : Game :=
  {| animation_paths := animation_paths g; design_width := design_width g;
     design_height := design_height g; WIDTH := WIDTH g; HEIGHT := HEIGHT g;
     FPS := FPS g; fullscreen := fullscreen g; show_fps := show_fps g;
     windowed_size := windowed_size g; font := font g; current_view := current_view g;
     transition_screen := transition_screen g; pending_view := pending_view g;
     window := window g; load_task := v; saved_game_view := saved_game_view g |}.

Definition set_saved_game_view (v : option ref) (g : Game) : Game :=
  {| animation_paths := animation_paths g; design_width := design_width g;
     design_height := design_height g; WIDTH := WIDTH g; HEIGHT := HEIGHT g;
     FPS := FPS g; fullscreen := fullscreen g; show_fps := show_fps g;
     windowed_size := windowed_size g; font := font g; current_view := current_view g;
     transition_screen := transition_screen g; pending_view := pending_view g;
     window := window g; load_task := load_task g; saved_game_view := v |}.

Record World : Type := {
  self : Game;
  heap : gmap ref ViewObj;
  tasks : list Task;
  mouse_visible : bool;
  blocked : EventType -> bool;
  display : list Call;
  pygame_quit : bool
}.

Definition set_self (v : Game) (w : World) : World :=
  {| self := v; heap := heap w; tasks := tasks w; mouse_visible := mouse_visible w;
     blocked := blocked w; display := display w; pygame_quit := pygame_quit w |}.

Definition set_heap (v : gmap ref ViewObj) (w : World) : World :=
  {| self := self w; heap := v; tasks := tasks w; mouse_visible := mouse_visible w;
     blocked := blocked w; display := display w; pygame_quit := pygame_quit w |}.

Definition set_tasks (v : list Task) (w : World) : World :=
  {| self := self w; heap := heap w; tasks := v; mouse_visible := mouse_visible w;
     blocked := blocked w; display := display w; pygame_quit := pygame_quit w |}.

Definition set_mouse_visible (v : bool) (w : World) : World :=
  {| self := self w; heap := heap w; tasks := tasks w; mouse_visible := v;
     blocked := blocked w; display := display w; pygame_quit := pygame_quit w |}.

Definition set_blocked (v : EventType -> bool) (w : World) : World :=
  {| self := self w; heap := heap w; tasks := tasks w; mouse_visible := mouse_visible w;
     blocked := v; display := display w; pygame_quit := pygame_quit w |}.

Definition set_display (v : list Call) (w : World) : World :=
  {| self := self w; heap := heap w; tasks := tasks w; mouse_visible := mouse_visible w;
     blocked := blocked w; display := v; pygame_quit := pygame_quit w |}.

Definition set_pygame_quit (v : bool) (w : World) : World :=
  {| self := self w; heap := heap w; tasks := tasks w; mouse_visible := mouse_visible w;
     blocked := blocked w; display := display w; pygame_quit := v |}.

(** The requests a view can send back through the callbacks it was given. *)
Inductive Callback : Type :=
  | CallSwitchView (view_name : string)
  | CallToggleFullscreen
  | CallReturnToGame.

(** What [main.py] takes from outside: the module [constants], the display
    driver, and the behaviour of the missing classes. *)
Record Host (F : Type) : Type := {
  const_width : Z;
  const_height : Z;
  const_font_medium : Z;                       (* const.font_sizes["medium"] *)
  fullscreen_size : Z * Z;                     (* set_mode((0, 0), FULLSCREEN).get_size() *)
  update_fade : LoadingScreen -> LoadingScreen;
  view_handle_events : ViewObj -> list Event -> ViewObj * list Callback;
  view_update : ViewObj -> F -> ViewObj
}.
Arguments const_width {F} _.
Arguments const_height {F} _.
Arguments const_font_medium {F} _.
Arguments fullscreen_size {F} _.
Arguments update_fade {F} _ _.
Arguments view_handle_events {F} _ _ _.
Arguments view_update {F} _ _ _.

Section WithHost.
Context {F : Type} `{PyFloat F}.
Variable host : Host F.

(** ** Access to the world *)

Definition update_self (f : Game -> Game) : M World unit :=
  modify (fun w => set_self (f (self w)) w).

Definition emit (c : Call) : M World unit :=
  modify (fun w => set_display (display w ++ [c]) w).

(** [pygame.mouse.set_visible(b)] *)
Definition mouse_set_visible (b : bool) : M World unit :=
  modify (set_mouse_visible b).

Definition mem_type (t : EventType) (l : list EventType) : bool :=
  existsb (EventType_eqb t) l.

(** [pygame.event.set_allowed(types)] and [pygame.event.set_blocked(types)] *)
Definition event_set_allowed (types : list EventType) : M World unit :=
  modify (fun w => set_blocked (fun t => if mem_type t types then false else blocked w t) w).

Definition event_set_blocked (types : list EventType) : M World unit :=
  modify (fun w => set_blocked (fun t => if mem_type t types then true else blocked w t) w).

(** Constructing a view allocates a new object. *)
Definition new_view (v : ViewObj) : M World ref :=
  fun w => let r := fresh (dom (heap w)) in
           (Ok r, set_heap (<[r := v]> (heap w)) w).

(** [self.transition_screen.<method>]: the attribute of [None] is missing. *)
Definition the_transition_screen (method : string) : M World LoadingScreen :=
  g <- gets self ;;
  match transition_screen g with
  | Some ts => ret ts
  | None => raise (AttributeError method)
  end.

(** ** [Game.handle_resize] *)

Definition handle_resize : M World unit :=
  g <- gets self ;;
  sx <- lift (py_div (WIDTH g) (design_width g)) ;;
  sy <- lift (py_div (HEIGHT g) (design_height g)) ;;
  let scale := py_min sx sy in
  size <- lift (py_int (f_mul (f_of_Z (const_font_medium host)) scale)) ;;
  update_self (set_font (Some {| font_size := size |})) ;;
  g <- gets self ;;
  match current_view g with
  | Some r =>
      modify (fun w =>
        set_heap (alter (fun v => view_handle_resize v (WIDTH g) (HEIGHT g)) r (heap w)) w)
  | None => ret tt
  end.

(** ** [Game.switch_view] *)

(** [isinstance(self.current_view, GameView)] *)
Definition current_view_is (test : ViewObj -> bool) : M World bool :=
  w <- get ;;
  ret match current_view (self w) with
      | Some r => match heap w !! r with Some v => test v | None => false end
      | None => false
      end.

Definition switch_view (view_name : string) : M World unit :=
  (if String.eqb view_name "main" then
     mouse_set_visible true ;;
     g <- gets self ;;
     r <- new_view (MainMenu (design_width g) (design_height g) None) ;;
     update_self (set_current_view (Some r)) ;;
     event_set_allowed mouse_events ;;
     update_self (set_pending_view None)
   else if String.eqb view_name "game" then
     update_self (set_pending_view (Some "game")) ;;
     g <- gets self ;;
     update_self (set_transition_screen
       (Some (LoadingScreen_init (design_width g) (design_height g) (WIDTH g) (HEIGHT g))))
   else if String.eqb view_name "settings" then
     mouse_set_visible true ;;
     g <- gets self ;;
     r <- new_view (Settings (design_width g) (design_height g)
                      true false false (show_fps g) None) ;;
     update_self (set_current_view (Some r)) ;;
     event_set_allowed mouse_events ;;
     update_self (set_pending_view None)
   else if String.eqb view_name "ingame_settings" then
     mouse_set_visible true ;;
     in_game <- current_view_is is_GameView ;;
     when in_game
       (update_self (fun g => set_saved_game_view (current_view g) g)) ;;
     g <- gets self ;;
     r <- new_view (Settings (design_width g) (design_height g)
                      false true true (show_fps g) None) ;;
     update_self (set_current_view (Some r)) ;;
     event_set_allowed mouse_events ;;
     update_self (set_pending_view None)
   else if String.eqb view_name "exit" then
     modify (set_pygame_quit true) ;;
     raise SystemExit
   else ret tt) ;;
  handle_resize.

(** ** [Game.return_to_game] *)

Definition return_to_game : M World unit :=
  g <- gets self ;;
  match saved_game_view g with
  | Some saved =>
      update_self (set_current_view (Some saved)) ;;
      mouse_set_visible false ;;
      event_set_blocked mouse_events ;;
      update_self (set_pending_view None)
  | None => ret tt
  end.

(** ** [Game.toggle_fullscreen] *)

Definition toggle_fullscreen : M World unit :=
  update_self (fun g => set_fullscreen (negb (fullscreen g)) g) ;;
  g <- gets self ;;
  (if fullscreen g then
     update_self (fun g => set_windowed_size (WIDTH g, HEIGHT g) g) ;;
     update_self (set_window {| window_size := fullscreen_size host;
                                window_flags := FULLSCREEN |}) ;;
     update_self (fun g => set_HEIGHT (snd (window_size (window g)))
                             (set_WIDTH (fst (window_size (window g))) g))
   else
     update_self (fun g => set_window {| window_size := windowed_size g;
                                         window_flags := RESIZABLE |} g) ;;
     update_self (fun g => set_HEIGHT (snd (windowed_size g))
                             (set_WIDTH (fst (windowed_size g)) g))) ;;
  handle_resize ;;
  g <- gets self ;;
  match transition_screen g with
  | Some ts =>
      update_self (set_transition_screen
                     (Some (update_screen_size (WIDTH g) (HEIGHT g) ts)))
  | None => ret tt
  end.

(** ** [Game.render_transition] and [Game.update] *)

Definition render_transition : M World unit :=
  emit Fill ;;
  g <- gets self ;;
  match current_view g with Some r => emit (DrawView r) | None => ret tt end ;;
  ts <- the_transition_screen "draw" ;;
  emit (DrawOverlay ts) ;;
  emit Flip ;;
  emit (Tick 60).

Definition update : M World unit :=
  emit Fill ;;
  w <- get ;;
  match current_view (self w) with
  | Some r =>
      match heap w !! r with
      | Some (Settings _ _ _ _ _ fps _) => update_self (set_show_fps fps)
      | _ => ret tt
      end ;;
      emit (DrawView r)
  | None => ret tt
  end ;;
  g <- gets self ;;
  match transition_screen g with
  | Some ts => emit (DrawOverlay ts)
  | None => ret tt
  end.

(** ** [Game.load_game_resources] *)

Definition load_game_resources : Coro :=
  let total_steps := 5%nat in
  for_range 0 total_steps
    (fun i k =>
       Await (3 # 10)
         (Do (UpdateProgress ((i + 1) * 20))
            (Do RenderTransition
               (Do EventPump k))))
    (Do CreateGameView
       (Do BlockMouseEvents
          (Do HideCursor
             (Do StartFadeOut Return)))).

(** One statement of the coroutine. *)
Definition perform (a : Action) : M World unit :=
  match a with
  | UpdateProgress percent =>
      ts <- the_transition_screen "update_progress" ;;
      update_self (set_transition_screen (Some (update_progress percent ts)))
  | RenderTransition => render_transition
  | EventPump => emit Pump
  | CreateGameView =>
      g <- gets self ;;
      r <- new_view (GameView (animation_paths g) (font g) (show_fps g) None) ;;
      update_self (set_current_view (Some r))
  | BlockMouseEvents => event_set_blocked mouse_events
  | HideCursor => mouse_set_visible false
  | StartFadeOut =>
      ts <- the_transition_screen "active" ;;
      update_self (set_transition_screen (Some (set_active false ts)))
  end.

(** Run a coroutine up to its next [await], or to its end. *)
Fixpoint run_to_await (c : Coro) : M World Coro :=
  match c with
  | Do a k => perform a ;; run_to_await k
  | Await _ _ | Return => ret c
  end.

(** The event loop gives a task a turn: a new task runs to its first
    [await]; a sleeping one goes on when its delay has passed ([due]).  An
    exception ends the task and stays in it. *)
Definition step_task (due : bool) (t : Task) : M World Task :=
  match failure t, coro t with
  | Some _, _ | _, Return => ret t
  | None, c =>
      let go (c' : Coro) : M World Task :=
        fun w => match run_to_await c' w with
                 | (Ok c'', w') => (Ok {| coro := c''; started := true; failure := None |}, w')
                 | (Raise e, w') => (Ok {| coro := Return; started := true; failure := Some e |}, w')
                 end in
      if negb (started t) then go c
      else match c with
           | Await _ k => if due then go k else ret t
           | _ => go c
           end
  end.

Fixpoint step_tasks (due : bool) (n : nat) : M World unit :=
  match n with
  | O => ret tt
  | S n' =>
      step_tasks due n' ;;
      w <- get ;;
      match nth_error (tasks w) n' with
      | Some t =>
          t' <- step_task due t ;;
          modify (fun w => set_tasks (<[n' := t']> (tasks w)) w)
      | None => ret tt
      end
  end.

(** [await asyncio.sleep(0)] in the main coroutine: every task gets a turn. *)
Definition yield_to_tasks (due : bool) : M World unit :=
  w <- get ;;
  step_tasks due (length (tasks w)).

(** [asyncio.create_task(self.load_game_resources())] *)
Definition create_task (c : Coro) : M World nat :=
  fun w => (Ok (length (tasks w)),
            set_tasks (tasks w ++ [{| coro := c; started := false; failure := None |}]) w).

(** ** [Game.handle_transition] *)

Definition is_game (pending : option string) : bool :=
  match pending with Some name => String.eqb name "game" | None => false end.

Definition handle_transition : M World (option bool) :=
  g <- gets self ;;
  if is_game (pending_view g) then
    ts <- the_transition_screen "update_fade" ;;
    let ts := update_fade host ts in
    update_self (set_transition_screen (Some ts)) ;;
    if active ts then
      if alpha ts <? 255 then ret (Some true)
      else
        g <- gets self ;;
        match load_task g with
        | None =>
            t <- create_task load_game_resources ;;
            update_self (set_load_task (Some t))
        | Some _ => ret tt
        end ;;
        ret (Some true)
    else
      if 0 <? alpha ts then ret (Some true)
      else
        update_self (set_transition_screen None) ;;
        update_self (set_pending_view None) ;;
        g <- gets self ;;
        match load_task g with
        | Some _ => update_self (set_load_task None)
        | None => raise (AttributeError "load_task")
        end ;;
        ret (Some false)
  else ret None.

(** ** [Game.run] *)

(** What one turn of the loop reads from outside: the clock
    ([pygame.time.get_ticks()]), the pending events ([pygame.event.get()]),
    and whether the delay of a sleeping task has passed. *)
Record Input : Type := { ticks : Z; events : list Event; due : bool }.

(** The body of [for event in events]. *)
Definition process_event (running : bool) (event : Event) : M World bool :=
  match event with
  | QUIT => ret false
  | VIDEORESIZE w h =>
      g <- gets self ;;
      if negb (fullscreen g) then
        update_self (fun g => set_HEIGHT h (set_WIDTH w g)) ;;
        update_self (fun g => set_windowed_size (WIDTH g, HEIGHT g) g) ;;
        handle_resize ;;
        ret running
      else ret running
  | _ => ret running
  end.

Fixpoint process_events (running : bool) (evs : list Event) : M World bool :=
  match evs with
  | [] => ret running
  | event :: evs' =>
      running <- process_event running event ;;
      process_events running evs'
  end.

(** A view uses a callback it holds. *)
Definition call (cb : Callback) : M World unit :=
  match cb with
  | CallSwitchView view_name => switch_view view_name
  | CallToggleFullscreen => toggle_fullscreen
  | CallReturnToGame => return_to_game
  end.

(** [self.current_view.handle_events(events)], then
    [self.current_view.update(dt)] when the view now current has it. *)
Definition update_current_view (evs : list Event) (dt : F) : M World unit :=
  w <- get ;;
  match current_view (self w) with
  | Some r =>
      match heap w !! r with
      | Some v =>
          let '(v', callbacks) := view_handle_events host v evs in
          modify (fun w => set_heap (<[r := v']> (heap w)) w) ;;
          for_each callbacks call
      | None => ret tt
      end ;;
      w <- get ;;
      match current_view (self w) with
      | Some r' =>
          match heap w !! r' with
          | Some v2 =>
              when (has_update v2)
                (modify (fun w => set_heap (<[r' := view_update host v2 dt]> (heap w)) w))
          | None => ret tt
          end
      | None => ret tt
      end
  | None => ret tt
  end.

(** One turn of [while running]; the result is [running] and [last_time]. *)
Definition run_iteration (inp : Input) (last_time : F) : M World (bool * F) :=
  let current_time := f_div (f_of_Z (ticks inp)) (f_of_Z 1000) in
  let dt := py_max (f_sub current_time last_time) (f_lit 1 1000) in
  emit Pump ;;
  yield_to_tasks (due inp) ;;
  g <- gets self ;;
  preempted <-
    match transition_screen g with
    | Some _ =>
        r <- handle_transition ;;
        ret match r with Some true => true | _ => false end
    | None => ret false
    end ;;
  if preempted : bool then
    render_transition ;;
    ret (true, current_time)
  else
    running <- process_events true (events inp) ;;
    update_current_view (events inp) dt ;;
    update ;;
    emit Flip ;;
    g <- gets self ;;
    emit (Tick (FPS g)) ;;
    ret (running, current_time).

(** The loop over a finite run of inputs; leaving the loop quits pygame and
    exits. *)
Fixpoint run_loop (inputs : list Input) (last_time : F) : M World unit :=
  match inputs with
  | [] => ret tt
  | inp :: rest =>
      st <- run_iteration inp last_time ;;
      if fst st then run_loop rest (snd st)
      else modify (set_pygame_quit true) ;; raise SystemExit
  end.

(** ** [Game.__init__] *)

Definition new_game : Game :=
  {| animation_paths :=
       [("idle", "./src/assets/player/idle");
        ("walking", "./src/assets/player/walking");
        ("attack", "./src/assets/player/idle")];
     design_width := const_width host; design_height := const_height host;
     WIDTH := const_width host; HEIGHT := const_height host; FPS := 60;
     fullscreen := false; show_fps := true;
     windowed_size := (const_width host, const_height host);
     font := None; current_view := None; transition_screen := None;
     pending_view := None;
     window := {| window_size := (const_width host, const_height host);
                  window_flags := RESIZABLE |};
     load_task := None; saved_game_view := None |}.

(** The process once [pygame.init()] has run. *)
Definition new_world : World :=
  {| self := new_game; heap := ∅; tasks := []; mouse_visible := true;
     blocked := fun _ => false; display := []; pygame_quit := false |}.

Definition init : result unit * World :=
  (switch_view "main" ;; handle_resize) new_world.

(** ** Runs of the event loop, for the statements below *)

(** [n] turns of a task whose delay has passed each time. *)
Fixpoint turns (n : nat) (t : Task) : M World Task :=
  match n with
  | O => ret t
  | S n' => t' <- turns n' t ;; step_task true t'
  end.

(** What the loop does while a transition is live, and what can come
    between two turns: the tasks' turn, the transition step, the frame, a
    fullscreen toggle. *)
Inductive LoopOp : Type :=
  | OpYield (due : bool)
  | OpHandleTransition
  | OpRenderTransition
  | OpToggleFullscreen.

Definition run_op (op : LoopOp) : M World unit :=
  match op with
  | OpYield due => yield_to_tasks due
  | OpHandleTransition => handle_transition ;; ret tt
  | OpRenderTransition => render_transition
  | OpToggleFullscreen => toggle_fullscreen
  end.

(** A run of such steps; an exception that escapes ends the program. *)
Fixpoint run_ops (ops : list LoopOp) (w : World) : World :=
  match ops with
  | [] => w
  | op :: rest =>
      match run_op op w with
      | (Ok _, w') => run_ops rest w'
      | (Raise _, w') => w'
      end
  end.

End WithHost.

(** The frame [render_transition] draws. *)
Definition transition_frame (view : option ref) (ts : LoadingScreen) : list Call :=
  [Fill] ++ match view with Some r => [DrawView r] | None => [] end
         ++ [DrawOverlay ts; Flip; Tick 60].

(** The tasks created so far, and the one the guard of [handle_transition]
    still allows. *)
Definition tasks_created (w : World) : nat := length (tasks w).

Definition tasks_allowed (w : World) : nat :=
  match load_task (self w) with
  | None => if is_game (pending_view (self w)) then 1 else 0
  | Some _ => 0
  end.

(** The heap once the current view has laid itself out for the window. *)
Definition resized_heap (w : World) : gmap ref ViewObj :=
  match current_view (self w) with
  | Some r =>
      alter (fun v => view_handle_resize v (WIDTH (self w)) (HEIGHT (self w))) r (heap w)
  | None => heap w
  end.

(** What decides whether [handle_transition] may create a task. *)
Definition guard (w : World) : option nat * option string * nat :=
  (load_task (self w), pending_view (self w), length (tasks w)).

(** The task [asyncio.create_task(self.load_game_resources())] makes. *)
Definition new_task : Task :=
  {| coro := load_game_resources; started := false; failure := None |}.

(** The pauses of a coroutine, in order. *)
Fixpoint delays (c : Coro) : list Q :=
  match c with
  | Await d k => d :: delays k
  | Do _ k => delays k
  | Return => []
  end.

(** A task that stands at [await asyncio.sleep(0.3)]. *)
Definition sleeping (t : Task) : Prop :=
  exists k, coro t = Await (3 # 10) k.

(** What the first [k] steps of the loading task put on the screen: one
    frame per step, with the overlay at 20, 40, ... percent. *)
Fixpoint step_frames (view : option ref) (ts : LoadingScreen) (k : nat) : list Call :=
  match k with
  | O => []
  | S k' => step_frames view ts k'
            ++ transition_frame view (update_progress (20 * Z.of_nat k) ts) ++ [Pump]
  end.

(** Modelled from the spec: a host with an 800x600 design size, a 1920x1080
    screen, a fade step of 5 per call, and views that ignore their input. *)
Definition plain_host {F : Type} : Host F :=
  {| const_width := 800; const_height := 600; const_font_medium := 36;
     fullscreen_size := (1920, 1080);
     update_fade := update_fade_by 5;
     view_handle_events := fun v _ => (v, []);
     view_update := fun v _ => v |}.

(** ** Worlds to run the game in *)

(** After [Game()]. *)
Definition menu_world : World := snd (init (plain_host (F := float))).

(** After the menu has asked for the game: the overlay starts to fade in. *)
Definition fading_world : World :=
  snd (switch_view (plain_host (F := float)) "game" menu_world).

(** A turn of the loop with no event, 16 ms after the last one. *)
Definition quiet (n : Z) : Input := {| ticks := 16 * n; events := []; due := true |}.

(** After the 51 turns the overlay needs to become opaque: the load has
    started. *)
Definition loading_world : World :=
  snd (run_loop (plain_host (F := float)) (map quiet (seqZ 1 51)) 0%float fading_world).

(** After 120 turns the load is done and the overlay has faded out: the
    game view is current. *)
Definition playing_world : World :=
  snd (run_loop (plain_host (F := float)) (map quiet (seqZ 1 120)) 0%float fading_world).

(** The overlay of [fading_world], and the one of [loading_world]. *)
Definition fresh_overlay : LoadingScreen := LoadingScreen_init 800 600 800 600.

Definition opaque_overlay : LoadingScreen := set_alpha 255 fresh_overlay.

(** The game view that [playing_world] shows. *)
Definition loaded_game_view : ViewObj :=
  GameView (animation_paths (self menu_world)) (Some {| font_size := 36 |}) true None.

(** A resize notification for a 1024x768 window. *)
Definition resize_input : Input :=
  {| ticks := 16; events := [VIDEORESIZE 1024 768]; due := false |}.

End Main.

(* ===================================================================== *)
(** * [src/code/player/player.py]: movement, and the loader in full *)
(* ===================================================================== *)

Module Motion.
Import Py Pygame Player.

(** What a method of the sprite can end in: [KeyError] is raised by a
    subscript on the animation table; the object is given as the exception
    leaves it. *)
Inductive outcome (A : Type) : Type :=
  | Done (a : A)
  | KeyError (key : string) (a : A)
  | Failed (e : exn).
Arguments Done {A} a.
Arguments KeyError {A} key a.
Arguments Failed {A} e.

(** [pygame.math.Vector2], as far as the sprite uses it: [v.length()],
    [v.normalize()], which refuses a vector of length zero, and [a != b]. *)
Class Vector2 (F : Type) : Type := {
  vec_length : F * F -> F;
  vec_normalize : F * F -> result (F * F);
  vec_ne : F * F -> F * F -> bool
}.

(** The vectors of pygame, on the machine numbers: the length is the square
    root of the scalar square, and two vectors differ when a coordinate
    differs by 1e-6 or more, or is not comparable. *)
Definition float_abs_ge (d eps : float) : bool :=
  negb (PrimFloat.eqb d d) || PrimFloat.leb eps (PrimFloat.abs d).

#[export] Instance machine_vector : Vector2 float := {|
  vec_length := fun v =>
    PrimFloat.sqrt (PrimFloat.add (PrimFloat.mul (fst v) (fst v))
                                  (PrimFloat.mul (snd v) (snd v)));
  vec_normalize := fun v =>
    let l := PrimFloat.sqrt (PrimFloat.add (PrimFloat.mul (fst v) (fst v))
                                           (PrimFloat.mul (snd v) (snd v))) in
    if PrimFloat.eqb l PrimFloat.zero then Raise ValueError
    else Ok (PrimFloat.div (fst v) l, PrimFloat.div (snd v) l);
  vec_ne := fun a b =>
    float_abs_ge (PrimFloat.sub (fst a) (fst b)) (f_lit 1 1000000)
    || float_abs_ge (PrimFloat.sub (snd a) (snd b)) (f_lit 1 1000000)
|}.

(** The square root of a rational, rounded down to the denominator; exact on
    the square of a rational. *)
Definition Q_sqrt (q : Q) : Q := Z.sqrt (Qnum q * Zpos (Qden q)) # Qden q.

Definition Q_abs_ge (d eps : Q) : bool := Qle_bool eps d || Qle_bool eps (- d).

(** The same vectors on the exact numbers; the length is exact for a vector
    on an axis or with a rational length. *)
#[export] Instance exact_vector : Vector2 Q := {|
  vec_length := fun v => Q_sqrt (fst v * fst v + snd v * snd v);
  vec_normalize := fun v =>
    let l := Q_sqrt (fst v * fst v + snd v * snd v) in
    if Qeq_bool l 0 then Raise ValueError
    else Ok (fst v / l, snd v / l)%Q;
  vec_ne := fun a b =>
    Q_abs_ge (fst a - fst b) (1 # 1000000) || Q_abs_ge (snd a - snd b) (1 # 1000000)
|}.

(** ** What a directory yields *)

(** The files [load_animations] reads under [path], in the order it reads
    them. *)
Definition frame_files (fs : FileSystem) (path : string) (names : list string)
  : list string :=
  List.filter (fun f => isfile fs (os_path_join path f)) (sorted names).

(** The frames of the files that decode, unscaled. *)
Fixpoint decoded_frames (fs : FileSystem) (path : string) (files : list string)
  : list Frame :=
  match files with
  | [] => []
  | frame_name :: files' =>
      match pygame_image_load fs (os_path_join path frame_name) with
      | inr img =>
          {| original := img; flipped := transform_flip img |}
          :: decoded_frames fs path files'
      | inl _ => decoded_frames fs path files'
      end
  end.

Section WithVector.
Context {F : Type} `{PyFloat F} `{Vector2 F}.

(** The speeds [__init__] starts from. *)
Definition builtin_speeds : list (string * F) :=
  [("idle", f_lit 1 10); ("walking", f_lit 8 100); ("attack", f_lit 5 100)].

(** The last loop of [load_animations]: every animation of the table gets a
    speed. *)
Definition default_speeds (keys : list string) : M (Attrs F) unit :=
  for_each keys (fun anim_name =>
    bind (gets a_animation_speeds) (fun speeds =>
    when (negb (dict_mem anim_name speeds))
      (bind (modify (fun a =>
         set_animation_speeds
           (dict_set anim_name (f_lit 1 10) (a_animation_speeds a)) a))
         (fun _ => print (SetDefaultSpeed anim_name))))).

(** The speed [__init__] gives an animation: three are built in, any other
    gets the default. *)
Definition initial_speed (name : string) : F :=
  if String.eqb name "walking" then f_lit 8 100
  else if String.eqb name "attack" then f_lit 5 100
  else f_lit 1 10.

(** The speeds that are stored are the initial ones. *)
Definition speeds_initial (a : Attrs F) : Prop :=
  dict_mem "walking" (a_animation_speeds a) = true
  /\ dict_mem "attack" (a_animation_speeds a) = true
  /\ forall name s, dict_get name (a_animation_speeds a) = Some s -> s = initial_speed name.

(** The object as [__init__] hands it to [load_animations]. *)
Definition new_attrs (scale0 : F) : Attrs F :=
  {| a_scale := scale0; a_animation_frames := [];
     a_animation_speeds := builtin_speeds; a_debug := None; a_stdout := [] |}.

(** What the inner [try] of [load_animations] makes of one file on an object
    of scale [scale0]: the frame, or the exception that is printed. *)
Definition frame_at (fs : FileSystem) (scale0 : F) (frame_path : string) : result Frame :=
  fst (load_frame fs frame_path (new_attrs scale0)).

(** The frames of the files that load, in order. *)
Fixpoint frames_at (fs : FileSystem) (scale0 : F) (path : string) (files : list string)
  : list Frame :=
  match files with
  | [] => []
  | frame_name :: files' =>
      match frame_at fs scale0 (os_path_join path frame_name) with
      | Ok fr => fr :: frames_at fs scale0 path files'
      | Raise _ => frames_at fs scale0 path files'
      end
  end.

(** The lines printed for the files that do not load. *)
Fixpoint frame_errors (fs : FileSystem) (scale0 : F) (path : string) (files : list string)
  : list Msg :=
  match files with
  | [] => []
  | frame_name :: files' =>
      match frame_at fs scale0 (os_path_join path frame_name) with
      | Ok _ => frame_errors fs scale0 path files'
      | Raise e =>
          ErrLoadingFrame (os_path_join path frame_name) e
          :: frame_errors fs scale0 path files'
      end
  end.

(** The frames a directory gives: none when it is missing or cannot be
    listed. *)
Definition directory_frames (fs : FileSystem) (scale0 : F) (path : string) : list Frame :=
  if path_exists fs path then
    match os_listdir fs path with
    | inr names => frames_at fs scale0 path (frame_files fs path names)
    | inl _ => []
    end
  else [].

(** What [__init__] prints for one directory.  [debug] is assigned after
    [load_animations] has run: the read of [self.debug] that follows the
    storing of the frames raises, and the outer [except] prints it. *)
Definition directory_messages (fs : FileSystem) (scale0 : F) (animation_name path : string)
  : list Msg :=
  if path_exists fs path then
    match os_listdir fs path with
    | inr names =>
        let files := frame_files fs path names in
        frame_errors fs scale0 path files
        ++ match frames_at fs scale0 path files with
           | [] => [WarnNoFrames animation_name]
           | _ :: _ => [ErrProcessing animation_name (AttributeError "debug")]
           end
    | inl msg => [ErrProcessing animation_name (OSError msg)]
    end
  else [WarnPathMissing path].

(** [self.animation_frames[animation_name] = frames], under [if frames]. *)
Definition store_frames (animation_name : string) (frames : list Frame)
    (table : list (string * list Frame)) : list (string * list Frame) :=
  match frames with
  | [] => table
  | _ :: _ => dict_set animation_name frames table
  end.

(** The table after the loop over the paths. *)
Fixpoint loaded_table (fs : FileSystem) (scale0 : F)
    (animation_paths : list (string * string)) (table : list (string * list Frame))
  : list (string * list Frame) :=
  match animation_paths with
  | [] => table
  | np :: rest =>
      loaded_table fs scale0 rest
        (store_frames (fst np) (directory_frames fs scale0 (snd np)) table)
  end.

(** What the loop over the paths prints. *)
Definition loader_messages (fs : FileSystem) (scale0 : F)
    (animation_paths : list (string * string)) : list Msg :=
  flat_map (fun np => directory_messages fs scale0 (fst np) (snd np)) animation_paths.

(** The object with another table and more lines printed. *)
Definition attrs_with (a : Attrs F) (table : list (string * list Frame))
    (msgs : list Msg) : Attrs F :=
  {| a_scale := a_scale a; a_animation_frames := table;
     a_animation_speeds := a_animation_speeds a; a_debug := a_debug a;
     a_stdout := a_stdout a ++ msgs |}.

Definition is_speed_message (m : Msg) : bool :=
  match m with SetDefaultSpeed _ => true | _ => false end.
Definition set_direction (v : F * F) (self : Player F) : Player F :=
  {| speed := speed self; scale := scale self;
     animation_frames := animation_frames self;
     animation_speeds := animation_speeds self;
     current_animation := current_animation self;
     frame_index := frame_index self;
     animation_timer := animation_timer self;
     direction := v;
     facing_right := facing_right self;
     image := image self;
     rect := rect self;
     debug := debug self |}.

Definition set_facing_right (v : bool) (self : Player F) : Player F :=
  {| speed := speed self; scale := scale self;
     animation_frames := animation_frames self;
     animation_speeds := animation_speeds self;
     current_animation := current_animation self;
     frame_index := frame_index self;
     animation_timer := animation_timer self;
     direction := direction self;
     facing_right := v;
     image := image self;
     rect := rect self;
     debug := debug self |}.

Definition set_image (v : Surface) (self : Player F) : Player F :=
  {| speed := speed self; scale := scale self;
     animation_frames := animation_frames self;
     animation_speeds := animation_speeds self;
     current_animation := current_animation self;
     frame_index := frame_index self;
     animation_timer := animation_timer self;
     direction := direction self;
     facing_right := facing_right self;
     image := v;
     rect := rect self;
     debug := debug self |}.

Definition set_rect (v : Rect) (self : Player F) : Player F :=
  {| speed := speed self; scale := scale self;
     animation_frames := animation_frames self;
     animation_speeds := animation_speeds self;
     current_animation := current_animation self;
     frame_index := frame_index self;
     animation_timer := animation_timer self;
     direction := direction self;
     facing_right := facing_right self;
     image := image self;
     rect := v;
     debug := debug self |}.

(** [self.direction.length() > 0] *)
Definition is_moving (self : Player F) : bool :=
  f_ltb (f_of_Z 0) (vec_length (direction self)).

(** [Player.move(direction)] *)
Definition move (self : Player F) (direction0 : F * F) : outcome (Player F) :=
  let prev_direction := direction self in
  let self := set_direction direction0 self in
  let animated :=
    if is_moving self then
      match set_animation self "walking" with
      | Raise e => Raise e
      | Ok self =>
          Ok (if f_ltb (f_of_Z 0) (fst (direction self)) then set_facing_right true self
              else if f_ltb (fst (direction self)) (f_of_Z 0) then
                     set_facing_right false self
              else self)
      end
    else set_animation self "idle" in
  match animated with
  | Raise e => Failed e
  | Ok self =>
      if vec_ne prev_direction (direction self) then
        match dict_get (current_animation self) (animation_frames self) with
        | None => KeyError (current_animation self) self
        | Some frames =>
            match py_getitem frames (frame_index self) with
            | Raise e => Failed e
            | Ok fr => Done (set_image (facing self fr) self)
            end
        end
      else Done self
  end.

(** [rect.x += v]: the sum is a float, which the rectangle stores as a
    whole number. *)
Definition rect_add (c : Z) (v : F) : result Z :=
  Button.rect_assign (f_add (f_of_Z c) v).

(** [Player.update(dt)] *)
Definition update (fuel : nat) (self : Player F) (dt : F) : option (result (Player F)) :=
  let dt := py_max dt (f_lit 1 1000) in
  match animate fuel self dt with
  | None => None
  | Some (Raise e) => Some (Raise e)
  | Some (Ok self) =>
      if is_moving self then
        match vec_normalize (direction self) with
        | Raise e => Some (Raise e)
        | Ok normalized_dir =>
            match rect_add (rect_x (rect self))
                    (f_mul (f_mul (fst normalized_dir) (speed self)) dt) with
            | Raise e => Some (Raise e)
            | Ok x =>
                match rect_add (rect_y (rect self))
                        (f_mul (f_mul (snd normalized_dir) (speed self)) dt) with
                | Raise e => Some (Raise e)
                | Ok y =>
                    Some (Ok (set_rect {| rect_x := x; rect_y := y;
                                          rect_w := rect_w (rect self);
                                          rect_h := rect_h (rect self) |} self))
                end
            end
        end
      else Some (Ok self)
  end.

(** [Player.set_all_animation_speeds(speed_dict)] *)
Definition set_all_animation_speeds (self : Player F) (speed_dict : list (string * F))
  : Player F :=
  fold_left (fun self kv => set_animation_speed self (fst kv) (snd kv)) speed_dict self.

(** The players a program can hold: made by [__init__], then used through
    the methods of the class. *)
Inductive reachable : Player F -> Prop :=
  | reach_init fs pos animation_paths speed0 scale0 self :
      fst (init fs pos animation_paths speed0 scale0) = Ok self -> reachable self
  | reach_animate fuel self dt self' :
      reachable self -> animate fuel self dt = Some (Ok self') -> reachable self'
  | reach_update fuel self dt self' :
      reachable self -> update fuel self dt = Some (Ok self') -> reachable self'
  | reach_set_animation self name self' :
      reachable self -> set_animation self name = Ok self' -> reachable self'
  | reach_attack self self' :
      reachable self -> attack self = Ok self' -> reachable self'
  | reach_move self d self' :
      reachable self -> move self d = Done self' -> reachable self'
  | reach_move_raised self d key self' :
      reachable self -> move self d = KeyError key self' -> reachable self'
  | reach_set_animation_speed self name v :
      reachable self -> reachable (set_animation_speed self name v)
  | reach_set_all_animation_speeds self speed_dict :
      reachable self -> reachable (set_all_animation_speeds self speed_dict).

(** What the methods rely on: the table is not empty and holds no empty
    frame list, [frame_index] points into the current animation, every
    animation of the table has a speed, and the current animation is in the
    table unless it is the initial [idle]. *)
Definition well_formed (self : Player F) : Prop :=
  animation_frames self <> []
  /\ frames_nonempty (animation_frames self)
  /\ index_valid self
  /\ (forall name, dict_mem name (animation_frames self) = true ->
                   dict_mem name (animation_speeds self) = true)
  /\ (dict_get (current_animation self) (animation_frames self) = None ->
      current_animation self = "idle").

(** [Player(pos, animation_paths)] on the file system [fs], with the
    default speed and scale. *)
Definition built (fs : FileSystem) (pos : Z * Z)
    (animation_paths : list (string * string)) : Player F :=
  match fst (init fs pos animation_paths (f_of_Z 5) (f_of_Z 1)) with
  | Ok self => self
  | Raise _ => placeholder_player
  end.

End WithVector.

(** Frames for [attack], and nothing else. *)
Definition only_attack : FileSystem :=
  {| path_exists := fun p => String.eqb p "assets/attack";
     os_listdir := fun p =>
       if String.eqb p "assets/attack" then inr ["0.png"; "1.png"]
       else inl "No such file or directory";
     isfile := fun _ => true;
     pygame_image_load := fun p => inr (Image p 64 64) |}.

Definition idle_and_attack : list (string * string) :=
  [("idle", "assets/idle"); ("attack", "assets/attack")].

End Motion.

(* ===================================================================== *)
(** * [src/code/views/button.py]: buttons with an image *)
(* ===================================================================== *)

Module Widget.
Import Py Pygame Button.

(** Two buttons made from the same arguments and the same image: they can
    differ in the rectangle and in the scaled images that [resize]
    replaces. *)
Definition same_source (b b' : Button) : Prop :=
  text b' = text b
  /\ original_x b' = original_x b /\ original_y b' = original_y b
  /\ original_width b' = original_width b /\ original_height b' = original_height b
  /\ hovered b' = hovered b /\ image_path b' = image_path b
  /\ image b' = image b /\ hover_image b' = hover_image b
  /\ border_size b' = border_size b /\ use_9slice b' = use_9slice b
  /\ (image b = None -> scaled_image b' = scaled_image b)
  /\ (image b = None \/ hover_image b = None ->
      scaled_hover_image b' = scaled_hover_image b).

(** Every file decodes to a 64x64 image. *)
Definition any_image : string -> result Surface := fun p => Ok (Image p 64 64).

(** Every file is there, and none is an image. *)
Definition corrupt_image : string -> result Surface :=
  fun _ => Raise (PygameError "Unsupported image format").

(** [Button("Play", 10, 10, 100, 50, on_click, "button.png")] *)
Definition framed_button : Button :=
  snd (init any_image "Play" 10 10 100 50 (Some "button.png") 12 true).

End Widget.

(* ===================================================================== *)
(** * [main.py]: what the loop and the handlers leave behind *)
(* ===================================================================== *)

Module Loop.
Import Py Main.

Definition is_quit (ev : Event) : bool :=
  match ev with QUIT => true | _ => false end.

(** The window size a view was last laid out for. *)
Definition view_layout (v : ViewObj) : option (Z * Z) :=
  match v with
  | MainMenu _ _ layout | Settings _ _ _ _ _ _ layout | GameView _ _ _ layout => layout
  end.

(** The current view, if there is one, is laid out for the window as [Game]
    knows it. *)
Definition laid_out (w : World) : Prop :=
  match current_view (self w) with
  | Some r =>
      match heap w !! r with
      | Some v => view_layout v = Some (WIDTH (self w), HEIGHT (self w))
      | None => True
      end
  | None => True
  end.

(** The same turn of the loop, with other events in the queue. *)
Definition with_events (evs : list Event) (inp : Input) : Input :=
  {| ticks := ticks inp; events := evs; due := due inp |}.

(** A task that has returned or has failed: the event loop leaves it alone. *)
Definition finished (t : Task) : bool :=
  match failure t, coro t with
  | Some _, _ => true
  | None, Return => true
  | None, _ => false
  end.

(** A game-start transition with an active overlay, while [load_task] is
    still held from before and no task is left to run. *)
Definition stuck (w : World) : Prop :=
  load_task (self w) <> None
  /\ pending_view (self w) = Some "game"
  /\ (exists ts, transition_screen (self w) = Some ts /\ active ts = true)
  /\ Forall (fun t => finished t = true) (tasks w).

(** The player leaves for the menu while the load runs, the abandoned load
    ends 40 turns later, and the player asks for the game again. *)
Definition abandoned_world : World :=
  snd (run_loop (plain_host (F := float)) (map quiet (seqZ 52 40)) 0%float
         (snd (switch_view (plain_host (F := float)) "main" loading_world))).

Definition restarted_world : World :=
  snd (switch_view (plain_host (F := float)) "game"
         (snd (switch_view (plain_host (F := float)) "main" abandoned_world))).

(** A turn of the loop in which the window is closed. *)
Definition closing_input : Input := {| ticks := 16; events := [QUIT]; due := false |}.

End Loop.

(* ===================================================================== *)
(** * The layout of a view, from the spec *)
(* ===================================================================== *)

Module Layout.
Import Py Py.Notations Pygame Button Main.

(** The design size a menu or a settings view was made with. *)
Definition view_design (v : ViewObj) : option (Z * Z) :=
  match v with
  | MainMenu dw dh _ | Settings dw dh _ _ _ _ _ => Some (dw, dh)
  | GameView _ _ _ _ => None
  end.

Section WithFloat.
Context {F : Type} `{PyFloat F}.

(** Modelled from the spec: the bodies of [handle_resize(w, h)] of the menu
    and settings views ([src/code/views/]) are missing.  A view scales what
    it holds with the one factor [min(w / design_w, h / design_h)]. *)
Definition view_scale (design_w design_h w h : Z) : result F :=
  match py_div w design_w with
  | Raise e => Raise e
  | Ok scale_x =>
      match py_div h design_h with
      | Raise e => Raise e
      | Ok scale_y => Ok (py_min scale_x scale_y)
      end
  end.

(** [for button in buttons: button.resize(scale, scale)]: an exception ends
    the loop, with the buttons before it resized and the one that raised as
    [resize] left it. *)
Fixpoint resize_buttons (scale : F) (buttons : list Button)
  : result unit * list Button :=
  match buttons with
  | [] => (Ok tt, [])
  | b :: rest =>
      match resize scale scale b with
      | (Ok _, b') =>
          let (r, rest') := resize_buttons scale rest in (r, b' :: rest')
      | (Raise e, b') => (Raise e, b' :: rest)
      end
  end.

(** Modelled from the spec: [handle_resize(w, h)] of a menu or settings
    view ([src/code/views/], missing), as far as its buttons go: the one
    factor is handed to [Button.resize] for both axes. *)
Definition view_resize_buttons (design_w design_h w h : Z) (buttons : list Button)
  : result unit * list Button :=
  match view_scale design_w design_h w h with
  | Raise e => (Raise e, buttons)
  | Ok scale => resize_buttons scale buttons
  end.

End WithFloat.

(** The menu, after the window has been resized to 1600x900. *)
Definition wide_world : World :=
  snd (process_event (plain_host (F := float)) true (VIDEORESIZE 1600 900) menu_world).

End Layout.

(* ===================================================================== *)
(** * Facts about the Python fragment *)
(* ===================================================================== *)

Module PyFacts.
Import Py.

Section Rules.
Context {S : Type}.
Implicit Types (P : S -> Prop) (E : exn -> S -> Prop).

Lemma triple_ret {A} P (Q : A -> S -> Prop) E (a : A) :
  (forall s, P s -> Q a s) -> triple P (ret a) Q E.
Proof. intros HQ s Hs. simpl. auto. Qed.

Lemma triple_bind {A B} P (m : M S A) (k : A -> M S B) (R : A -> S -> Prop)
    (Q : B -> S -> Prop) E :
  triple P m R E -> (forall a, triple (R a) (k a) Q E) -> triple P (bind m k) Q E.
Proof.
  intros Hm Hk s Hs. unfold bind. specialize (Hm s Hs).
  destruct (m s) as [[a|e] s']; [apply (Hk a s' Hm)|exact Hm].
Qed.

Lemma triple_conseq {A} P P' (m : M S A) (Q Q' : A -> S -> Prop) E E' :
  triple P' m Q' E' ->
  (forall s, P s -> P' s) -> (forall a s, Q' a s -> Q a s) ->
  (forall e s, E' e s -> E e s) -> triple P m Q E.
Proof.
  intros Hm HP HQ HE s Hs. specialize (Hm s (HP s Hs)).
  destruct (m s) as [[a|e] s']; auto.
Qed.

Lemma triple_modify P (f : S -> S) (Q : unit -> S -> Prop) E :
  (forall s, P s -> Q tt (f s)) -> triple P (modify f) Q E.
Proof. intros HQ s Hs. simpl. auto. Qed.

Lemma triple_gets {A} P (f : S -> A) (Q : A -> S -> Prop) E :
  (forall s, P s -> Q (f s) s) -> triple P (gets f) Q E.
Proof. intros HQ s Hs. simpl. auto. Qed.

Lemma triple_lift {A} P (r : result A) (Q : A -> S -> Prop) E :
  (forall s, P s -> match r with Ok a => Q a s | Raise e => E e s end) ->
  triple P (lift r) Q E.
Proof. intros HQ s Hs. unfold lift. specialize (HQ s Hs). destruct r; auto. Qed.

Lemma triple_when P (b : bool) (m : M S unit) (Q : unit -> S -> Prop) E :
  (b = true -> triple P m Q E) -> (b = false -> forall s, P s -> Q tt s) ->
  triple P (when b m) Q E.
Proof.
  intros Ht Hf. destruct b; simpl.
  - auto.
  - intros s Hs. simpl. auto.
Qed.

(** [try ... except Exception]: what the body raises is handled when it is
    an [Exception], and escapes otherwise. *)
Lemma triple_try_except {A} P (body : M S A) (handler : exn -> M S A)
    (Q : A -> S -> Prop) (E1 E : exn -> S -> Prop) :
  triple P body Q E1 ->
  (forall e, is_Exception e = true -> triple (E1 e) (handler e) Q E) ->
  (forall e s, is_Exception e = false -> E1 e s -> E e s) ->
  triple P (try_except body handler) Q E.
Proof.
  intros Hb Hh Hesc s Hs. unfold try_except. specialize (Hb s Hs).
  destruct (body s) as [[a|e] s']; [exact Hb|].
  destruct (is_Exception e) eqn:Ee.
  - apply (Hh e Ee s' Hb).
  - apply (Hesc e s' Ee Hb).
Qed.

(** A loop keeps its invariant. *)
Lemma triple_for_each {A} (I : S -> Prop) (xs : list A) (body : A -> M S unit) E :
  (forall x, In x xs -> triple I (body x) (fun _ => I) E) ->
  triple I (for_each xs body) (fun _ => I) E.
Proof.
  induction xs as [|x xs IH]; intros Hbody.
  - apply triple_ret. auto.
  - simpl. eapply triple_bind.
    + apply Hbody. now left.
    + intros u. apply IH. intros y Hy. apply Hbody. now right.
Qed.
End Rules.

End PyFacts.

(* ===================================================================== *)
(** * Python's floats: the order of binary64 *)
(* ===================================================================== *)

Module FloatFacts.
Import Py.

Lemma digits2_pos_bound (m : positive) : Zpos m < 2 ^ Zpos (digits2_pos m).
Proof.
  induction m as [m IH|m IH|]; cbn [digits2_pos].
  - rewrite Pos2Z.inj_succ, Z.pow_succ_r by lia. lia.
  - rewrite Pos2Z.inj_succ, Z.pow_succ_r by lia. lia.
  - reflexivity.
Qed.

Lemma bounded_spec (m : positive) (e : Z) :
  bounded prec emax m e = true ->
  Zpos m < 9007199254740992 /\ -1074 <= e <= 971.
Proof.
  unfold bounded, canonical_mantissa, fexp.
  change (SpecFloat.emin prec emax) with (-1074). change (emax - prec) with 971.
  change prec with 53. intros Hb.
  apply andb_prop in Hb as [Hc He]. apply Z.eqb_eq in Hc. apply Z.leb_le in He.
  assert (Hd : Zpos (digits2_pos m) <= 53) by lia.
  split; [|lia].
  apply Z.lt_le_trans with (1 := digits2_pos_bound m).
  change 9007199254740992 with (2 ^ 53).
  apply Z.pow_le_mono_r; lia.
Qed.

Lemma SFcompare_antisym (x y : spec_float) (c : comparison) :
  SFcompare x y = Some c -> SFcompare y x = Some (CompOpp c).
Proof.
  destruct x as [sx|sx| |sx mx ex], y as [sy|sy| |sy my ey]; cbn [SFcompare];
    try discriminate; try (intros [= <-]; destruct sx; try destruct sy; reflexivity).
  intros [= <-]. f_equal.
  pose proof (Pos.compare_cont_antisym mx my Eq) as Hm. cbn [CompOpp] in Hm.
  destruct sx, sy; try reflexivity;
    rewrite (Z.compare_antisym ex ey); destruct (ex ?= ey); cbn [CompOpp];
    try reflexivity; rewrite <- Hm; destruct (Pos.compare_cont Eq mx my); reflexivity.
Qed.

Lemma SFcompare_refl (x : spec_float) :
  x <> S754_nan -> SFcompare x x = Some Eq.
Proof.
  destruct x as [s|s| |s m e]; cbn [SFcompare]; try congruence; intros _.
  - destruct s; reflexivity.
  - destruct s; rewrite Z.compare_refl, Pos.compare_cont_refl; reflexivity.
Qed.

Lemma SFcompare_nan_l (x y : spec_float) (c : comparison) :
  SFcompare x y = Some c -> x <> S754_nan /\ y <> S754_nan.
Proof. destruct x, y; cbn [SFcompare]; try discriminate; split; discriminate. Qed.

(** A float below a positive float has a lower rank. *)
Lemma SFcompare_rank (x y : float) :
  SFcompare (Prim2SF x) (Prim2SF y) = Some Lt ->
  0 < float_rank y ->
  0 <= float_rank x < float_rank y.
Proof.
  unfold float_rank.
  pose proof (Prim2SF_valid x) as Hx. pose proof (Prim2SF_valid y) as Hy.
  assert (Hemin : SpecFloat.emin prec emax = -1074) by reflexivity.
  assert (Hprec : 2 ^ prec = 9007199254740992) by reflexivity.
  assert (Hemax : emax = 1024) by reflexivity.
  assert (Hp : prec = 53) by reflexivity.
  rewrite Hemin, Hprec, Hemax.
  destruct (Prim2SF y) as [sy|sy| |sy my ey]; [intros _ H; lia| |intros _ H; lia|].
  - destruct sy; [intros _ H; lia|].
    destruct (Prim2SF x) as [sx|sx| |sx mx ex]; cbn [SFcompare]; intros Hlt _.

    + lia.
    + destruct sx; [lia|discriminate Hlt].
    + discriminate Hlt.
    + destruct sx; [lia|].
      cbn [SpecFloat.valid_binary] in Hx. apply bounded_spec in Hx as [Hm He]. lia.
  - destruct sy; [intros _ H; lia|].
    cbn [SpecFloat.valid_binary] in Hy. apply bounded_spec in Hy as [Hmy Hey].
    destruct (Prim2SF x) as [sx|sx| |sx mx ex]; cbn [SFcompare]; intros Hlt _.
    + lia.
    + destruct sx; [lia|discriminate Hlt].
    + discriminate Hlt.
    + destruct sx; [lia|].
      cbn [SpecFloat.valid_binary] in Hx. apply bounded_spec in Hx as [Hmx Hex].
      injection Hlt as Hlt.
      destruct (ex ?= ey) eqn:He; try discriminate Hlt.
      * apply Z.compare_eq in He. subst ey.
        change (Pos.compare_cont Eq mx my) with (Pos.compare mx my) in Hlt.
        change (mx < my)%positive in Hlt. lia.
      * change (ex < ey) in He. lia.
Qed.

(** ** The order of the floats, from the comparisons *)

Lemma ltb_compare (x y : float) :
  PrimFloat.ltb x y = true <-> SFcompare (Prim2SF x) (Prim2SF y) = Some Lt.
Proof.
  rewrite FloatAxioms.ltb_spec. unfold SFltb.
  destruct (SFcompare _ _) as [[| |]|]; split; congruence.
Qed.

Lemma eqb_number (x : float) :
  PrimFloat.eqb x x = true <-> Prim2SF x <> S754_nan.
Proof.
  rewrite FloatAxioms.eqb_spec. unfold SFeqb. split.
  - intros H E. rewrite E in H. discriminate H.
  - intros H. now rewrite SFcompare_refl.
Qed.

Lemma ltb_number (x y : float) :
  PrimFloat.ltb x y = true -> PrimFloat.eqb x x = true /\ PrimFloat.eqb y y = true.
Proof.
  intros H. apply ltb_compare in H. apply SFcompare_nan_l in H as [Hx Hy].
  split; now apply eqb_number.
Qed.

(** Two numbers can be compared: when [x <= y] is false, [y < x]. *)
Lemma leb_false_ltb (x y : float) :
  PrimFloat.eqb x x = true -> PrimFloat.eqb y y = true ->
  PrimFloat.leb x y = false -> PrimFloat.ltb y x = true.
Proof.
  intros Hx Hy. apply eqb_number in Hx, Hy.
  rewrite FloatAxioms.leb_spec. unfold SFleb. intros Hle. apply ltb_compare.
  destruct (SFcompare (Prim2SF x) (Prim2SF y)) as [c|] eqn:Hc.
  - apply SFcompare_antisym in Hc. rewrite Hc. destruct c; try discriminate Hle.
    reflexivity.
  - destruct (Prim2SF x), (Prim2SF y); cbn [SFcompare] in Hc; congruence.
Qed.

(** What is at least a positive float is positive. *)
Lemma leb_positive (s t : float) :
  PrimFloat.ltb 0 s = true -> PrimFloat.leb s t = true -> 0 < float_rank t.
Proof.
  intros Hs Ht. apply ltb_compare in Hs. rewrite FloatAxioms.leb_spec in Ht.
  unfold SFleb in Ht. unfold float_rank.
  pose proof (Prim2SF_valid t) as Hv.
  assert (Hemin : SpecFloat.emin prec emax = -1074) by reflexivity.
  assert (Hprec : 2 ^ prec = 9007199254740992) by reflexivity.
  assert (Hemax : emax = 1024) by reflexivity.
  rewrite Hemin, Hprec, Hemax.
  change (Prim2SF 0) with (S754_zero false) in Hs.
  destruct (Prim2SF s) as [ss|ss| |ss ms es]; cbn [SFcompare] in Hs;
    try discriminate Hs; destruct ss; try discriminate Hs;
    destruct (Prim2SF t) as [st|st| |st mt et]; cbn [SFcompare] in Ht;
    try discriminate Ht; destruct st; try discriminate Ht; try lia;
    cbn [SpecFloat.valid_binary] in Hv; apply bounded_spec in Hv as [Hm He]; lia.
Qed.

(** A chain of floats that goes down from a positive float is finite. *)
Lemma ltb_rank (x y : float) :
  PrimFloat.ltb x y = true -> 0 < float_rank y -> 0 <= float_rank x < float_rank y.
Proof. intros H. apply SFcompare_rank. now apply ltb_compare. Qed.

End FloatFacts.

(* ===================================================================== *)
(** * Facts about the player *)
(* ===================================================================== *)

Module PlayerFacts.
Import Py PyFacts FloatFacts Pygame Player.

(** ** The animation loader *)
Section Loader.
Context {F : Type} `{PyFloat F}.
Variable fs : FileSystem.
Implicit Types (I : Attrs F -> Prop) (a : Attrs F).

Lemma print_spec I m E :
  print_stable I -> triple I (print m) (fun _ => I) E.
Proof. intros HI. apply triple_modify. intros a Ha. now apply HI. Qed.

Ltac break_match :=
  match goal with
  | |- context [match ?x with _ => _ end] =>
      lazymatch x with
      | context [match _ with _ => _ end] => fail
      | _ => destruct x eqn:?
      end
  end.

Lemma load_frame_spec I frame_path :
  triple I (load_frame fs frame_path) (fun _ => I)
         (fun e a => is_Exception e = true /\ I a).
Proof.
  intros a Ha.
  unfold load_frame, bind, lift, gets, ret, image_load, py_int, transform_scale.
  repeat (break_match; simpl in *; simplify_eq; auto).
Qed.

(** The frame loop never raises; it only adds to [frames]. *)
Lemma load_frames_spec I path files :
  print_stable I ->
  forall frames,
    triple I (load_frames fs path files frames)
           (fun r a => I a /\ (frames <> [] -> r <> [])) never.
Proof.
  intros HI. induction files as [|f files IH]; intros frames.
  - apply triple_ret. auto.
  - simpl. eapply triple_bind with
      (R := fun r a => I a /\ (frames <> [] -> r <> [])).
    + eapply triple_try_except with (E1 := fun e a => is_Exception e = true /\ I a).
      * eapply triple_bind; [apply load_frame_spec|].
        intros fr. apply triple_ret. intros a Ha. split; [exact Ha|].
        intros _ Hnil. now apply app_eq_nil in Hnil as [_ ?].
      * intros e _. eapply triple_bind with (R := fun _ a => I a).
        -- eapply triple_conseq; [apply (print_spec I _ never HI)| | |]; simpl; tauto.
        -- intros _. apply triple_ret. auto.
      * intros e a He [He' _]. congruence.
    + intros r a [Ha Hr]. pose proof (IH r a Ha) as IH'.
      destruct (load_frames fs path files r a) as [[r'|e] a']; [|exact IH'].
      destruct IH' as [Ha' Hr']. split; [exact Ha'|]. auto.
Qed.

(** One animation: never raises, and only ever stores a non-empty list. *)
Lemma load_animation_spec I animation_name path :
  print_stable I -> store_stable I ->
  triple I (load_animation fs animation_name path) (fun _ => I) never.
Proof.
  intros HP HS. unfold load_animation.
  destruct (negb (path_exists fs path)); [now apply print_spec|].
  eapply triple_try_except with (E1 := fun e a => is_Exception e = true /\ I a).
  - eapply triple_bind with (R := fun _ => I).
    { apply triple_lift. intros a Ha. unfold listdir.
      destruct (os_listdir fs path); simpl; auto. }
    intros names.
    eapply triple_bind with (R := fun r a => I a /\ True).
    { eapply triple_conseq; [apply (load_frames_spec I path _ HP [])| | |]; simpl.
      - auto.
      - intros r a [Ha _]. auto.
      - intros e a []. }
    intros [|fr frames].
    + eapply triple_conseq; [apply (print_spec I _ never HP)| | |]; simpl;
        [tauto|auto|intros ? ? []].
    + eapply triple_bind with (R := fun _ => I).
      { apply triple_modify. intros a [Ha _]. apply HS; [discriminate|exact Ha]. }
      intros _. eapply triple_bind with (R := fun _ => I).
      { intros a Ha. unfold self_debug. destruct (a_debug a); simpl; auto. }
      intros debug. apply triple_when.
      * intros _. now apply print_spec.
      * auto.
  - intros e _. eapply triple_conseq; [apply (print_spec I _ never HP)| | |]; simpl;
      [tauto|auto|intros ? ? []].
  - intros e a He [He' _]. congruence.
Qed.

(** [load_animations] in three phases: the loop over the paths keeps [I1];
    the placeholder step leads to [I2]; the loop over the speeds keeps it. *)
Lemma load_animations_phases I1 I2 animation_paths :
  triple I1 (for_each animation_paths (fun np => load_animation fs (fst np) (snd np)))
         (fun _ => I1) never ->
  (forall a, I1 a -> a_animation_frames a <> [] -> I2 a) ->
  (forall a, I1 a -> a_animation_frames a = [] -> I2 (with_placeholder a)) ->
  print_stable I2 -> speeds_stable I2 ->
  triple I1 (load_animations fs animation_paths) (fun _ => I2) never.
Proof.
  intros Hloop Hfull Hempty HP HS. unfold load_animations.
  eapply triple_bind; [exact Hloop|]. intros ?u.
  eapply triple_bind with (R := fun frames a => frames = a_animation_frames a /\ I1 a).
  { apply triple_gets. auto. }
  intros frames.
  eapply triple_bind with (R := fun _ => I2).
  { apply triple_when.
    - intros Hemp a [-> Ha].
      assert (Hnil : a_animation_frames a = []).
      { destruct (a_animation_frames a); [reflexivity|discriminate]. }
      specialize (Hempty a Ha Hnil).
      unfold bind, modify, print, set_animation_frames. simpl.
      rewrite Hnil. simpl. exact Hempty.
    - intros Hemp a [-> Ha]. apply Hfull; [exact Ha|].
      intros Hnil. rewrite Hnil in Hemp. discriminate. }
  intros ?u.
  eapply triple_bind with (R := fun _ => I2).
  { apply triple_gets. auto. }
  intros frames'. apply triple_for_each. intros anim_name _.
  eapply triple_bind with (R := fun _ => I2).
  { apply triple_gets. auto. }
  intros speeds. apply triple_when; [|auto]. intros ?u.
  eapply triple_bind with (R := fun _ => I2).
  { apply triple_modify. intros a Ha. now apply HS. }
  intros ?u. now apply print_spec.
Qed.

Lemma dict_set_nonempty name (frames : list Frame) table :
  frames <> [] -> frames_nonempty table -> frames_nonempty (dict_set name frames table).
Proof.
  intros Hne. unfold frames_nonempty.
  induction table as [|[k v] table IH]; intros Hall; simpl.
  - constructor; [exact Hne|constructor].
  - inversion Hall as [|? ? Hv Htl]; subst.
    destruct (String.eqb name k); constructor; auto.
Qed.

(** After [load_animations] the table is never empty, and holds no empty list. *)
Lemma load_animations_table animation_paths :
  triple (fun a => a_animation_frames a = [])
         (load_animations fs animation_paths)
         (fun _ a => a_animation_frames a <> [] /\ frames_nonempty (a_animation_frames a))
         never.
Proof.
  eapply triple_conseq with
    (P' := fun a => frames_nonempty (a_animation_frames a)) (E' := never);
    [| |intros a s Hs; exact Hs|auto].
  - apply load_animations_phases.
    + apply triple_for_each. intros [name path] _. simpl.
      apply load_animation_spec.
      * intros a m Ha. exact Ha.
      * intros a n frames Hne Ha. simpl. now apply dict_set_nonempty.
    + auto.
    + intros a Ha Hnil. simpl. split; [discriminate|].
      constructor; [discriminate|constructor].
    + intros a m Ha. exact Ha.
    + intros a v Ha. exact Ha.
  - intros a Ha. simpl in Ha. rewrite Ha. constructor.
Qed.

End Loader.

(** ** [frame_index] stays a valid index *)
Section IndexInvariant.
Context {F : Type} `{PyFloat F}.

Lemma frames_nonempty_get (table : list (string * list Frame)) (k : string)
    (frames : list Frame) :
  frames_nonempty table -> dict_get k table = Some frames -> frames <> [].
Proof.
  unfold frames_nonempty. induction table as [|[k' v] table IH]; intros Hall Hget.
  - discriminate.
  - inversion Hall as [|? ? Hv Htl]; subst. cbn in Hget.
    destruct (String.eqb k k').
    + injection Hget as <-. exact Hv.
    + now apply IH.
Qed.

(** A new player points at the first frame of [idle], if there is one. *)
Lemma init_index_valid (fs : FileSystem) (pos : Z * Z)
    (animation_paths : list (string * string)) (speed0 scale0 : F) (self : Player F) :
  fst (init fs pos animation_paths speed0 scale0) = Ok self -> index_valid self.
Proof.
  unfold init.
  set (self0 := {| a_scale := scale0; a_animation_frames := [];
                   a_animation_speeds := _; a_debug := None; a_stdout := [] |}).
  pose proof (load_animations_table fs animation_paths self0 eq_refl) as Htable.
  destruct (load_animations fs animation_paths self0) as [[u|e] a]; [|destruct Htable].
  destruct Htable as [_ Hall]. cbn [fst]. intros [= <-].
  unfold index_valid. cbn.
  destruct (dict_get "idle" (a_animation_frames a)) as [frames|] eqn:Hget; [|exact I].
  pose proof (frames_nonempty_get _ _ _ Hall Hget) as Hne.
  destruct frames; [congruence|]. cbn. lia.
Qed.

Lemma py_getitem_first {A} (l : list A) (x : A) :
  py_getitem l 0 = Ok x -> 0 < Z.of_nat (length l).
Proof.
  unfold py_getitem. cbn.
  destruct (Z.of_nat (length l) <=? 0) eqn:Hlen; [discriminate|].
  apply Z.leb_gt in Hlen. auto.
Qed.

(** [set_animation] starts the new animation at its first frame. *)
Lemma set_animation_index_valid (self self' : Player F) (animation_name : string) :
  index_valid self -> set_animation self animation_name = Ok self' -> index_valid self'.
Proof.
  intros Hvalid. unfold set_animation.
  destruct (dict_get animation_name (animation_frames self)) as [frames|] eqn:Hget.
  - destruct (negb (String.eqb (current_animation self) animation_name)).
    + destruct (py_getitem frames 0) as [fr|e] eqn:Hfr; [|discriminate].
      intros [= <-]. unfold index_valid. cbn. rewrite Hget.
      apply py_getitem_first in Hfr. lia.
    + now intros [= <-].
  - now intros [= <-].
Qed.

Lemma animate_loop_index (fuel : nat) (current_speed : F) (frames_count : Z) :
  forall (timer : F) (index : Z) (timer' : F) (index' : Z),
    animate_loop fuel current_speed frames_count timer index = Some (Ok (timer', index')) ->
    0 <= index < frames_count -> 0 <= index' < frames_count.
Proof.
  induction fuel as [|fuel IH]; intros timer index timer' index'; cbn [animate_loop].
  - destruct (f_leb current_speed timer); [discriminate|]. now intros [= <- <-].
  - destruct (f_leb current_speed timer).
    + destruct (frames_count =? 0); [discriminate|].
      intros Hloop Hidx. eapply IH; [exact Hloop|].
      apply Z.mod_pos_bound. lia.
    + now intros [= <- <-].
Qed.

(** [animate] keeps [frame_index] valid, in any arithmetic. *)
Lemma animate_index_valid (fuel : nat) (self self' : Player F) (dt : F) :
  index_valid self -> animate fuel self dt = Some (Ok self') -> index_valid self'.
Proof.
  unfold index_valid, animate.
  destruct (dict_get (current_animation self) (animation_frames self))
    as [frames|] eqn:Hget.
  - intros Hvalid.
    destruct (f_leb (get_current_animation_speed self)
                (f_add (animation_timer self) dt)).
    + destruct (animate_loop fuel _ _ _ _) as [[[t' i']|e]|] eqn:Hloop; try discriminate.
      destruct (py_getitem frames i'); [|discriminate].
      intros [= <-]. cbn. rewrite Hget.
      eapply animate_loop_index; eauto.
    + intros [= <-]. cbn. rewrite Hget. exact Hvalid.
  - intros _ [= <-]. now rewrite Hget.
Qed.
End IndexInvariant.

(** C9, the claim as stated fails: the directory of [walking] is missing,
    [idle] loads; the player shows the loaded frame and the table holds no
    placeholder. *)
Lemma missing_directory_without_placeholder :
  path_exists only_idle "assets/walking" = false
  /\ exists self : Player float,
       init only_idle (0, 0) idle_and_walking (f_of_Z 5) (f_of_Z 1)
         = (Ok self,
            [ErrProcessing "idle" (AttributeError "debug");
             WarnPathMissing "assets/walking"])
       /\ image self = Image "assets/idle/0.png" 64 64
       /\ image self <> magenta_square
       /\ animation_frames self
          = [("idle", [{| original := Image "assets/idle/0.png" 64 64;
                          flipped := Flipped (Image "assets/idle/0.png" 64 64) |}])].
Proof.
  split; [reflexivity|].
  eexists. split; [vm_compute; reflexivity|].
  split; [reflexivity|]. split; [discriminate|reflexivity].
Qed.

Lemma py_getitem_in_range {A} (l : list A) (i : Z) :
  0 <= i < Z.of_nat (length l) -> exists x, py_getitem l i = Ok x.
Proof.
  intros Hi. unfold py_getitem.
  destruct (i <? 0) eqn:Hneg; [apply Z.ltb_lt in Hneg; lia|].
  destruct ((i <? 0) || (Z.of_nat (length l) <=? i)) eqn:Hout.
  - apply orb_true_iff in Hout as [Hc|Hc];
      [apply Z.ltb_lt in Hc|apply Z.leb_le in Hc]; lia.
  - destruct (nth_error l (Z.to_nat i)) as [x|] eqn:Hnth; [now exists x|].
    apply nth_error_None in Hnth. lia.
Qed.

(** ** The catch-up loop of [animate] *)

Section TraceFacts.
Context {F : Type} `{PyFloat F}.

Lemma visited_inv (s t0 t : F) :
  visited s t0 t -> t = t0 \/ (f_leb s t0 = true /\ visited s (f_sub t0 s) t).
Proof. intros Hv. inversion Hv; subst; auto. Qed.

Lemma lowers_next (s t : F) :
  f_leb s t = true -> lowers s t -> lowers s (f_sub t s).
Proof. intros Hle Hlow t' Hv. apply Hlow. now apply visited_next. Qed.

Lemma lowers_within_sound (fuel : nat) (s : F) :
  forall t, lowers_within fuel s t = true -> lowers s t.
Proof.
  induction fuel as [|fuel IH]; intros t Hcheck t' Hv Hle; cbn [lowers_within] in Hcheck;
    destruct (f_leb s t) eqn:Hst; try discriminate Hcheck.
  - destruct (visited_inv _ _ _ Hv) as [->|[Hc _]]; congruence.
  - apply andb_prop in Hcheck as [Hlt Hrest].
    destruct (visited_inv _ _ _ Hv) as [->|[_ Hv']]; [exact Hlt|].
    exact (IH _ Hrest t' Hv' Hle).
  - destruct (visited_inv _ _ _ Hv) as [->|[Hc _]]; congruence.
Qed.

Lemma animate_loop_absorbed (s : F) (c : Z) (t0 t : F) :
  c <> 0 -> visited s t0 t -> f_leb s t = true -> f_sub t s = t ->
  forall fuel i, animate_loop fuel s c t0 i = None.
Proof.
  intros Hc Hv Hle Hsub. apply Z.eqb_neq in Hc.
  induction Hv as [t|t0 t Hle0 Hv IH].
  - induction fuel as [|fuel IHf]; intros i; cbn [animate_loop]; rewrite Hle;
      [reflexivity|]. rewrite Hc, Hsub. apply IHf.
  - specialize (IH Hle Hsub).
    intros [|fuel] i; cbn [animate_loop]; rewrite Hle0; [reflexivity|].
    rewrite Hc. apply IH.
Qed.
End TraceFacts.

Lemma animate_loop_lowering (s : float) (c : Z) :
  f_ltb 0%float s = true -> 0 < c ->
  forall (n : nat) (t : float) (i : Z),
    float_rank t < Z.of_nat n ->
    f_eqb t t = true -> lowers s t -> 0 <= i < c ->
    exists k t' i',
      (forall fuel, (k <= fuel)%nat ->
         animate_loop fuel s c t i = Some (Ok (t', i')))
      /\ f_ltb t' s = true /\ 0 <= i' < c.
Proof.
  intros Hs Hc.
  assert (Hsnum : PrimFloat.eqb s s = true) by (apply (ltb_number _ _ Hs)).
  assert (Hout : forall t i, f_eqb t t = true -> f_leb s t = false -> 0 <= i < c ->
            exists k t' i',
              (forall fuel, (k <= fuel)%nat ->
                 animate_loop fuel s c t i = Some (Ok (t', i')))
              /\ f_ltb t' s = true /\ 0 <= i' < c).
  { intros t i Hnum Hle Hi. exists O, t, i.
    split; [intros fuel _; destruct fuel; cbn [animate_loop]; now rewrite Hle|].
    split; [now apply leb_false_ltb|exact Hi]. }
  induction n as [|n IH]; intros t i Hrank Hnum Hlow Hi;
    destruct (f_leb s t) eqn:Hle; try (now apply Hout).
  - pose proof (leb_positive s t Hs Hle). lia.
  - pose proof (leb_positive s t Hs Hle) as Hpos.
    pose proof (Hlow t (visited_here s t) Hle) as Hlt.
    pose proof (ltb_rank _ _ Hlt Hpos) as Hdown.
    destruct (IH (f_sub t s) ((i + 1) mod c)) as (k & t' & i' & Hk & Ht' & Hi').
    + lia.
    + apply (ltb_number _ _ Hlt).
    + now apply lowers_next.
    + apply Z.mod_pos_bound. lia.
    + exists (S k), t', i'. split; [|split; assumption].
      intros [|fuel] Hfuel; [lia|].
      cbn [animate_loop]. rewrite Hle.
      destruct (c =? 0) eqn:Ec; [apply Z.eqb_eq in Ec; lia|].
      apply Hk. lia.
Qed.

(** C10, as amended: on Python's floats, with the current animation in the
    table, its frame list not empty, a positive speed, [frame_index] valid
    on entry and a timer that is a number after [timer += dt] (not a NaN).
    When every [timer -= current_speed] that the loop performs lowers the
    timer, the catch-up loop of [Player.animate] ends (any fuel from [k] on
    gives the same result); afterwards the timer is below the speed and
    [frame_index] is a valid index.  When one of them leaves the timer as it
    was, [animate] never returns. *)
Theorem animate_terminates (self : Player float) (dt : float) (frames : list Frame) :
  dict_get (current_animation self) (animation_frames self) = Some frames ->
  frames <> [] ->
  f_ltb (f_of_Z 0) (get_current_animation_speed self) = true ->
  0 <= frame_index self < Z.of_nat (length frames) ->
  f_eqb (f_add (animation_timer self) dt) (f_add (animation_timer self) dt) = true ->
  (lowers (get_current_animation_speed self) (f_add (animation_timer self) dt) ->
   exists (k : nat) (self' : Player float),
     (forall fuel, (k <= fuel)%nat -> animate fuel self dt = Some (Ok self'))
     /\ f_ltb (animation_timer self') (get_current_animation_speed self') = true
     /\ dict_get (current_animation self') (animation_frames self') = Some frames
     /\ 0 <= frame_index self' < Z.of_nat (length frames))
  /\ (absorbs (get_current_animation_speed self) (f_add (animation_timer self) dt) ->
      forall fuel, animate fuel self dt = None).
Proof.
  intros Hget Hne Hspeed Hidx Hnum.
  assert (Hcount : 0 < Z.of_nat (length frames))
    by (destruct frames; [congruence|cbn; lia]).
  set (s := get_current_animation_speed self) in *.
  set (t := f_add (animation_timer self) dt) in *.
  split.
  - intros Hlow.
    destruct (f_leb s t) eqn:Hle.
    + destruct (animate_loop_lowering s (Z.of_nat (length frames)) Hspeed Hcount
                  (Z.to_nat (float_rank t + 1)) t (frame_index self))
        as (k & t' & i' & Hk & Ht' & Hi'); try assumption.
      { lia. }
      destruct (py_getitem_in_range frames i' Hi') as [fr Hfr].
      exists k, (set_frame t' i' (facing self fr) self).
      split; [|split; [exact Ht'|split; [exact Hget|exact Hi']]].
      intros fuel Hfuel. unfold animate. rewrite Hget. fold s t. rewrite Hle.
      rewrite (Hk fuel Hfuel). now rewrite Hfr.
    + exists O, (set_frame t (frame_index self) (image self) self).
      split; [|split; [|split; [exact Hget|exact Hidx]]].
      * intros fuel _. unfold animate. rewrite Hget. fold s t. now rewrite Hle.
      * change (f_ltb t s = true). apply leb_false_ltb; try assumption.
        apply (ltb_number _ _ Hspeed).
  - intros (t1 & Hv & Hle1 & Hsub) fuel. unfold animate. rewrite Hget. fold s t.
    assert (Hle : f_leb s t = true).
    { destruct (visited_inv _ _ _ Hv) as [->|[Hle _]]; assumption. }
    rewrite Hle.
    rewrite (animate_loop_absorbed s (Z.of_nat (length frames)) t t1); auto. lia.
Qed.

Lemma binary64_absorbs :
  f_leb (f_lit 1 10) 1e16%float = true
  /\ f_sub 1e16%float (f_lit 1 10) = 1e16%float.
Proof. split; vm_compute; reflexivity. Qed.

Lemma animate_loop_binary64_runs_on (fuel : nat) :
  forall index, animate_loop fuel (f_lit 1 10) 1 1e16%float index = None.
Proof.
  destruct binary64_absorbs as [Hle Hsub].
  induction fuel as [|fuel IH]; intros index; cbn [animate_loop]; rewrite Hle.
  - reflexivity.
  - cbn [Z.eqb]. rewrite Hsub. apply IH.
Qed.

(** C10, the claim as stated fails on Python's floats: a new player whose
    table is the placeholder, [animate(1e16)]: the premises of the claim
    hold, and the loop is still running after any number of turns, because
    [1e16 - 0.1 == 1e16]. *)
Lemma animate_binary64_never_returns :
  init no_files (0, 0) [] (f_of_Z 5) (f_of_Z 1)
  = (Ok (placeholder_player (F := float)), [WarnPlaceholder])
  /\ f_leb (f_of_Z 0) 1e16%float = true
  /\ dict_get (current_animation (placeholder_player (F := float))) (animation_frames (placeholder_player (F := float)))
     = Some [placeholder_frame]
  /\ f_ltb (f_of_Z 0) (get_current_animation_speed (placeholder_player (F := float))) = true
  /\ frame_index (placeholder_player (F := float)) = 0
  /\ forall fuel, animate fuel (placeholder_player (F := float)) 1e16%float = None.
Proof.
  split; [vm_compute; reflexivity|]. split; [vm_compute; reflexivity|].
  split; [vm_compute; reflexivity|]. split; [vm_compute; reflexivity|].
  split; [reflexivity|].
  intros fuel. unfold animate.
  change (dict_get (current_animation (placeholder_player (F := float))) (animation_frames (placeholder_player (F := float))))
    with (Some [placeholder_frame]).
  change (get_current_animation_speed (placeholder_player (F := float))) with (f_lit 1 10 : float).
  change (f_add (animation_timer (placeholder_player (F := float))) 1e16%float) with (1e16%float).
  destruct binary64_absorbs as [Hle _]. rewrite Hle.
  change (Z.of_nat (length [placeholder_frame])) with 1.
  change (frame_index (placeholder_player (F := float))) with 0.
  now rewrite animate_loop_binary64_runs_on.
Qed.

(** C10 at 60 frames a second, 0.09 s into a frame of 0.1 s: the timer
    passes the speed and the loop takes one period off. *)
Lemma animate_terminates_witness :
  exists (k : nat) (self' : Player float),
    (forall fuel, (k <= fuel)%nat ->
       animate fuel (set_frame (f_lit 9 100) 0 magenta_square placeholder_player)
         (f_lit 1 60) = Some (Ok self'))
    /\ f_ltb (animation_timer self') (get_current_animation_speed self') = true
    /\ dict_get (current_animation self') (animation_frames self')
       = Some [placeholder_frame]
    /\ 0 <= frame_index self' < Z.of_nat (length [placeholder_frame]).
Proof.
  destruct (animate_terminates
              (set_frame (f_lit 9 100) 0 magenta_square (placeholder_player (F := float)))
              (f_lit 1 60) [placeholder_frame]) as [Hends _].
  - reflexivity.
  - discriminate.
  - vm_compute. reflexivity.
  - cbn. lia.
  - vm_compute. reflexivity.
  - apply Hends. apply (lowers_within_sound 2). vm_compute. reflexivity.
Defined.

End PlayerFacts.

(* ===================================================================== *)
(** * Facts about the button *)
(* ===================================================================== *)

Module ButtonFacts.
Import Py Py.Notations Pygame Button.
Section ButtonFacts.
Context {F : Type} `{PyFloat F}.

Lemma scale_image_rect (b : Button) : rect (snd (scale_image b)) = rect b.
Proof.
  unfold scale_image, bind, get, lift, modify, ret.
  destruct (image b) as [img|]; [|reflexivity].
  destruct (if fits_9slice b img then _ else _) as [s|e]; reflexivity.
Qed.

Lemma scale_hover_image_rect (b : Button) : rect (snd (scale_hover_image b)) = rect b.
Proof.
  unfold scale_hover_image, bind, get, lift, modify, ret.
  destruct (hover_image b) as [img|]; [|reflexivity].
  destruct (if fits_9slice b img then _ else _) as [s|e]; reflexivity.
Qed.

Lemma resize_rect (b : Button) (scale_x scale_y : F) (x y width height : Z) :
  rect_assign (f_mul (f_of_Z (original_x b)) scale_x) = Ok x ->
  rect_assign (f_mul (f_of_Z (original_y b)) scale_y) = Ok y ->
  rect_assign (f_mul (f_of_Z (original_width b)) scale_x) = Ok width ->
  rect_assign (f_mul (f_of_Z (original_height b)) scale_y) = Ok height ->
  rect (snd (resize scale_x scale_y b))
  = {| rect_x := x; rect_y := y; rect_w := width; rect_h := height |}.
Proof.
  intros Hx Hy Hw Hh.
  destruct b as [tx ox oy ow oh rc hv ip im si hi shi bs u9]. cbn in Hx, Hy, Hw, Hh.
  unfold resize, bind, get, lift, modify.
  cbn [original_x original_y original_width original_height].
  rewrite Hx, Hy, Hw, Hh.
  cbv beta iota delta [set_rect rect rect_x rect_y rect_w rect_h text original_x
    original_y original_width original_height hovered image_path image scaled_image
    hover_image scaled_hover_image border_size use_9slice].
  destruct im as [img|]; [|reflexivity].
  match goal with |- context [scale_image ?b'] =>
    pose proof (scale_image_rect b') as Hs;
    destruct (scale_image b') as [[u|e] b1]; cbn [snd] in *
  end.
  - exact (eq_trans (scale_hover_image_rect b1) Hs).
  - exact Hs.
Qed.
End ButtonFacts.

End ButtonFacts.

(* ===================================================================== *)
(** * Facts about the game *)
(* ===================================================================== *)

Module MainFacts.
Import Py Py.Notations Main.
(** Symbolic execution of the methods of [Game]: unfold the monad and the
    record updates, leave the maps and the arithmetic alone. *)
Ltac step_world :=
  cbv beta iota zeta delta
    [bind ret raise get gets modify lift when
     update_self emit mouse_set_visible event_set_allowed event_set_blocked
     new_view the_transition_screen current_view_is
     set_WIDTH set_HEIGHT set_fullscreen set_show_fps set_windowed_size set_font
     set_current_view set_transition_screen set_pending_view set_window
     set_load_task set_saved_game_view
     set_self set_heap set_tasks set_mouse_visible set_blocked set_display
     set_pygame_quit
     animation_paths design_width design_height WIDTH HEIGHT FPS fullscreen
     show_fps windowed_size font current_view transition_screen pending_view
     window load_task saved_game_view
     self heap tasks mouse_visible blocked display pygame_quit
     window_size window_flags fst snd].

(** The same, with the view names compared. *)
Ltac step_named :=
  cbv beta iota zeta delta
    [bind ret raise get gets modify lift when
     update_self emit mouse_set_visible event_set_allowed event_set_blocked
     new_view the_transition_screen current_view_is
     set_WIDTH set_HEIGHT set_fullscreen set_show_fps set_windowed_size set_font
     set_current_view set_transition_screen set_pending_view set_window
     set_load_task set_saved_game_view
     set_self set_heap set_tasks set_mouse_visible set_blocked set_display
     set_pygame_quit
     animation_paths design_width design_height WIDTH HEIGHT FPS fullscreen
     show_fps windowed_size font current_view transition_screen pending_view
     window load_task saved_game_view
     self heap tasks mouse_visible blocked display pygame_quit
     window_size window_flags fst snd
     is_game String.eqb Ascii.eqb Bool.eqb].

Section Geometry.
Context {F : Type} `{PyFloat F}.
Variable host : Host F.

(** [handle_resize] touches the font and the layout of the current view,
    nothing else. *)
Lemma handle_resize_effect (w : World) :
  exists fnt hp,
    snd (handle_resize host w) = set_heap hp (set_self (set_font fnt (self w)) w)
    /\ (hp = heap w
        \/ exists r, current_view (self w) = Some r
             /\ hp = alter (fun v => view_handle_resize v (WIDTH (self w)) (HEIGHT (self w)))
                       r (heap w)).
Proof.
  destruct w as [g hp tk mv bl dp pq].
  destruct g as [ap dw dh W Hh fps fs sf ws fnt cv ts pv win lt sgv].
  unfold handle_resize. step_world.
  destruct (py_div W dw) as [sx|e]; [|eauto].
  destruct (py_div Hh dh) as [sy|e]; [|eauto].
  destruct (py_int _) as [size|e]; [|eauto].
  destruct cv as [r|]; eauto 10.
Qed.

(** Replace a call of [handle_resize] by its effect. *)
Ltac run_handle_resize :=
  match goal with
  | |- context [handle_resize ?h ?w] =>
      let r := fresh "r" in
      let w' := fresh "w'" in
      let Heq := fresh "Heq" in
      destruct (handle_resize_effect w) as (?fnt & ?hp & Heq & ?Hhp);
      destruct (handle_resize h w) as [r w'];
      cbv [snd] in Heq; subst w'; destruct r
  end.

(** C6: a resize notification that the main loop processes leaves [WIDTH],
    [HEIGHT] and [windowed_size] as they are while fullscreen is active;
    otherwise all three are set from the notification's [(w, h)]. *)
Theorem resize_notification (w : World) (running : bool) (ew eh : Z) :
  let w' := snd (process_event host running (VIDEORESIZE ew eh) w) in
  if fullscreen (self w) then
    WIDTH (self w') = WIDTH (self w)
    /\ HEIGHT (self w') = HEIGHT (self w)
    /\ windowed_size (self w') = windowed_size (self w)
  else
    WIDTH (self w') = ew
    /\ HEIGHT (self w') = eh
    /\ windowed_size (self w') = (ew, eh).
Proof.
  destruct w as [g hp tk mv bl dp pq].
  destruct g as [ap dw dh W Hh fps fs sf ws fnt cv ts pv win lt sgv].
  unfold process_event. step_world. destruct fs; cbv [negb].
  - auto.
  - run_handle_resize; step_world; auto.
Qed.

Lemma process_events_fullscreen (evs : list Event) :
  forall (running : bool) (w : World),
    fullscreen (self w) = true ->
    snd (process_events host running evs w) = w.
Proof.
  induction evs as [|ev evs IH]; intros running w Hfs; [reflexivity|].
  cbn [process_events]. unfold bind.
  assert (Hev : exists b, process_event host running ev w = (Ok b, w)).
  { destruct ev; cbn [process_event]; try (eexists; reflexivity).
    unfold bind, gets. rewrite Hfs. eexists. reflexivity. }
  destruct Hev as [b Hb]. rewrite Hb. now apply IH.
Qed.

(** C5: from a windowed state of size [(w, h)], [toggle_fullscreen] enters
    fullscreen with the size the system reports; whatever events the loop
    processes meanwhile, a second [toggle_fullscreen] leaves fullscreen with
    [WIDTH], [HEIGHT], [windowed_size] and the window back at exactly
    [(w, h)]. *)
Theorem fullscreen_round_trip (w : World) (evs : list Event) (running : bool) :
  fullscreen (self w) = false ->
  let entered := snd (toggle_fullscreen host w) in
  let between := snd (process_events host running evs entered) in
  let back := snd (toggle_fullscreen host between) in
  fullscreen (self entered) = true
  /\ (WIDTH (self entered), HEIGHT (self entered)) = fullscreen_size host
  /\ fullscreen (self back) = false
  /\ WIDTH (self back) = WIDTH (self w)
  /\ HEIGHT (self back) = HEIGHT (self w)
  /\ windowed_size (self back) = (WIDTH (self w), HEIGHT (self w))
  /\ window (self back)
     = {| window_size := (WIDTH (self w), HEIGHT (self w)); window_flags := RESIZABLE |}.
Proof.
  intros Hfs entered between back.
  assert (Hentered :
    fullscreen (self entered) = true
    /\ (WIDTH (self entered), HEIGHT (self entered)) = fullscreen_size host
    /\ windowed_size (self entered) = (WIDTH (self w), HEIGHT (self w))).
  { subst entered between back.
    destruct w as [g hp tk mv bl dp pq].
    destruct g as [ap dw dh W Hh fps fs sf ws fnt cv ts pv win lt sgv].
    cbn in Hfs. subst fs.
    unfold toggle_fullscreen. step_world. cbv [negb].
    run_handle_resize; step_world; [destruct ts|]; step_world;
      destruct (fullscreen_size host); auto. }
  destruct Hentered as (He1 & He2 & He3).
  assert (Hbetween : between = entered).
  { subst between. now apply process_events_fullscreen. }
  split; [exact He1|]. split; [exact He2|].
  subst back. rewrite Hbetween. clear Hbetween between.
  destruct entered as [g hp tk mv bl dp pq].
  destruct g as [ap dw dh W Hh fps fs sf ws fnt cv ts pv win lt sgv].
  cbn in He1, He3. subst fs ws.
  unfold toggle_fullscreen. step_world. cbv [negb].
  run_handle_resize; step_world; [destruct ts|]; step_world; auto.
Qed.

Lemma fresh_ref_new (hp : gmap ref ViewObj) (r : ref) (v : ViewObj) :
  hp !! r = Some v -> fresh (dom hp) <> r.
Proof.
  intros Hr Heq. apply (is_fresh (dom hp)). rewrite Heq.
  apply elem_of_dom. eauto.
Qed.

(** C7: with a [GameView] at address [r] current,
    [switch_view("ingame_settings")] makes a new in-game settings view
    current and keeps [r]; [return_to_game] then makes [r] current again,
    the object at [r] being the one it was, hides the cursor, blocks the
    three mouse events and leaves no pending view. *)
Theorem embedded_settings_round_trip (w : World) (r : ref) (v : ViewObj) :
  current_view (self w) = Some r ->
  heap w !! r = Some v ->
  is_GameView v = true ->
  let embedded := snd (switch_view host "ingame_settings" w) in
  let resumed := snd (return_to_game embedded) in
  (exists r' layout,
      current_view (self embedded) = Some r' /\ r' <> r
      /\ heap embedded !! r'
         = Some (Settings (design_width (self w)) (design_height (self w))
                   false true true (show_fps (self w)) layout))
  /\ saved_game_view (self embedded) = Some r
  /\ fst (return_to_game embedded) = Ok tt
  /\ current_view (self resumed) = Some r
  /\ heap resumed !! r = Some v
  /\ mouse_visible resumed = false
  /\ (forall t, In t mouse_events -> blocked resumed t = true)
  /\ pending_view (self resumed) = None.
Proof.
  intros Hcur Hobj Hgame embedded resumed.
  destruct w as [g hp tk mv bl dp pq].
  destruct g as [ap dw dh W Hh fps fs sf ws fnt cv ts pv win lt sgv].
  cbn in Hcur, Hobj. subst cv.
  pose proof (fresh_ref_new hp r v Hobj) as Hfresh.
  subst resumed embedded.
  unfold switch_view. cbn [String.eqb Ascii.eqb Bool.eqb]. step_world.
  rewrite Hobj, Hgame. step_world.
  run_handle_resize; unfold return_to_game; step_world;
    (destruct Hhp as [-> | (r0 & Hr0 & ->)]; step_world;
     [|cbn in Hr0; injection Hr0 as <-]);
    (split; [eexists _, _; split; [reflexivity|]; split; [exact Hfresh|];
             rewrite ?lookup_alter_eq, lookup_insert_eq; reflexivity|]);
    rewrite ?lookup_alter_ne by exact Hfresh;
    rewrite lookup_insert_ne by exact Hfresh;
    repeat split; auto; intros ty [<-|[<-|[<-|[]]]]; reflexivity.
Qed.

(** *** The guard of the loading task *)

Lemma render_transition_guard (w : World) :
  guard (snd (render_transition w)) = guard w.
Proof.
  destruct w as [g hp tk mv bl dp pq].
  destruct g as [ap dw dh W Hh fps fs sf ws fnt cv ts pv win lt sgv].
  unfold render_transition. step_world.
  destruct cv, ts; reflexivity.
Qed.

Lemma perform_guard (a : Action) (w : World) :
  guard (snd (perform a w)) = guard w.
Proof.
  destruct a; try apply render_transition_guard;
    destruct w as [g hp tk mv bl dp pq];
    destruct g as [ap dw dh W Hh fps fs sf ws fnt cv ts pv win lt sgv];
    unfold perform; step_world; try destruct ts; reflexivity.
Qed.

Lemma run_to_await_guard (c : Coro) :
  forall w, guard (snd (run_to_await c w)) = guard w.
Proof.
  induction c as [d k IH | a k IH |]; intros w; try reflexivity.
  cbn [run_to_await]. unfold bind.
  pose proof (perform_guard a w) as Hp.
  destruct (perform a w) as [[u|e] w']; cbn [snd] in *.
  - now rewrite IH.
  - exact Hp.
Qed.

Lemma step_task_guard (due : bool) (t : Task) (w : World) :
  guard (snd (step_task due t w)) = guard w.
Proof.
  assert (Hgo : forall c,
    guard (snd (match run_to_await c w with
                | (Ok c'', w') =>
                    (Ok {| coro := c''; started := true; failure := None |}, w')
                | (Raise e, w') =>
                    (Ok {| coro := Return; started := true; failure := Some e |}, w')
                end : result Task * World)) = guard w).
  { intros c. pose proof (run_to_await_guard c w) as Hr.
    destruct (run_to_await c w) as [[c'|e] w']; exact Hr. }
  unfold step_task.
  destruct (failure t); [reflexivity|].
  destruct (coro t) as [d k | a k |]; try reflexivity.
  - destruct (negb (started t)); [apply Hgo|].
    destruct due; [apply Hgo|reflexivity].
  - destruct (negb (started t)); apply Hgo.
Qed.

Lemma step_tasks_guard (due : bool) (n : nat) :
  forall w, guard (snd (step_tasks due n w)) = guard w.
Proof.
  induction n as [|n IH]; intros w; [reflexivity|].
  cbn [step_tasks]. unfold bind at 1.
  specialize (IH w).
  destruct (step_tasks due n w) as [[u|e] w1]; cbn [snd] in *; [|exact IH].
  unfold bind, get.
  destruct (nth_error (tasks w1) n) as [t|]; [|exact IH].
  pose proof (step_task_guard due t w1) as Ht.
  destruct (step_task due t w1) as [[t'|e] w2]; cbn [snd] in *; [|congruence].
  rewrite <- IH, <- Ht. unfold guard, modify. cbn.
  now rewrite length_insert.
Qed.

Lemma yield_to_tasks_guard (due : bool) (w : World) :
  guard (snd (yield_to_tasks due w)) = guard w.
Proof. unfold yield_to_tasks, bind, get. apply step_tasks_guard. Qed.

Lemma toggle_fullscreen_guard (w : World) :
  guard (snd (toggle_fullscreen host w)) = guard w.
Proof.
  destruct w as [g hp tk mv bl dp pq].
  destruct g as [ap dw dh W Hh fps fs sf ws fnt cv ts pv win lt sgv].
  unfold toggle_fullscreen. step_world.
  destruct (negb fs); step_world; run_handle_resize; step_world;
    try destruct ts; reflexivity.
Qed.

(** One call of [handle_transition]: a task is created only when none is
    held, and the held one is given up only when the transition ends. *)
Lemma handle_transition_guard (w : World) :
  let w' := snd (handle_transition host w) in
  (tasks_created w <= tasks_created w')%nat
  /\ (tasks_created w' + tasks_allowed w' <= tasks_created w + tasks_allowed w)%nat
  /\ (load_task (self w) <> None -> tasks w' = tasks w)
  /\ (load_task (self w) <> None -> load_task (self w') = None ->
      transition_screen (self w') = None /\ pending_view (self w') = None).
Proof.
  destruct w as [g hp tk mv bl dp pq].
  destruct g as [ap dw dh W Hh fps fs sf ws fnt cv ts pv win lt sgv].
  unfold handle_transition, tasks_created, tasks_allowed, create_task. step_world.
  destruct (is_game pv) eqn:Hpv; step_world.
  2:{ rewrite Hpv. split; [lia|]. split; [lia|]. split; [auto|]. intros Hn Hc. congruence. }
  destruct ts as [ts|]; step_world.
  2:{ rewrite Hpv. split; [lia|]. split; [lia|]. split; [auto|]. intros Hn Hc. congruence. }
  destruct (active (update_fade host ts)).
  - destruct (alpha (update_fade host ts) <? 255); step_world.
    + rewrite Hpv. split; [lia|]. split; [lia|]. split; [auto|]. intros Hn Hc. congruence.
    + destruct lt as [t|]; step_world; rewrite ?Hpv.
      * split; [lia|]. split; [lia|]. split; [auto|]. intros Hn Hc. congruence.
      * rewrite length_app. cbn. split; [lia|]. split; [lia|]. split; congruence.
  - destruct (0 <? alpha (update_fade host ts)); step_world.
    + rewrite Hpv. split; [lia|]. split; [lia|]. split; [auto|]. intros Hn Hc. congruence.
    + destruct lt as [t|]; step_world; cbn.
      * split; [lia|]. split; [lia|]. auto.
      * split; [lia|]. split; [lia|]. split; congruence.
Qed.

Lemma guard_counts (w w' : World) :
  guard w' = guard w ->
  tasks_created w' = tasks_created w /\ tasks_allowed w' = tasks_allowed w.
Proof.
  unfold guard, tasks_created, tasks_allowed. intros Hg.
  injection Hg as -> -> ->. auto.
Qed.

Lemma run_op_guard (op : LoopOp) (w : World) :
  let w' := snd (run_op host op w) in
  (tasks_created w <= tasks_created w')%nat
  /\ (tasks_created w' + tasks_allowed w' <= tasks_created w + tasks_allowed w)%nat.
Proof.
  destruct op as [due| | |]; cbn [run_op].
  - destruct (guard_counts _ _ (yield_to_tasks_guard due w)) as [-> ->]. lia.
  - pose proof (handle_transition_guard w) as Hg. cbv zeta in Hg.
    destruct Hg as (H1 & H2 & _). unfold bind, ret.
    destruct (handle_transition host w) as [[r|e] w']; cbn [snd] in *; lia.
  - destruct (guard_counts _ _ (render_transition_guard w)) as [-> ->]. lia.
  - destruct (guard_counts _ _ (toggle_fullscreen_guard w)) as [-> ->]. lia.
Qed.

Lemma step_task_ok (due : bool) (t : Task) (w : World) :
  exists t', fst (step_task due t w) = Ok t'.
Proof.
  assert (Hgo : forall c, exists t',
    fst (match run_to_await c w with
         | (Ok c'', w') =>
             (Ok {| coro := c''; started := true; failure := None |}, w')
         | (Raise e, w') =>
             (Ok {| coro := Return; started := true; failure := Some e |}, w')
         end : result Task * World) = Ok t').
  { intros c. destruct (run_to_await c w) as [[c'|e] w']; eauto. }
  unfold step_task.
  destruct (failure t); [eexists; reflexivity|].
  destruct (coro t) as [d k | a k |]; try (eexists; reflexivity).
  - destruct (negb (started t)); [apply Hgo|].
    destruct due; [apply Hgo|eexists; reflexivity].
  - destruct (negb (started t)); apply Hgo.
Qed.

Lemma step_tasks_ok (due : bool) (n : nat) :
  forall w, fst (step_tasks due n w) = Ok tt.
Proof.
  induction n as [|n IH]; intros w; [reflexivity|].
  cbn [step_tasks]. unfold bind at 1. specialize (IH w).
  destruct (step_tasks due n w) as [[[]|e] w1]; cbn [fst] in IH; [|discriminate].
  unfold bind, get.
  destruct (nth_error (tasks w1) n) as [t|]; [|reflexivity].
  destruct (step_task_ok due t w1) as [t' Ht'].
  destruct (step_task due t w1) as [[t''|e] w2]; cbn [fst] in Ht'; [|discriminate].
  reflexivity.
Qed.

(** Giving the tasks their turn never raises in the main coroutine. *)
Lemma yield_to_tasks_ok (due : bool) (w : World) :
  fst (yield_to_tasks due w) = Ok tt.
Proof. unfold yield_to_tasks, bind, get. apply step_tasks_ok. Qed.

(** A turn of [run] that the transition preempts is a turn of the tasks, a
    call of [handle_transition] and a frame. *)
Lemma preempted_iteration (inp : Input) (last_time : F) (w : World) :
  let w1 := snd (emit Pump w) in
  let w2 := snd (yield_to_tasks (due inp) w1) in
  transition_screen (self w2) <> None ->
  fst (handle_transition host w2) = Ok (Some true) ->
  snd (run_iteration host inp last_time w)
  = run_ops host [OpYield (due inp); OpHandleTransition; OpRenderTransition] w1.
Proof.
  intros w1 w2 Hts Hpre. subst w2.
  unfold run_iteration. cbn [run_ops run_op].
  cbv beta iota delta [bind gets ret].
  change (emit Pump w) with (Ok tt, w1). cbv beta iota.
  pose proof (yield_to_tasks_ok (due inp) w1) as Hy.
  destruct (yield_to_tasks (due inp) w1) as [[[]|e] w2]; cbn [fst snd] in *;
    [|discriminate].
  destruct (transition_screen (self w2)) as [ts|]; [|congruence].
  destruct (handle_transition host w2) as [[r|e] w3]; cbn [fst] in Hpre;
    [|discriminate].
  injection Hpre as ->.
  destruct (render_transition w3) as [[[]|e] w4]; reflexivity.
Qed.
(** C3: over any run of the steps the loop takes while a transition is
    live (tasks' turns, [handle_transition], frames, fullscreen toggles), in
    any order and number, the tasks created are at most the one the guard
    allows at the start: none when [load_task] is held, at most one
    otherwise.  [handle_transition] gives [load_task] up only when it ends
    the transition.  By [preempted_iteration], a turn of [run] that the
    transition preempts is three of these steps. *)
Theorem load_task_created_at_most_once (ops : list LoopOp) (w : World) :
  let w' := run_ops host ops w in
  (tasks_created w <= tasks_created w')%nat
  /\ (tasks_created w' <= tasks_created w + tasks_allowed w)%nat
  /\ (tasks_allowed w <= 1)%nat
  /\ (load_task (self w) <> None -> tasks_allowed w = 0%nat)
  /\ (load_task (self w) <> None ->
      load_task (self (snd (handle_transition host w))) = None ->
      transition_screen (self (snd (handle_transition host w))) = None
      /\ pending_view (self (snd (handle_transition host w))) = None).
Proof.
  assert (Hrun : forall ops w,
    (tasks_created w <= tasks_created (run_ops host ops w))%nat
    /\ (tasks_created (run_ops host ops w) + tasks_allowed (run_ops host ops w)
        <= tasks_created w + tasks_allowed w)%nat).
  { clear ops w. induction ops as [|op ops IH]; intros w; cbn [run_ops]; [lia|].
    pose proof (run_op_guard op w) as [H1 H2].
    destruct (run_op host op w) as [[u|e] w1]; cbn [snd] in *; [|lia].
    destruct (IH w1). lia. }
  destruct (Hrun ops w) as [H1 H2]. cbv zeta.
  split; [exact H1|]. split; [lia|]. split.
  { unfold tasks_allowed.
    destruct (load_task (self w)), (is_game (pending_view (self w))); lia. }
  split.
  { unfold tasks_allowed. destruct (load_task (self w)); congruence. }
  apply (handle_transition_guard w).
Qed.

(** C4, the code at the failing input: while the overlay fades in, a turn
    of the loop ends in [render_transition] and [continue]; whatever events
    it had read, a [VIDEORESIZE] included, are dropped: [WIDTH], [HEIGHT]
    and [windowed_size] stay, the overlay is what [update_fade] made of it,
    and that is what the frame shows. *)
Theorem resize_lost_while_fading_in (w : World) (ts : LoadingScreen)
    (inp : Input) (last_time : F) :
  tasks w = [] ->
  pending_view (self w) = Some "game" ->
  transition_screen (self w) = Some ts ->
  active (update_fade host ts) = true ->
  alpha (update_fade host ts) < 255 ->
  let w' := snd (run_iteration host inp last_time w) in
  fst (run_iteration host inp last_time w)
  = Ok (true, f_div (f_of_Z (ticks inp)) (f_of_Z 1000))
  /\ WIDTH (self w') = WIDTH (self w)
  /\ HEIGHT (self w') = HEIGHT (self w)
  /\ windowed_size (self w') = windowed_size (self w)
  /\ transition_screen (self w') = Some (update_fade host ts)
  /\ display w' = display w ++ [Pump]
                  ++ transition_frame (current_view (self w)) (update_fade host ts).
Proof.
  intros Htasks Hpending Hts Hactive Halpha.
  destruct w as [g hp tk mv bl dp pq].
  destruct g as [ap dw dh W Hh fps fs sf ws fnt cv tso pv win lt sgv].
  cbn in Htasks, Hpending, Hts. subst tk pv tso.
  apply Z.ltb_lt in Halpha.
  unfold run_iteration, yield_to_tasks, handle_transition, render_transition,
    transition_frame.
  cbv beta iota delta [bind get tasks length step_tasks].
  step_named. rewrite Hactive, Halpha. step_world.
  destruct cv as [r|]; step_world; rewrite <- !app_assoc; cbn; auto 10.
Qed.

Lemma process_event_keeps_overlay (w : World) (running : bool) (ev : Event) :
  transition_screen (self (snd (process_event host running ev w)))
  = transition_screen (self w).
Proof.
  destruct w as [g hp tk mv bl dp pq].
  destruct g as [ap dw dh W Hh fps fs sf ws fnt cv ts pv win lt sgv].
  destruct ev; try reflexivity.
  unfold process_event. step_world. destruct (negb fs); [|reflexivity].
  step_world. run_handle_resize; reflexivity.
Qed.

(** The sibling path: a fullscreen toggle does resize a live overlay. *)
Lemma toggle_fullscreen_resizes_overlay (w : World) (ts : LoadingScreen) :
  transition_screen (self w) = Some ts ->
  let w' := snd (toggle_fullscreen host w) in
  fst (toggle_fullscreen host w) = Ok tt ->
  exists ts', transition_screen (self w') = Some ts'
    /\ current_width ts' = WIDTH (self w') /\ current_height ts' = HEIGHT (self w').
Proof.
  destruct w as [g hp tk mv bl dp pq].
  destruct g as [ap dw dh W Hh fps fs sf ws fnt cv tso pv win lt sgv].
  intros Hts. cbn in Hts. subst tso.
  unfold toggle_fullscreen. step_world.
  destruct (negb fs); step_world; run_handle_resize; step_world; intros Hok;
    try discriminate; eexists; split; reflexivity || (split; reflexivity).
Qed.

(** C1, as amended: with a game-start transition pending,
    [switch_view("main")] makes a new [MainMenu] current, shows the cursor,
    allows the mouse events and clears the pending marker, so that
    [handle_transition] does nothing from then on; the load task and the
    tasks of the event loop are left as they are (a load that has started is
    not cancelled). *)
Theorem switch_view_main_clears_marker (w : World) :
  pending_view (self w) = Some "game" ->
  let w' := snd (switch_view host "main" w) in
  let r := fresh (dom (heap w)) in
  current_view (self w') = Some r
  /\ (exists layout,
        heap w' !! r
        = Some (MainMenu (design_width (self w)) (design_height (self w)) layout))
  /\ pending_view (self w') = None
  /\ mouse_visible w' = true
  /\ (forall ty, In ty mouse_events -> blocked w' ty = false)
  /\ load_task (self w') = load_task (self w)
  /\ tasks w' = tasks w
  /\ handle_transition host w' = (Ok None, w').
Proof.
  intros Hpending.
  destruct w as [g hp tk mv bl dp pq].
  destruct g as [ap dw dh W Hh fps fs sf ws fnt cv tso pv win lt sgv].
  cbn in Hpending. subst pv.
  unfold switch_view. step_named.
  assert (Hmouse : forall (b : EventType -> bool) ty,
            In ty mouse_events -> (if mem_type ty mouse_events then false else b ty) = false).
  { intros b ty [<-|[<-|[<-|[]]]]; reflexivity. }
  run_handle_resize;
    (destruct Hhp as [-> | (r0 & Hr0 & ->)];
     [|cbn in Hr0; injection Hr0 as <-]);
    unfold handle_transition; step_named;
    rewrite ?lookup_alter_eq, ?lookup_insert_eq;
    cbn [fmap option_fmap option_map view_handle_resize]; step_named;
    repeat split; eauto.
Qed.

Ltac run_task :=
  cbv beta iota zeta delta
    [turns step_task run_to_await perform render_transition new_task
     load_game_resources for_range coro started failure negb
     update_progress set_progress set_active set_alpha
     ls_design_width ls_design_height current_width current_height alpha active progress
     step_frames transition_frame Z.of_nat Pos.of_succ_nat Pos.succ
     Z.add Z.mul Pos.add Pos.mul Pos.add_carry];
  step_world.

(** C2: the loading task pauses five times, 0.3 s each.  Scheduled first,
    it goes to sleep at once and stays so until its delay has passed.  Its
    [k]-th step, for [k] from 1 to 4, sets the progress to [20 * k], draws
    one more frame with the overlay at that progress, and pumps the events;
    the current view, the heap and the cursor are as before, and the task
    sleeps again.  The fifth step sets 100 and draws; only then is the
    [GameView] made and made current, are the mouse events blocked and the
    cursor hidden, and does the overlay start to fade out. *)
Theorem load_game_resources_steps (w : World) (ts : LoadingScreen) :
  transition_screen (self w) = Some ts ->
  delays load_game_resources = repeat (3 # 10) 5
  /\ (match step_task true new_task w with
      | (Ok t1, w1) => w1 = w /\ started t1 = true /\ sleeping t1
                       /\ step_task false t1 w = (Ok t1, w)
      | (Raise _, _) => False
      end)
  /\ (forall k, (1 <= k <= 4)%nat ->
        match turns (S k) new_task w with
        | (Ok tk, wk) =>
            self wk = set_transition_screen
                        (Some (update_progress (20 * Z.of_nat k) ts)) (self w)
            /\ display wk = display w ++ step_frames (current_view (self w)) ts k
            /\ heap wk = heap w
            /\ mouse_visible wk = mouse_visible w
            /\ sleeping tk /\ failure tk = None
        | (Raise _, _) => False
        end)
  /\ (match turns 6 new_task w with
      | (Ok t6, w6) =>
          let r := fresh (dom (heap w)) in
          self w6 = set_current_view (Some r)
                      (set_transition_screen
                         (Some (set_active false (update_progress 100 ts))) (self w))
          /\ heap w6 = <[r := GameView (animation_paths (self w)) (font (self w))
                                 (show_fps (self w)) None]> (heap w)
          /\ display w6 = display w ++ step_frames (current_view (self w)) ts 5
          /\ mouse_visible w6 = false
          /\ (forall t, In t mouse_events -> blocked w6 t = true)
          /\ coro t6 = Return /\ failure t6 = None
      | (Raise _, _) => False
      end).
Proof.
  intros Hts.
  destruct w as [g hp tk mv bl dp pq].
  destruct g as [ap dw dh W Hh fps fs sf ws fnt cv tso pv win lt sgv].
  cbn in Hts. subst tso.
  split; [reflexivity|]. split.
  { run_task. unfold sleeping. cbn. eauto 10. }
  split.
  - intros k Hk.
    assert (Hcases : k = 1%nat \/ k = 2%nat \/ k = 3%nat \/ k = 4%nat) by lia.
    destruct Hcases as [-> | [-> | [-> | ->]]]; destruct cv as [r|]; run_task;
      (split; [reflexivity|]); (split; [rewrite <- !app_assoc; reflexivity|]);
      unfold sleeping; cbn; eauto 10.
  - destruct cv as [r|]; run_task;
      (split; [reflexivity|]); (split; [reflexivity|]);
      (split; [rewrite <- !app_assoc; reflexivity|]);
      (split; [reflexivity|]);
      (split; [intros t [<-|[<-|[<-|[]]]]; reflexivity|]); split; reflexivity.
Qed.

End Geometry.

Section Scaling.
Context {F : Type} `{PyFloat F}.
Variable host : Host F.

Lemma handle_resize_font (w : World) (sx sy : F) (size : Z) :
  py_div (WIDTH (self w)) (design_width (self w)) = Ok sx ->
  py_div (HEIGHT (self w)) (design_height (self w)) = Ok sy ->
  py_int (f_mul (f_of_Z (const_font_medium host)) (py_min sx sy)) = Ok size ->
  handle_resize host w
  = (Ok tt,
     set_heap (resized_heap w)
       (set_self (set_font (Some {| font_size := size |}) (self w)) w)).
Proof.
  intros Hx Hy Hsize.
  destruct w as [g hp tk mv bl dp pq].
  destruct g as [ap dw dh W Hh fps fs sf ws fnt cv ts pv win lt sgv].
  cbn in Hx, Hy. unfold handle_resize, resized_heap. step_world.
  rewrite Hx, Hy. cbv beta iota. rewrite Hsize.
  destruct cv; reflexivity.
Qed.
End Scaling.

(** ** The claims at concrete worlds *)

(** C1, the claim as stated fails.  In the world where the overlay starts to
    fade in, [switch_view("main")] clears the pending marker and keeps the
    overlay, and the next [update] draws it over the menu; in the world
    where the load has just started, it keeps the load task as well. *)
Lemma switch_view_main_keeps_overlay_and_task :
  let w1 := snd (switch_view (plain_host (F := float)) "main" fading_world) in
  let w2 := snd (switch_view (plain_host (F := float)) "main" loading_world) in
  pending_view (self fading_world) = Some "game"
  /\ pending_view (self w1) = None
  /\ transition_screen (self w1) = Some fresh_overlay
  /\ display (snd (update w1))
     = display w1 ++ [Fill; DrawView 2%positive; DrawOverlay fresh_overlay]
  /\ pending_view (self loading_world) = Some "game"
  /\ load_task (self loading_world) = Some 0%nat
  /\ pending_view (self w2) = None
  /\ transition_screen (self w2) = Some opaque_overlay
  /\ load_task (self w2) = Some 0%nat
  /\ display (snd (update w2))
     = display w2 ++ [Fill; DrawView 2%positive; DrawOverlay opaque_overlay].
Proof.
  cbv zeta.
  do 9 (split; [vm_compute; reflexivity|]). vm_compute. reflexivity.
Qed.

(** C1 in the world where the overlay starts to fade in. *)
Lemma switch_view_main_clears_marker_witness :
  let w' := snd (switch_view (plain_host (F := float)) "main" fading_world) in
  pending_view (self w') = None
  /\ mouse_visible w' = true
  /\ load_task (self w') = load_task (self fading_world)
  /\ tasks w' = tasks fading_world
  /\ handle_transition (plain_host (F := float)) w' = (Ok None, w').
Proof.
  destruct (switch_view_main_clears_marker (plain_host (F := float)) fading_world)
    as (_ & _ & Hp & Hm & _ & Hlt & Htk & Hht);
    [vm_compute; reflexivity|].
  cbv zeta. split; [exact Hp|]. split; [exact Hm|]. split; [exact Hlt|].
  split; [exact Htk|exact Hht].
Defined.

(** C2 in the world where the overlay has just been made. *)
Lemma load_game_resources_steps_witness :
  match turns 6 new_task fading_world with
  | (Ok t6, w6) =>
      let r := fresh (dom (heap fading_world)) in
      self w6 = set_current_view (Some r)
                  (set_transition_screen
                     (Some (set_active false (update_progress 100 fresh_overlay)))
                     (self fading_world))
      /\ heap w6 = <[r := GameView (animation_paths (self fading_world))
                             (font (self fading_world))
                             (show_fps (self fading_world)) None]> (heap fading_world)
      /\ display w6 = display fading_world
                      ++ step_frames (current_view (self fading_world)) fresh_overlay 5
      /\ mouse_visible w6 = false
      /\ (forall t, In t mouse_events -> blocked w6 t = true)
      /\ coro t6 = Return /\ failure t6 = None
  | (Raise _, _) => False
  end.
Proof.
  apply (load_game_resources_steps fading_world fresh_overlay).
  vm_compute. reflexivity.
Defined.

(** C4 with a notification for a 1024x768 window. *)
Lemma resize_lost_while_fading_in_witness :
  let w' := snd (run_iteration (plain_host (F := float)) resize_input 0%float fading_world) in
  WIDTH (self w') = 800 /\ HEIGHT (self w') = 600
  /\ transition_screen (self w') = Some (set_alpha 5 fresh_overlay)
  /\ current_width (set_alpha 5 fresh_overlay) = 800.
Proof.
  destruct (resize_lost_while_fading_in (plain_host (F := float)) fading_world
              fresh_overlay resize_input 0%float)
    as (_ & Hw & Hh & _ & Hts & _);
    try (vm_compute; reflexivity).
  cbv zeta. repeat split; assumption.
Defined.

(** C5 from the menu, with a resize notification while fullscreen. *)
Lemma fullscreen_round_trip_witness :
  let entered := snd (toggle_fullscreen (plain_host (F := float)) menu_world) in
  let between := snd (process_events (plain_host (F := float)) true
                        [VIDEORESIZE 1024 768] entered) in
  let back := snd (toggle_fullscreen (plain_host (F := float)) between) in
  (WIDTH (self entered), HEIGHT (self entered)) = (1920, 1080)
  /\ WIDTH (self back) = 800 /\ HEIGHT (self back) = 600.
Proof.
  destruct (fullscreen_round_trip (plain_host (F := float)) menu_world
              [VIDEORESIZE 1024 768] true)
    as (_ & He & _ & Hw & Hh & _);
    try (vm_compute; reflexivity).
  cbv zeta. repeat split; assumption.
Defined.

(** C7 in the world where the game runs. *)
Lemma embedded_settings_round_trip_witness :
  let embedded := snd (switch_view (plain_host (F := float)) "ingame_settings" playing_world) in
  let resumed := snd (return_to_game embedded) in
  current_view (self resumed) = Some 2%positive
  /\ heap resumed !! 2%positive = Some loaded_game_view
  /\ mouse_visible resumed = false.
Proof.
  destruct (embedded_settings_round_trip (plain_host (F := float)) playing_world
              2%positive loaded_game_view)
    as (_ & _ & _ & Hc & Hh & Hm & _);
    try (vm_compute; reflexivity).
  cbv zeta. repeat split; assumption.
Defined.

(** A whole transition, from the request to the end of the fade-out, creates
    one task. *)
Example one_task_in_a_transition :
  tasks_created fading_world = 0%nat
  /\ tasks_created loading_world = 1%nat
  /\ tasks_created playing_world = 1%nat
  /\ pending_view (self playing_world) = None
  /\ transition_screen (self playing_world) = None
  /\ load_task (self playing_world) = None.
Proof. vm_compute. repeat split; reflexivity. Qed.
End MainFacts.

(* ===================================================================== *)
(** * Facts about the player: the loader, the methods, exact time *)
(* ===================================================================== *)

Module MotionFacts.
Import Py PyFacts Pygame Player PlayerFacts Motion.

(** ** Dictionaries *)
Section DictFacts.
Context {V : Type}.
Implicit Types (d : list (string * V)) (k : string) (v : V).

Lemma dict_get_set_eq d k v : dict_get k (dict_set k v d) = Some v.
Proof.
  induction d as [|[k' v'] d IH]; cbn.
  - now rewrite String.eqb_refl.
  - destruct (String.eqb k k') eqn:E; cbn.
    + now rewrite String.eqb_refl.
    + now rewrite E.
Qed.

Lemma dict_get_set_ne d k k' v :
  k <> k' -> dict_get k (dict_set k' v d) = dict_get k d.
Proof.
  intros Hne. apply String.eqb_neq in Hne.
  induction d as [|[k0 v0] d IH]; cbn.
  - now rewrite Hne.
  - destruct (String.eqb k' k0) eqn:E; cbn.
    + apply String.eqb_eq in E. subst k0. now rewrite Hne.
    + destruct (String.eqb k k0); [reflexivity|exact IH].
Qed.

Lemma dict_mem_set d k k' v :
  dict_mem k d = true -> dict_mem k (dict_set k' v d) = true.
Proof.
  unfold dict_mem. destruct (String.eqb k k') eqn:E.
  - apply String.eqb_eq in E. subst k'. now rewrite dict_get_set_eq.
  - apply String.eqb_neq in E. now rewrite dict_get_set_ne.
Qed.

Lemma dict_mem_keys d k : In k (dict_keys d) -> dict_mem k d = true.
Proof.
  unfold dict_mem, dict_keys. induction d as [|[k' v'] d IH]; cbn; [tauto|].
  intros [->|Hin].
  - now rewrite String.eqb_refl.
  - destruct (String.eqb k k'); [reflexivity|auto].
Qed.

Lemma dict_keys_mem d k : dict_mem k d = true -> In k (dict_keys d).
Proof.
  unfold dict_mem, dict_keys. induction d as [|[k' v'] d IH]; cbn; [discriminate|].
  destruct (String.eqb k k') eqn:E.
  - apply String.eqb_eq in E. auto.
  - auto.
Qed.
End DictFacts.

(** ** The loader, in full *)
Section LoaderFacts.
Context {F : Type} `{PyFloat F}.
Variable fs : FileSystem.
Implicit Types (a : Attrs F).

(** [load_animations], phase by phase. *)
Lemma load_animations_unfold animation_paths a :
  load_animations fs animation_paths a
  = match for_each animation_paths (fun np => load_animation fs (fst np) (snd np)) a with
    | (Ok _, a1) =>
        let a2 := if is_empty (a_animation_frames a1) then with_placeholder a1 else a1 in
        default_speeds (dict_keys (a_animation_frames a2)) a2
    | (Raise e, a1) => (Raise e, a1)
    end.
Proof.
  unfold load_animations, default_speeds, bind at 1.
  destruct (for_each animation_paths _ a) as [[u|e] a1]; [|reflexivity].
  unfold bind at 1, gets at 1. unfold bind at 1.
  destruct (a_animation_frames a1) as [|kv table] eqn:Htable; cbn [is_empty when].
  - unfold bind at 1, modify at 1, print at 1, modify at 1.
    unfold bind at 1, gets at 1.
    unfold with_placeholder, set_animation_frames. cbn. rewrite Htable. reflexivity.
  - unfold ret at 1. unfold bind at 1, gets at 1. rewrite Htable. reflexivity.
Qed.

Lemma default_speeds_spec keys :
  forall a, speeds_initial a ->
    exists a', default_speeds keys a = (Ok tt, a')
      /\ speeds_initial a'
      /\ a_animation_frames a' = a_animation_frames a
      /\ a_scale a' = a_scale a
      /\ (forall k, In k keys -> dict_mem k (a_animation_speeds a') = true)
      /\ (forall k, dict_mem k (a_animation_speeds a) = true ->
                    dict_mem k (a_animation_speeds a') = true).
Proof.
  induction keys as [|key keys IH]; intros a Ha.
  - exists a. cbn. unfold ret. split; [reflexivity|]. split; [exact Ha|].
    split; [reflexivity|]. split; [reflexivity|]. split; [intros k []|auto].
  - cbn [default_speeds for_each]. unfold bind at 1, bind at 1, gets at 1.
    destruct (dict_mem key (a_animation_speeds a)) eqn:Hmem; cbn [negb when].
    + unfold ret at 1. destruct (IH a Ha) as (a' & Hrun & Hi & Hf & Hs & Hk & Hm).
      exists a'. split; [exact Hrun|]. split; [exact Hi|]. split; [exact Hf|].
      split; [exact Hs|]. split; [|exact Hm].
      intros k [<-|Hin]; auto.
    + set (a1 := {| a_scale := a_scale a; a_animation_frames := a_animation_frames a;
                    a_animation_speeds := dict_set key (f_lit 1 10) (a_animation_speeds a);
                    a_debug := a_debug a;
                    a_stdout := a_stdout a ++ [SetDefaultSpeed key] |}).
      assert (Ha1 : speeds_initial a1).
      { destruct Ha as (Hw & Hat & Hall). split; [|split].
        - cbn. now apply dict_mem_set.
        - cbn. now apply dict_mem_set.
        - intros name s. cbn. destruct (String.eqb name key) eqn:E.
          + apply String.eqb_eq in E. subst name. rewrite dict_get_set_eq.
            intros [= <-]. unfold initial_speed.
            destruct (String.eqb key "walking") eqn:E1.
            { apply String.eqb_eq in E1. subst key. congruence. }
            destruct (String.eqb key "attack") eqn:E2.
            { apply String.eqb_eq in E2. subst key. congruence. }
            reflexivity.
          + apply String.eqb_neq in E. rewrite dict_get_set_ne by exact E. apply Hall. }
      destruct (IH a1 Ha1) as (a' & Hrun & Hi & Hf & Hs & Hk & Hm).
      exists a'. split; [exact Hrun|]. split; [exact Hi|]. split; [exact Hf|].
      split; [exact Hs|]. split.
      * intros k [<-|Hin]; [|auto]. apply Hm. cbn. unfold dict_mem.
        now rewrite dict_get_set_eq.
      * intros k Hk0. apply Hm. cbn. now apply dict_mem_set.
Qed.

Lemma builtin_speeds_initial scale0 : speeds_initial (new_attrs scale0).
Proof.
  split; [reflexivity|]. split; [reflexivity|].
  intros name s. cbn. unfold initial_speed.
  destruct (String.eqb name "idle") eqn:E0.
  { apply String.eqb_eq in E0. subst name. now intros [= <-]. }
  destruct (String.eqb name "walking") eqn:E1; [now intros [= <-]|].
  destruct (String.eqb name "attack") eqn:E2; [now intros [= <-]|].
  discriminate.
Qed.

(** What [load_animations] leaves in a new object. *)
Lemma load_animations_result animation_paths scale0 :
  exists a,
    load_animations fs animation_paths (new_attrs scale0) = (Ok tt, a)
    /\ a_animation_frames a <> []
    /\ frames_nonempty (a_animation_frames a)
    /\ speeds_initial a
    /\ (forall k, dict_mem k (a_animation_frames a) = true ->
                  dict_mem k (a_animation_speeds a) = true)
    /\ a_scale a = scale0.
Proof.
  rewrite load_animations_unfold.
  set (I1 := fun a : Attrs F =>
               frames_nonempty (a_animation_frames a)
               /\ a_animation_speeds a = builtin_speeds /\ a_scale a = scale0).
  assert (Hloop : triple I1
            (for_each animation_paths (fun np => load_animation fs (fst np) (snd np)))
            (fun _ => I1) never).
  { apply triple_for_each. intros [name path] _. apply load_animation_spec.
    - intros a m Ha. exact Ha.
    - intros a n frames Hne (Ha & Hs & Hc). split; [|split]; cbn; auto.
      now apply dict_set_nonempty. }
  assert (H0 : I1 (new_attrs scale0)).
  { split; [constructor|]. split; reflexivity. }
  specialize (Hloop _ H0).
  destruct (for_each animation_paths _ (new_attrs scale0)) as [[u|e] a1];
    [|destruct Hloop].
  destruct Hloop as (Hne & Hsp & Hsc). cbv zeta.
  set (a2 := if is_empty (a_animation_frames a1) then with_placeholder a1 else a1).
  assert (Ha2 : a_animation_frames a2 <> [] /\ frames_nonempty (a_animation_frames a2)
                /\ speeds_initial a2 /\ a_scale a2 = scale0).
  { assert (Hi1 : speeds_initial a1).
    { pose proof (builtin_speeds_initial scale0) as Hb.
      unfold speeds_initial in *. rewrite Hsp. exact Hb. }
    subst a2. destruct (a_animation_frames a1) eqn:Ht; cbn [is_empty].
    - split; [discriminate|]. split.
      { constructor; [discriminate|constructor]. }
      split; [exact Hi1|exact Hsc].
    - rewrite Ht. split; [discriminate|]. split; [exact Hne|]. split; assumption. }
  destruct Ha2 as (Hne2 & Hall2 & Hi2 & Hsc2).
  destruct (default_speeds_spec (dict_keys (a_animation_frames a2)) a2 Hi2)
    as (a' & Hrun & Hi & Hf & Hs & Hk & Hm).
  exists a'. split; [exact Hrun|]. rewrite Hf, Hs.
  split; [exact Hne2|]. split; [exact Hall2|]. split; [exact Hi|].
  split; [|exact Hsc2].
  intros k Hk0. apply Hk. now apply dict_keys_mem.
Qed.

(** One animation, with only what storing under its own name needs. *)
Lemma load_animation_spec_at (I : Attrs F -> Prop) animation_name path :
  print_stable I ->
  (forall a frames, frames <> [] -> I a ->
     I (set_animation_frames (dict_set animation_name frames (a_animation_frames a)) a)) ->
  triple I (load_animation fs animation_name path) (fun _ => I) never.
Proof.
  intros HP HS. unfold load_animation.
  destruct (negb (path_exists fs path)); [now apply print_spec|].
  eapply triple_try_except with (E1 := fun e a => is_Exception e = true /\ I a).
  - eapply triple_bind with (R := fun _ => I).
    { apply triple_lift. intros a Ha. unfold listdir.
      destruct (os_listdir fs path); simpl; auto. }
    intros names.
    eapply triple_bind with (R := fun r a => I a /\ True).
    { eapply triple_conseq; [apply (load_frames_spec fs I path _ HP [])| | |]; simpl.
      - auto.
      - intros r a [Ha _]. auto.
      - intros e a []. }
    intros [|fr frames].
    + eapply triple_conseq; [apply (print_spec I _ never HP)| | |]; simpl;
        [tauto|auto|intros ? ? []].
    + eapply triple_bind with (R := fun _ => I).
      { apply triple_modify. intros a [Ha _]. apply HS; [discriminate|exact Ha]. }
      intros _. eapply triple_bind with (R := fun _ => I).
      { intros a Ha. unfold self_debug. destruct (a_debug a); simpl; auto. }
      intros debug. apply triple_when.
      * intros _. now apply print_spec.
      * auto.
  - intros e _. eapply triple_conseq; [apply (print_spec I _ never HP)| | |]; simpl;
      [tauto|auto|intros ? ? []].
  - intros e a He [He' _]. congruence.
Qed.

(** With [scale == 1.0] the frame loop appends the frames of the files that
    decode, in order. *)
Lemma load_frames_exact path files :
  forall frames a,
    f_eqb (a_scale a) (f_of_Z 1) = true ->
    exists a',
      load_frames fs path files frames a
      = (Ok (frames ++ decoded_frames fs path files), a')
      /\ a_scale a' = a_scale a
      /\ a_animation_frames a' = a_animation_frames a
      /\ a_animation_speeds a' = a_animation_speeds a
      /\ a_debug a' = a_debug a.
Proof.
  induction files as [|f files IH]; intros frames a Hscale.
  - exists a. cbn. unfold ret. rewrite app_nil_r. auto.
  - cbn [load_frames decoded_frames]. unfold bind at 1.
    unfold try_except, bind at 1, load_frame, bind at 1, lift at 1, image_load.
    destruct (pygame_image_load fs (os_path_join path f)) as [msg|img].
    + cbn [is_Exception]. unfold bind at 1, print at 1, modify at 1, ret at 1.
      match goal with |- context [load_frames fs path files frames ?a1] =>
        destruct (IH frames a1 Hscale) as (a' & Hrun & Hs & Hf & Hsp & Hd) end.
      exists a'. rewrite Hrun. cbn in Hs, Hf, Hsp, Hd. auto.
    + unfold bind at 1, gets at 1. rewrite Hscale. cbn [negb].
      unfold bind at 1, ret at 1, ret at 1, bind at 1, ret at 1.
      destruct (IH (frames ++ [{| original := img; flipped := transform_flip img |}])
                  a Hscale) as (a' & Hrun & Hrest).
      exists a'. rewrite Hrun, <- app_assoc. auto.
Qed.

(** A directory that can be listed, at [scale == 1.0]: the frames that
    decode are stored under the name, if there are any. *)
Lemma load_animation_exact animation_name path names a :
  path_exists fs path = true ->
  os_listdir fs path = inr names ->
  f_eqb (a_scale a) (f_of_Z 1) = true ->
  exists a',
    load_animation fs animation_name path a = (Ok tt, a')
    /\ a_scale a' = a_scale a
    /\ a_animation_speeds a' = a_animation_speeds a
    /\ a_animation_frames a'
       = match decoded_frames fs path (frame_files fs path names) with
         | [] => a_animation_frames a
         | frames => dict_set animation_name frames (a_animation_frames a)
         end.
Proof.
  intros Hex Hlist Hscale. unfold load_animation. rewrite Hex. cbn [negb].
  unfold try_except, bind at 1, lift at 1, listdir. rewrite Hlist.
  unfold bind at 1. fold (frame_files fs path names).
  destruct (load_frames_exact path (frame_files fs path names) [] a Hscale)
    as (a1 & Hrun & Hs & Hf & Hsp & Hd).
  rewrite Hrun. cbn [app].
  destruct (decoded_frames fs path (frame_files fs path names)) as [|fr frames].
  - eexists. unfold print, modify. split; [reflexivity|]. cbn. auto.
  - unfold bind at 1, modify at 1, bind at 1, self_debug.
    cbn [a_debug set_animation_frames].
    destruct (a_debug a1) as [[|]|]; cbn [when is_Exception];
      eexists; (split; [reflexivity|]); cbn; rewrite Hf; auto.
Qed.

(** The loop over the paths, when one of them names a directory with
    decodable frames. *)
Lemma load_loop_exact animation_name path names animation_paths :
  List.NoDup (map fst animation_paths) ->
  In (animation_name, path) animation_paths ->
  path_exists fs path = true ->
  os_listdir fs path = inr names ->
  decoded_frames fs path (frame_files fs path names) <> [] ->
  forall a, f_eqb (a_scale a) (f_of_Z 1) = true ->
    exists a',
      for_each animation_paths (fun np => load_animation fs (fst np) (snd np)) a
      = (Ok tt, a')
      /\ dict_get animation_name (a_animation_frames a')
         = Some (decoded_frames fs path (frame_files fs path names))
      /\ a_scale a' = a_scale a
      /\ a_animation_speeds a' = a_animation_speeds a.
Proof.
  intros Hnodup Hin Hex Hlist Hne.
  induction animation_paths as [|[n p] rest IH]; [destruct Hin|].
  intros a Hscale. cbn [for_each fst snd]. unfold bind.
  cbn in Hnodup. apply List.NoDup_cons_iff in Hnodup as [Hfresh Hnodup].
  destruct Hin as [[= -> ->]|Hin].
  - destruct (load_animation_exact animation_name path names a Hex Hlist Hscale)
      as (a1 & Hrun & Hs & Hsp & Hf).
    rewrite Hrun.
    set (I := fun a' : Attrs F =>
                dict_get animation_name (a_animation_frames a')
                = Some (decoded_frames fs path (frame_files fs path names))
                /\ a_scale a' = a_scale a /\ a_animation_speeds a' = a_animation_speeds a).
    assert (Hrest : triple I
              (for_each rest (fun np => load_animation fs (fst np) (snd np)))
              (fun _ => I) never).
    { apply triple_for_each. intros [n' p'] Hin'. apply load_animation_spec_at.
      - intros a' m Ha'. exact Ha'.
      - intros a' frames _ (Hg & Hs' & Hsp'). split; [|split]; cbn; auto.
        rewrite dict_get_set_ne; [exact Hg|].
        intros ->. apply Hfresh. apply (in_map fst) in Hin'. exact Hin'. }
    assert (H1 : I a1).
    { split; [|split; assumption]. rewrite Hf.
      destruct (decoded_frames fs path (frame_files fs path names)); [congruence|].
      apply dict_get_set_eq. }
    specialize (Hrest a1 H1).
    destruct (for_each rest _ a1) as [[[]|e] a2]; [|destruct Hrest].
    exists a2. split; [reflexivity|exact Hrest].
  - set (I := fun a' : Attrs F =>
                a_scale a' = a_scale a /\ a_animation_speeds a' = a_animation_speeds a).
    assert (Hhead : triple I (load_animation fs n p) (fun _ => I) never).
    { apply load_animation_spec.
      - intros a' m Ha'. exact Ha'.
      - intros a' n' frames _ Ha'. exact Ha'. }
    specialize (Hhead a (conj eq_refl eq_refl)).
    destruct (load_animation fs n p a) as [[[]|e] a1]; [|destruct Hhead].
    destruct Hhead as [Hs Hsp].
    assert (Hscale1 : f_eqb (a_scale a1) (f_of_Z 1) = true) by now rewrite Hs.
    destruct (IH Hnodup Hin a1 Hscale1) as (a' & Hrun & Hg & Hs' & Hsp').
    exists a'. split; [exact Hrun|]. split; [exact Hg|]. split; congruence.
Qed.

(** [load_frame] reads the scale and leaves the object alone. *)
Lemma load_frame_run frame_path a :
  load_frame fs frame_path a = (frame_at fs (a_scale a) frame_path, a).
Proof.
  unfold frame_at, load_frame, bind, lift, gets, ret. cbn [a_scale new_attrs fst snd].
  destruct (image_load fs frame_path) as [img|e]; cbn [fst snd]; [|reflexivity].
  destruct (negb (f_eqb (a_scale a) (f_of_Z 1))); cbn [fst snd]; [|reflexivity].
  destruct (py_int (f_mul (f_of_Z (get_width img)) (a_scale a))) as [w|e];
    cbn [fst snd]; [|reflexivity].
  destruct (py_int (f_mul (f_of_Z (get_height img)) (a_scale a))) as [h|e];
    cbn [fst snd]; [|reflexivity].
  destruct (transform_scale img w h) as [scaled|e]; reflexivity.
Qed.

(** What a file fails with is an [Exception]: the inner [except] catches
    it. *)
Lemma frame_at_Exception scale0 frame_path e :
  frame_at fs scale0 frame_path = Raise e -> is_Exception e = true.
Proof.
  unfold frame_at, load_frame, bind, lift, gets, ret, image_load, py_int, transform_scale.
  cbn [a_scale new_attrs fst snd].
  destruct (pygame_image_load fs frame_path) as [msg|img]; cbn [fst snd];
    [intros [= <-]; reflexivity|].
  destruct (negb (f_eqb scale0 (f_of_Z 1))); cbn [fst snd]; [|discriminate].
  destruct (f_trunc (f_mul (f_of_Z (get_width img)) scale0)) as [w|]; cbn [fst snd];
    [|intros [= <-]; reflexivity].
  destruct (f_trunc (f_mul (f_of_Z (get_height img)) scale0)) as [h|]; cbn [fst snd];
    [|intros [= <-]; reflexivity].
  destruct ((w <? 0) || (h <? 0)); cbn [fst snd]; [intros [= <-]; reflexivity|discriminate].
Qed.

Lemma print_run m a table msgs :
  print m (attrs_with a table msgs) = (Ok tt, attrs_with a table (msgs ++ [m])).
Proof. unfold print, modify, attrs_with. cbn. now rewrite app_assoc. Qed.

Lemma load_frames_run path files :
  forall frames a table msgs,
    load_frames fs path files frames (attrs_with a table msgs)
    = (Ok (frames ++ frames_at fs (a_scale a) path files),
       attrs_with a table (msgs ++ frame_errors fs (a_scale a) path files)).
Proof.
  induction files as [|f files IH]; intros frames a table msgs.
  - cbn [load_frames frames_at frame_errors]. unfold ret.
    now rewrite !app_nil_r.
  - cbn [load_frames frames_at frame_errors]. unfold bind at 1, try_except, bind at 1.
    rewrite load_frame_run.
    change (a_scale (attrs_with a table msgs)) with (a_scale a).
    destruct (frame_at fs (a_scale a) (os_path_join path f)) as [fr|e] eqn:Hfr.
    + unfold ret at 1. rewrite IH, <- app_assoc. reflexivity.
    + rewrite (frame_at_Exception _ _ _ Hfr).
      unfold bind at 1. rewrite print_run. unfold ret at 1.
      rewrite IH, <- app_assoc. reflexivity.
Qed.

(** One turn of the loop over the paths, in [__init__]. *)
Lemma load_animation_run animation_name path a table msgs :
  a_debug a = None ->
  load_animation fs animation_name path (attrs_with a table msgs)
  = (Ok tt,
     attrs_with a (store_frames animation_name (directory_frames fs (a_scale a) path) table)
       (msgs ++ directory_messages fs (a_scale a) animation_name path)).
Proof.
  intros Hdebug. unfold load_animation, directory_frames, directory_messages.
  destruct (path_exists fs path); cbn [negb]; [|apply print_run].
  unfold try_except, bind at 1, lift at 1, listdir.
  destruct (os_listdir fs path) as [msg|names]; cbn [is_Exception].
  - apply print_run.
  - fold (frame_files fs path names). unfold bind at 1.
    rewrite load_frames_run. cbn [app].
    destruct (frames_at fs (a_scale a) path (frame_files fs path names)) as [|fr frames].
    + rewrite print_run, <- app_assoc. reflexivity.
    + unfold bind at 1, modify at 1, bind at 1, self_debug.
      cbn [a_debug attrs_with set_animation_frames a_animation_frames].
      rewrite Hdebug. cbn [is_Exception store_frames].
      unfold print, modify, attrs_with. cbn. now rewrite <- !app_assoc.
Qed.

Lemma load_loop_run animation_paths :
  forall a table msgs,
    a_debug a = None ->
    for_each animation_paths (fun np => load_animation fs (fst np) (snd np))
      (attrs_with a table msgs)
    = (Ok tt,
       attrs_with a (loaded_table fs (a_scale a) animation_paths table)
         (msgs ++ loader_messages fs (a_scale a) animation_paths)).
Proof.
  induction animation_paths as [|np rest IH]; intros a table msgs Hdebug.
  - cbn. unfold ret. now rewrite app_nil_r.
  - cbn [for_each loaded_table loader_messages flat_map]. unfold bind at 1.
    rewrite load_animation_run by exact Hdebug.
    rewrite IH by exact Hdebug. now rewrite <- app_assoc.
Qed.

(** The last loop prints one line for each speed it sets, and nothing
    else. *)
Lemma default_speeds_stdout keys :
  forall a, exists out,
    a_stdout (snd (default_speeds keys a)) = a_stdout a ++ out
    /\ forallb is_speed_message out = true.
Proof.
  induction keys as [|key keys IH]; intros a.
  - exists []. cbn. now rewrite app_nil_r.
  - cbn [default_speeds for_each]. unfold bind at 1, bind at 1, gets at 1.
    destruct (dict_mem key (a_animation_speeds a)); cbn [negb when].
    + unfold ret at 1. apply IH.
    + set (a1 := {| a_scale := a_scale a; a_animation_frames := a_animation_frames a;
                    a_animation_speeds := dict_set key (f_lit 1 10) (a_animation_speeds a);
                    a_debug := a_debug a;
                    a_stdout := a_stdout a ++ [SetDefaultSpeed key] |}).
      destruct (IH a1) as (out & Hout & Hall).
      exists (SetDefaultSpeed key :: out). split; [|exact Hall].
      change (a_stdout (snd (default_speeds keys a1))
              = a_stdout a ++ SetDefaultSpeed key :: out).
      rewrite Hout. cbn. now rewrite <- app_assoc.
Qed.

Lemma dict_set_not_nil {V : Type} (k : string) (v : V) (d : list (string * V)) :
  dict_set k v d <> [].
Proof. destruct d as [|[k' v'] d]; cbn; [|destruct (String.eqb k k')]; discriminate. Qed.

Lemma loaded_table_nil scale0 animation_paths :
  forall table,
    loaded_table fs scale0 animation_paths table = []
    <-> table = []
        /\ forall name path, In (name, path) animation_paths ->
                             directory_frames fs scale0 path = [].
Proof.
  induction animation_paths as [|[n p] rest IH]; intros table; cbn [loaded_table fst snd].
  - split; [intros ->; split; [reflexivity|intros ? ? []]|tauto].
  - rewrite IH. unfold store_frames.
    destruct (directory_frames fs scale0 p) as [|fr frames] eqn:Hp.
    + split; intros [Ht Hall]; (split; [exact Ht|]).
      * intros name path [[= <- <-]|Hin]; [exact Hp|eauto].
      * intros name path Hin. apply (Hall name path). now right.
    + split; intros [Ht Hall].
      * now apply dict_set_not_nil in Ht.
      * specialize (Hall n p (or_introl eq_refl)). congruence.
Qed.

(** Every frame list of the table comes from a directory. *)
Lemma loaded_table_get scale0 animation_paths name frames :
  forall table,
    dict_get name (loaded_table fs scale0 animation_paths table) = Some frames ->
    dict_get name table = Some frames
    \/ exists path, In (name, path) animation_paths
                    /\ frames = directory_frames fs scale0 path.
Proof.
  induction animation_paths as [|[n p] rest IH]; intros table; cbn [loaded_table fst snd].
  - auto.
  - intros Hget. destruct (IH _ Hget) as [Hin|(path & Hin & ->)].
    + unfold store_frames in Hin.
      destruct (directory_frames fs scale0 p) as [|fr frs] eqn:Hp; [auto|].
      destruct (String.eqb name n) eqn:E.
      * apply String.eqb_eq in E. subst n. rewrite dict_get_set_eq in Hin.
        injection Hin as <-. right. exists p. split; [now left|now rewrite Hp].
      * apply String.eqb_neq in E. rewrite dict_get_set_ne in Hin by exact E. auto.
    + right. exists path. split; [now right|reflexivity].
Qed.

Lemma directory_messages_in scale0 animation_paths name path m :
  In (name, path) animation_paths ->
  In m (directory_messages fs scale0 name path) ->
  In m (loader_messages fs scale0 animation_paths).
Proof.
  intros Hin Hm. unfold loader_messages. apply in_flat_map.
  exists (name, path). auto.
Qed.

Lemma frame_errors_kind scale0 path files m :
  In m (frame_errors fs scale0 path files) ->
  exists frame_path e, m = ErrLoadingFrame frame_path e.
Proof.
  induction files as [|f files IH]; cbn [frame_errors]; [intros []|].
  destruct (frame_at fs scale0 (os_path_join path f)); [exact IH|].
  intros [<-|Hin]; eauto.
Qed.

(** The loop over the paths never prints the line of the placeholder. *)
Lemma loader_messages_no_placeholder scale0 animation_paths :
  ~ In WarnPlaceholder (loader_messages fs scale0 animation_paths).
Proof.
  unfold loader_messages. rewrite in_flat_map. intros ([n p] & _ & Hm).
  unfold directory_messages in Hm. cbn [fst snd] in Hm.
  destruct (path_exists fs p); [|destruct Hm as [Hm|[]]; discriminate Hm].
  destruct (os_listdir fs p) as [msg|names]; [destruct Hm as [Hm|[]]; discriminate Hm|].
  apply in_app_or in Hm as [Hm|Hm].
  - apply frame_errors_kind in Hm as (fp & e & Hm). discriminate Hm.
  - destruct (frames_at fs scale0 p _); destruct Hm as [Hm|[]]; discriminate Hm.
Qed.

Lemma speed_messages_no_placeholder (out : list Msg) :
  forallb is_speed_message out = true -> ~ In WarnPlaceholder out.
Proof.
  intros Hall Hin. rewrite forallb_forall in Hall. specialize (Hall _ Hin).
  discriminate Hall.
Qed.

(** What [load_animations] leaves in a new object, in full. *)
Lemma load_animations_exact animation_paths scale0 :
  let table := loaded_table fs scale0 animation_paths [] in
  exists a out,
    load_animations fs animation_paths (new_attrs scale0) = (Ok tt, a)
    /\ a_animation_frames a
       = (if is_empty table then [("idle", [placeholder_frame])] else table)
    /\ a_stdout a
       = loader_messages fs scale0 animation_paths
         ++ (if is_empty table then [WarnPlaceholder] else []) ++ out
    /\ forallb is_speed_message out = true.
Proof.
  intros table. rewrite load_animations_unfold.
  change (new_attrs scale0) with (attrs_with (new_attrs scale0) [] []).
  rewrite load_loop_run by reflexivity.
  change (a_scale (new_attrs scale0)) with scale0. fold table. cbv zeta.
  cbn [a_animation_frames attrs_with].
  set (a1 := attrs_with (new_attrs scale0) table ([] ++ loader_messages fs scale0 animation_paths)).
  set (a2 := if is_empty table then with_placeholder a1 else a1).
  assert (Hi : speeds_initial a2).
  { pose proof (builtin_speeds_initial scale0) as Hb.
    subst a2. destruct (is_empty table); exact Hb. }
  destruct (default_speeds_spec (dict_keys (a_animation_frames a2)) a2 Hi)
    as (a' & Hrun & _ & Hf & _).
  destruct (default_speeds_stdout (dict_keys (a_animation_frames a2)) a2)
    as (out & Hout & Hall).
  rewrite Hrun in Hout. cbn [snd] in Hout.
  exists a', out. split; [exact Hrun|]. rewrite Hf, Hout.
  split; [|split; [|exact Hall]].
  - subst a2. destruct (is_empty table) eqn:E; [reflexivity|].
    destruct table; [discriminate E|reflexivity].
  - subst a2 a1. destruct (is_empty table); cbn; now rewrite <- ?app_assoc.
Qed.
End LoaderFacts.

(** ** The constructed player *)
Section Construction.
Context {F : Type} `{PyFloat F}.

Lemma init_result (fs : FileSystem) (pos : Z * Z)
    (animation_paths : list (string * string)) (speed0 scale0 : F) :
  exists a self,
    load_animations fs animation_paths (new_attrs scale0) = (Ok tt, a)
    /\ fst (init fs pos animation_paths speed0 scale0) = Ok self
    /\ animation_frames self = a_animation_frames a
    /\ animation_speeds self = a_animation_speeds a
    /\ current_animation self = "idle"
    /\ frame_index self = 0
    /\ image self = match dict_get "idle" (a_animation_frames a) with
                    | Some (fr :: _) => original fr
                    | _ => magenta_square
                    end.
Proof.
  destruct (load_animations_result fs animation_paths scale0) as (a & Hrun & _).
  exists a. unfold init. change (load_animations fs animation_paths _)
    with (load_animations fs animation_paths (new_attrs scale0)).
  rewrite Hrun. eexists. split; [reflexivity|]. cbn. auto 10.
Qed.

(** C9, as amended: [Player.__init__] never raises, whatever the paths and
    the file system; afterwards the animation table is not empty and holds
    no empty frame list.  Every directory has its lines printed: the
    warning that it is missing, the error of listing it, the error of each
    file that does not load, the warning that it gave no frame.  When no
    directory gives a frame, the table is the 32x32 magenta placeholder
    under [idle] alone, the sprite image is that square, and the warning of
    the placeholder is printed.  When a directory gives a frame, that
    warning is not printed and the table holds what the directories gave and
    nothing else, so a directory that fails next to one that loads gives no
    placeholder.  Whatever the table holds, the sprite image is the first
    frame of [idle], and the magenta square when [idle] is not there. *)
Theorem init_falls_back_on_placeholder (fs : FileSystem) (pos : Z * Z)
    (animation_paths : list (string * string)) (speed0 scale0 : F) :
  exists self out,
    init fs pos animation_paths speed0 scale0 = (Ok self, out)
    /\ animation_frames self <> []
    /\ frames_nonempty (animation_frames self)
    /\ (forall name path m,
          In (name, path) animation_paths ->
          In m (directory_messages fs scale0 name path) -> In m out)
    /\ ((forall name path, In (name, path) animation_paths ->
                           directory_frames fs scale0 path = []) ->
        animation_frames self = [("idle", [placeholder_frame])]
        /\ image self = magenta_square
        /\ In WarnPlaceholder out)
    /\ ((exists name path, In (name, path) animation_paths
                           /\ directory_frames fs scale0 path <> []) ->
        ~ In WarnPlaceholder out
        /\ forall name frames,
             dict_get name (animation_frames self) = Some frames ->
             exists path, In (name, path) animation_paths
                          /\ frames = directory_frames fs scale0 path)
    /\ (dict_get "idle" (animation_frames self) = None -> image self = magenta_square)
    /\ (forall fr frames, dict_get "idle" (animation_frames self) = Some (fr :: frames) ->
                          image self = original fr).
Proof.
  destruct (load_animations_result fs animation_paths scale0)
    as (a0 & Hrun0 & Hne & Hall & _).
  destruct (load_animations_exact fs animation_paths scale0)
    as (a & speeds_out & Hrun & Htable & Hout & Hspeeds).
  cbv zeta in Htable, Hout.
  rewrite Hrun in Hrun0. injection Hrun0 as <-.
  unfold init.
  change (load_animations fs animation_paths _)
    with (load_animations fs animation_paths (new_attrs scale0)).
  rewrite Hrun. eexists _, _. split; [reflexivity|].
  cbn [animation_frames image].
  split; [exact Hne|]. split; [exact Hall|].
  pose proof (loaded_table_nil fs scale0 animation_paths []) as Hnil.
  split; [|split; [|split; [|split]]].
  - intros name path m Hin Hm. rewrite Hout. apply in_or_app. left.
    now apply (directory_messages_in fs scale0 animation_paths name path).
  - intros Hnone.
    assert (Ht : loaded_table fs scale0 animation_paths [] = [])
      by (apply Hnil; split; [reflexivity|exact Hnone]).
    rewrite Ht in Htable, Hout. cbn [is_empty] in Htable, Hout.
    rewrite Htable, Hout. split; [reflexivity|]. split; [reflexivity|].
    apply in_or_app. right. now left.
  - intros (name & path & Hin & Hsome).
    destruct (loaded_table fs scale0 animation_paths []) as [|kv table] eqn:Ht.
    { destruct (proj1 Hnil eq_refl) as [_ Hnone]. now specialize (Hnone _ _ Hin). }
    cbn [is_empty] in Htable, Hout. split.
    + rewrite Hout. intros Hp. apply in_app_or in Hp as [Hp|Hp].
      * now apply loader_messages_no_placeholder in Hp.
      * cbn [app] in Hp. now apply speed_messages_no_placeholder in Hp.
    + intros name' frames Hget. rewrite Htable, <- Ht in Hget.
      apply loaded_table_get in Hget as [Hget|Hget]; [discriminate Hget|exact Hget].
  - intros Hidle. now rewrite Hidle.
  - intros fr frames Hidle. now rewrite Hidle.
Qed.
(** X1: after [Player.__init__], every animation of the table has the speed
    the class gives it: 0.08 for [walking], 0.05 for [attack], and 0.1 for
    any other name, [idle] included; the current animation is [idle], at
    speed 0.1. *)
Theorem init_speeds (fs : FileSystem) (pos : Z * Z)
    (animation_paths : list (string * string)) (speed0 scale0 : F) :
  exists self,
    fst (init fs pos animation_paths speed0 scale0) = Ok self
    /\ current_animation self = "idle"
    /\ get_current_animation_speed self = f_lit 1 10
    /\ forall name, dict_mem name (animation_frames self) = true ->
         dict_get name (animation_speeds self) = Some (initial_speed name).
Proof.
  destruct (load_animations_result fs animation_paths scale0)
    as (a & Hrun & _ & _ & (_ & _ & Hinit) & Hcover & _).
  destruct (init_result fs pos animation_paths speed0 scale0)
    as (a' & self & Hrun' & Hok & Hf & Hs & Hc & _).
  rewrite Hrun in Hrun'. injection Hrun' as <-.
  exists self. split; [exact Hok|]. split; [exact Hc|]. split.
  - unfold get_current_animation_speed. rewrite Hc, Hs.
    destruct (dict_get "idle" (a_animation_speeds a)) as [s|] eqn:Hget; [|reflexivity].
    apply (Hinit "idle" s Hget).
  - intros name Hmem. rewrite Hf in Hmem. rewrite Hs.
    specialize (Hcover name Hmem). unfold dict_mem in Hcover.
    destruct (dict_get name (a_animation_speeds a)) as [s|] eqn:Hget; [|discriminate].
    now rewrite (Hinit name s Hget).
Qed.

(** X2: with [scale == 1.0] and no animation named twice, a directory that
    exists, can be listed and holds at least one file that decodes is loaded
    under its name as exactly the frames of its decodable files, in sorted
    order, each with its mirror image; for [idle], the first of them is the
    image of the new sprite. *)
Theorem init_loads_decodable_frames (fs : FileSystem) (pos : Z * Z)
    (animation_paths : list (string * string)) (speed0 scale0 : F)
    (animation_name path : string) (names : list string) :
  f_eqb scale0 (f_of_Z 1) = true ->
  List.NoDup (map fst animation_paths) ->
  In (animation_name, path) animation_paths ->
  path_exists fs path = true ->
  os_listdir fs path = inr names ->
  decoded_frames fs path (frame_files fs path names) <> [] ->
  exists self,
    fst (init fs pos animation_paths speed0 scale0) = Ok self
    /\ dict_get animation_name (animation_frames self)
       = Some (decoded_frames fs path (frame_files fs path names))
    /\ (animation_name = "idle" ->
        exists fr rest,
          decoded_frames fs path (frame_files fs path names) = fr :: rest
          /\ image self = original fr).
Proof.
  intros Hscale Hnodup Hin Hex Hlist Hne.
  destruct (init_result fs pos animation_paths speed0 scale0)
    as (a & self & Hrun & Hok & Hf & _ & _ & _ & Himg).
  exists self. split; [exact Hok|].
  assert (Hget : dict_get animation_name (a_animation_frames a)
                 = Some (decoded_frames fs path (frame_files fs path names))).
  { rewrite load_animations_unfold in Hrun.
    destruct (load_loop_exact fs animation_name path names animation_paths
                Hnodup Hin Hex Hlist Hne (new_attrs scale0) Hscale)
      as (a1 & Hloop & Hg & Hs1 & Hsp1).
    rewrite Hloop in Hrun. cbv zeta in Hrun.
    destruct (a_animation_frames a1) as [|kv table] eqn:Htable; [discriminate|].
    cbn [is_empty] in Hrun.
    assert (Hi1 : speeds_initial a1).
    { pose proof (builtin_speeds_initial scale0) as Hb.
      unfold speeds_initial in *. rewrite Hsp1. exact Hb. }
    destruct (default_speeds_spec (dict_keys (a_animation_frames a1)) a1 Hi1)
      as (a' & Hrun' & _ & Hf' & _).
    rewrite Hrun' in Hrun. injection Hrun as <-.
    rewrite Hf', Htable. exact Hg. }
  split; [now rewrite Hf|].
  intros ->. rewrite Hget in Himg.
  destruct (decoded_frames fs path (frame_files fs path names)) as [|fr rest];
    [congruence|].
  now exists fr, rest.
Qed.

Lemma well_formed_init (fs : FileSystem) (pos : Z * Z)
    (animation_paths : list (string * string)) (speed0 scale0 : F) (self : Player F) :
  fst (init fs pos animation_paths speed0 scale0) = Ok self -> well_formed self.
Proof.
  intros Hinit.
  pose proof (init_index_valid fs pos animation_paths speed0 scale0 self Hinit) as Hidx.
  destruct (load_animations_result fs animation_paths scale0)
    as (a & Hrun & Hne & Hall & _ & Hcover & _).
  destruct (init_result fs pos animation_paths speed0 scale0)
    as (a' & self' & Hrun' & Hok & Hf & Hs & Hc & _).
  rewrite Hrun in Hrun'. injection Hrun' as <-.
  rewrite Hok in Hinit. injection Hinit as <-.
  unfold well_formed. rewrite Hf, Hs, Hc. auto.
Qed.

End Construction.

(** ** The methods keep the player well formed *)
Section Methods.
Context {F : Type} `{PyFloat F} `{Vector2 F}.
Implicit Types (self : Player F).

(** [well_formed] looks at the table, the speeds, the current animation and
    the frame index only. *)
Lemma well_formed_ext self self' :
  animation_frames self' = animation_frames self ->
  animation_speeds self' = animation_speeds self ->
  current_animation self' = current_animation self ->
  frame_index self' = frame_index self ->
  well_formed self -> well_formed self'.
Proof. unfold well_formed, index_valid. intros -> -> -> ->. auto. Qed.

Lemma py_getitem_head {A} (x : A) (l : list A) : py_getitem (x :: l) 0 = Ok x.
Proof. reflexivity. Qed.

(** [set_animation] either leaves the player alone or starts the named
    animation at its first frame. *)
Lemma set_animation_cases self animation_name :
  frames_nonempty (animation_frames self) ->
  (set_animation self animation_name = Ok self
   /\ (dict_get animation_name (animation_frames self) = None
       \/ current_animation self = animation_name))
  \/ (exists fr frames,
        dict_get animation_name (animation_frames self) = Some (fr :: frames)
        /\ current_animation self <> animation_name
        /\ set_animation self animation_name
           = Ok (set_frame (f_of_Z 0) 0 (facing self fr)
                   {| speed := speed self; scale := scale self;
                      animation_frames := animation_frames self;
                      animation_speeds := animation_speeds self;
                      current_animation := animation_name;
                      frame_index := frame_index self;
                      animation_timer := animation_timer self;
                      direction := direction self;
                      facing_right := facing_right self;
                      image := image self; rect := rect self;
                      debug := debug self |})).
Proof.
  intros Hall. unfold set_animation.
  destruct (dict_get animation_name (animation_frames self)) as [frames|] eqn:Hget;
    [|left; auto].
  destruct (String.eqb (current_animation self) animation_name) eqn:E; cbn [negb].
  - left. apply String.eqb_eq in E. auto.
  - right. apply String.eqb_neq in E.
    pose proof (frames_nonempty_get _ _ _ Hall Hget) as Hne.
    destruct frames as [|fr frames]; [congruence|].
    exists fr, frames. rewrite py_getitem_head. auto.
Qed.

Lemma well_formed_set_animation self self' animation_name :
  well_formed self -> set_animation self animation_name = Ok self' -> well_formed self'.
Proof.
  intros Hwf Hset.
  pose proof Hwf as (Hne & Hall & Hidx & Hcov & Hcur).
  pose proof (set_animation_index_valid self self' animation_name Hidx Hset) as Hidx'.
  destruct (set_animation_cases self animation_name Hall)
    as [[Hsame _]|(fr & frames & Hget & _ & Hnew)].
  - rewrite Hsame in Hset. now injection Hset as <-.
  - rewrite Hnew in Hset. injection Hset as <-.
    split; [exact Hne|]. split; [exact Hall|]. split; [exact Hidx'|].
    split; [exact Hcov|]. cbn. rewrite Hget. discriminate.
Qed.

Lemma set_animation_ok self animation_name :
  well_formed self -> exists self', set_animation self animation_name = Ok self'.
Proof.
  intros (_ & Hall & _).
  destruct (set_animation_cases self animation_name Hall)
    as [[Hsame _]|(fr & frames & _ & _ & Hnew)]; eauto.
Qed.

(** [animate] changes the timer, the frame index and the image, nothing
    else. *)
Lemma animate_frame (fuel : nat) self (dt : F) self' :
  animate fuel self dt = Some (Ok self') ->
  self' = self \/ exists timer index img, self' = set_frame timer index img self.
Proof.
  unfold animate.
  destruct (dict_get (current_animation self) (animation_frames self)) as [frames|].
  - destruct (f_leb _ _).
    + destruct (animate_loop _ _ _ _ _) as [[[t i]|e]|]; try discriminate.
      destruct (py_getitem frames i); [|discriminate].
      intros [= <-]. eauto.
    + intros [= <-]. eauto.
  - intros [= <-]. auto.
Qed.

Lemma well_formed_animate (fuel : nat) self (dt : F) self' :
  well_formed self -> animate fuel self dt = Some (Ok self') -> well_formed self'.
Proof.
  intros Hwf Hanim.
  pose proof Hwf as (Hne & Hall & Hidx & Hcov & Hcur).
  pose proof (animate_index_valid fuel self self' dt Hidx Hanim) as Hidx'.
  destruct (animate_frame fuel self dt self' Hanim) as [->|(t & i & img & ->)];
    [exact Hwf|].
  split; [exact Hne|]. split; [exact Hall|]. split; [exact Hidx'|].
  split; [exact Hcov|exact Hcur].
Qed.

Lemma animate_loop_no_raise (fuel : nat) (current_speed : F) (frames_count : Z) :
  frames_count <> 0 ->
  forall timer index e,
    animate_loop fuel current_speed frames_count timer index <> Some (Raise e).
Proof.
  intros Hcount. apply Z.eqb_neq in Hcount.
  induction fuel as [|fuel IH]; intros timer index e; cbn [animate_loop].
  - destruct (f_leb current_speed timer); discriminate.
  - destruct (f_leb current_speed timer); [|discriminate].
    rewrite Hcount. apply IH.
Qed.

(** On a well-formed player [animate] raises nothing. *)
Lemma animate_no_raise (fuel : nat) self (dt : F) (e : exn) :
  well_formed self -> animate fuel self dt <> Some (Raise e).
Proof.
  intros (_ & Hall & Hidx & _). unfold animate. unfold index_valid in Hidx.
  destruct (dict_get (current_animation self) (animation_frames self))
    as [frames|] eqn:Hget; [|discriminate].
  pose proof (frames_nonempty_get _ _ _ Hall Hget) as Hne.
  assert (Hcount : Z.of_nat (length frames) <> 0).
  { destruct frames; [congruence|]. cbn. lia. }
  destruct (f_leb _ _); [|discriminate].
  destruct (animate_loop _ _ _ _ _) as [[[t i]|e']|] eqn:Hloop; [| |discriminate].
  - pose proof (animate_loop_index _ _ _ _ _ _ _ Hloop Hidx) as Hi.
    destruct (py_getitem_in_range frames i Hi) as [fr ->]. discriminate.
  - now apply animate_loop_no_raise in Hloop.
Qed.

(** [move], step by step: the direction is stored, the animation follows
    the movement, the sprite turns, and the image is refreshed when the
    direction has changed. *)
Lemma move_steps self (d : F * F) :
  well_formed self ->
  exists self1 self2,
    set_animation (set_direction d self)
      (if is_moving (set_direction d self) then "walking" else "idle") = Ok self1
    /\ well_formed self1
    /\ direction self1 = d
    /\ (self2 = self1 \/ exists b, self2 = set_facing_right b self1)
    /\ well_formed self2
    /\ move self d
       = if vec_ne (direction self) d then
           match dict_get (current_animation self2) (animation_frames self2) with
           | None => KeyError (current_animation self2) self2
           | Some frames =>
               match py_getitem frames (frame_index self2) with
               | Ok fr => Done (set_image (facing self2 fr) self2)
               | Raise e => Failed e
               end
           end
         else Done self2.
Proof.
  intros Hwf.
  assert (Hwf0 : well_formed (set_direction d self)).
  { revert Hwf. now apply well_formed_ext. }
  assert (Hstep : forall target, exists self1,
            set_animation (set_direction d self) target = Ok self1
            /\ well_formed self1 /\ direction self1 = d).
  { intros target.
    destruct (set_animation_ok _ target Hwf0) as [self1 Hset].
    exists self1. split; [exact Hset|].
    split; [exact (well_formed_set_animation _ _ _ Hwf0 Hset)|].
    destruct Hwf0 as (_ & Hall & _).
    destruct (set_animation_cases (set_direction d self) target Hall)
      as [[Hsame _]|(fr & frames & _ & _ & Hnew)].
    - rewrite Hsame in Hset. now injection Hset as <-.
    - rewrite Hnew in Hset. now injection Hset as <-. }
  unfold move.
  destruct (is_moving (set_direction d self)) eqn:Hmov.
  - destruct (Hstep "walking") as (self1 & Hset & Hwf1 & Hdir).
    rewrite Hset.
    match goal with |- context [if vec_ne _ (direction ?p) then _ else _] =>
      set (self2 := p) end.
    assert (H2 : self2 = self1 \/ exists b, self2 = set_facing_right b self1).
    { subst self2. destruct (f_ltb (f_of_Z 0) (fst (direction self1))); [eauto|].
      destruct (f_ltb (fst (direction self1)) (f_of_Z 0)); eauto. }
    assert (Hwf2 : well_formed self2).
    { destruct H2 as [->|[b ->]]; [exact Hwf1|]. revert Hwf1. now apply well_formed_ext. }
    assert (Hdir2 : direction self2 = d).
    { destruct H2 as [->|[b ->]]; exact Hdir. }
    exists self1, self2. rewrite Hdir2. auto 10.
  - destruct (Hstep "idle") as (self1 & Hset & Hwf1 & Hdir).
    rewrite Hset. exists self1, self1. rewrite Hdir. auto 10.
Qed.

Lemma well_formed_move self (d : F * F) self' :
  well_formed self ->
  (move self d = Done self' \/ exists key, move self d = KeyError key self') ->
  well_formed self'.
Proof.
  intros Hwf Hmove.
  destruct (move_steps self d Hwf) as (self1 & self2 & _ & _ & _ & _ & Hwf2 & Heq).
  rewrite Heq in Hmove. clear Heq.
  destruct (vec_ne (direction self) d).
  - destruct (dict_get (current_animation self2) (animation_frames self2)) as [frames|].
    + destruct (py_getitem frames (frame_index self2)) as [fr|e].
      * destruct Hmove as [[= <-]|[key [=]]]. revert Hwf2. now apply well_formed_ext.
      * destruct Hmove as [[=]|[key [=]]].
    + destruct Hmove as [[=]|[key [= _ <-]]]. exact Hwf2.
  - destruct Hmove as [[= <-]|[key [=]]]. exact Hwf2.
Qed.

Lemma well_formed_update (fuel : nat) self (dt : F) self' :
  well_formed self -> update fuel self dt = Some (Ok self') -> well_formed self'.
Proof.
  intros Hwf. unfold update.
  destruct (animate fuel self _) as [[self1|e]|] eqn:Hanim; try discriminate.
  pose proof (well_formed_animate _ _ _ _ Hwf Hanim) as Hwf1.
  destruct (is_moving self1); [|now intros [= <-]].
  destruct (vec_normalize (direction self1)) as [n|e]; [|discriminate].
  destruct (rect_add _ _) as [x|e]; [|discriminate].
  destruct (rect_add _ _) as [y|e]; [|discriminate].
  intros [= <-]. revert Hwf1. now apply well_formed_ext.
Qed.

Lemma well_formed_set_animation_speed self (animation_name : string) (v : F) :
  well_formed self -> well_formed (set_animation_speed self animation_name v).
Proof.
  intros (Hne & Hall & Hidx & Hcov & Hcur).
  split; [exact Hne|]. split; [exact Hall|]. split; [exact Hidx|].
  split; [|exact Hcur].
  intros name Hmem. cbn. apply dict_mem_set. now apply Hcov.
Qed.

Lemma well_formed_set_all_animation_speeds (speed_dict : list (string * F)) :
  forall self, well_formed self -> well_formed (set_all_animation_speeds self speed_dict).
Proof.
  unfold set_all_animation_speeds.
  induction speed_dict as [|[k v] rest IH]; intros self Hwf; [exact Hwf|].
  cbn [fold_left]. apply IH. now apply well_formed_set_animation_speed.
Qed.

(** X3: every player a program can hold (made by [__init__], then used
    through [animate], [update], [set_animation], [attack], [move], also
    when [move] raised, [set_animation_speed] and
    [set_all_animation_speeds], in any order) is well formed: its table is
    not empty and holds no empty frame list, [frame_index] is a valid index
    into the current animation, every animation of the table has a speed,
    and the current animation is in the table or is still [idle]. *)
Theorem reachable_well_formed self : reachable self -> well_formed self.
Proof.
  induction 1 as [fs pos paths sp sc self Hinit
                 | fuel self dt self' _ IH Hstep
                 | fuel self dt self' _ IH Hstep
                 | self name self' _ IH Hstep
                 | self self' _ IH Hstep
                 | self d self' _ IH Hstep
                 | self d key self' _ IH Hstep
                 | self name v _ IH
                 | self speed_dict _ IH].
  - eapply well_formed_init, Hinit.
  - eapply well_formed_animate; eauto.
  - eapply well_formed_update; eauto.
  - eapply well_formed_set_animation; eauto.
  - eapply well_formed_set_animation; eauto.
  - eapply well_formed_move; eauto.
  - eapply well_formed_move; eauto.
  - now apply well_formed_set_animation_speed.
  - now apply well_formed_set_all_animation_speeds.
Qed.

Lemma set_animation_current self self' animation_name :
  set_animation self animation_name = Ok self' ->
  animation_frames self' = animation_frames self
  /\ direction self' = direction self
  /\ facing_right self' = facing_right self
  /\ (dict_get animation_name (animation_frames self) = None
         /\ current_animation self' = current_animation self
      \/ dict_get animation_name (animation_frames self) <> None
         /\ current_animation self' = animation_name).
Proof.
  unfold set_animation.
  destruct (dict_get animation_name (animation_frames self)) as [frames|] eqn:Hget.
  - destruct (String.eqb (current_animation self) animation_name) eqn:E; cbn [negb].
    + apply String.eqb_eq in E. intros [= <-].
      repeat (split; [reflexivity|]). right. split; [discriminate|exact E].
    + destruct (py_getitem frames 0); [|discriminate].
      intros [= <-]. cbn.
      repeat (split; [reflexivity|]). right. split; [discriminate|reflexivity].
  - intros [= <-]. auto 10.
Qed.

Lemma set_animation_noop self animation_name :
  dict_get animation_name (animation_frames self) = None
  \/ current_animation self = animation_name ->
  set_animation self animation_name = Ok self.
Proof.
  unfold set_animation. intros [Hnone|Hcur].
  - now rewrite Hnone.
  - destruct (dict_get animation_name (animation_frames self)); [|reflexivity].
    rewrite Hcur, String.eqb_refl. reflexivity.
Qed.

(** X4: on a well-formed player no method raises an [IndexError] or a
    [ZeroDivisionError]: [set_animation] and [attack] return, [animate]
    raises nothing, [move] raises nothing but a [KeyError], and [update]
    can raise only while the sprite is moving (from the vector or from the
    rectangle). *)
Theorem methods_do_not_raise self :
  well_formed self ->
  (forall animation_name, exists self', set_animation self animation_name = Ok self')
  /\ (exists self', attack self = Ok self')
  /\ (forall (fuel : nat) (dt : F) (e : exn), animate fuel self dt <> Some (Raise e))
  /\ (forall (d : F * F) (e : exn), move self d <> Failed e)
  /\ (forall (fuel : nat) (dt : F) (e : exn),
        update fuel self dt = Some (Raise e) -> is_moving self = true).
Proof.
  intros Hwf.
  split; [intros name; now apply set_animation_ok|].
  split; [now apply set_animation_ok|].
  split; [intros fuel dt e; now apply animate_no_raise|].
  split.
  - intros d e.
    destruct (move_steps self d Hwf) as (self1 & self2 & _ & _ & _ & _ & Hwf2 & ->).
    destruct (vec_ne (direction self) d); [|discriminate].
    pose proof Hwf2 as (_ & _ & Hidx & _). unfold index_valid in Hidx.
    destruct (dict_get (current_animation self2) (animation_frames self2))
      as [frames|]; [|discriminate].
    destruct (py_getitem_in_range frames _ Hidx) as [fr ->]. discriminate.
  - intros fuel dt e. unfold update.
    destruct (animate fuel self _) as [[self1|e']|] eqn:Hanim; [| |discriminate].
    + assert (Hdir : direction self1 = direction self).
      { destruct (animate_frame _ _ _ _ Hanim) as [->|(t & i & img & ->)]; reflexivity. }
      unfold is_moving. rewrite Hdir.
      destruct (f_ltb (f_of_Z 0) (vec_length (direction self))); [auto|discriminate].
    + now apply animate_no_raise in Hanim.
Qed.

(** X5: when [move] raises.  On a well-formed player, [move(d)] raises
    exactly when the direction changes while neither the current animation
    nor the one the movement asks for ([walking] when [d] has a positive
    length, [idle] otherwise) is in the table; the exception is
    [KeyError('idle')].  In every other case it returns, with [d] stored. *)
Theorem move_raises_only_without_idle self (d : F * F) :
  well_formed self ->
  if vec_ne (direction self) d
     && negb (dict_mem (current_animation self) (animation_frames self))
     && negb (f_ltb (f_of_Z 0) (vec_length d)
              && dict_mem "walking" (animation_frames self))
  then exists self', move self d = KeyError "idle" self' /\ direction self' = d
  else exists self', move self d = Done self' /\ direction self' = d.
Proof.
  intros Hwf.
  destruct (move_steps self d Hwf)
    as (self1 & self2 & Hset & Hwf1 & Hdir & H2 & Hwf2 & ->).
  destruct (set_animation_current _ _ _ Hset) as (Hf1 & _ & _ & Hcur1).
  assert (Hsame : animation_frames self2 = animation_frames self
                  /\ current_animation self2 = current_animation self1
                  /\ direction self2 = d).
  { destruct H2 as [->|[b ->]]; cbn; auto. }
  destruct Hsame as (Hf2 & Hc2 & Hd2).
  change (is_moving (set_direction d self)) with (f_ltb (f_of_Z 0) (vec_length d)) in *.
  change (animation_frames (set_direction d self)) with (animation_frames self) in *.
  change (current_animation (set_direction d self)) with (current_animation self) in *.
  destruct (vec_ne (direction self) d); cbn [andb]; [|eauto].
  pose proof Hwf as (_ & _ & _ & _ & Hidle).
  pose proof Hwf2 as (_ & _ & Hidx2 & _ & Hidle2). unfold index_valid in Hidx2.
  rewrite Hf2, Hc2 in *. unfold dict_mem.
  destruct (dict_get (current_animation self1) (animation_frames self)) as [frames|]
    eqn:Hget1.
  - destruct (py_getitem_in_range frames _ Hidx2) as [fr ->].
    assert (Hfalse : negb match dict_get (current_animation self) (animation_frames self) with
                          | Some _ => true | None => false end
                     && negb (f_ltb (f_of_Z 0) (vec_length d)
                              && match dict_get "walking" (animation_frames self) with
                                 | Some _ => true | None => false end) = false).
    { destruct Hcur1 as [[Hnone Hc]|[Hsome Hc]].
      - rewrite <- Hc, Hget1. reflexivity.
      - rewrite Hc in Hget1.
        destruct (f_ltb (f_of_Z 0) (vec_length d)).
        + rewrite Hget1. cbn. now rewrite andb_false_r.
        + destruct (dict_get (current_animation self) (animation_frames self)) eqn:Hg;
            [reflexivity|].
          rewrite (Hidle eq_refl) in Hg. congruence. }
    rewrite Hfalse. eexists. split; [reflexivity|exact Hd2].
  - specialize (Hidle2 eq_refl).
    assert (Htrue : negb match dict_get (current_animation self) (animation_frames self) with
                         | Some _ => true | None => false end
                    && negb (f_ltb (f_of_Z 0) (vec_length d)
                             && match dict_get "walking" (animation_frames self) with
                                | Some _ => true | None => false end) = true).
    { destruct Hcur1 as [[Hnone Hc]|[Hsome Hc]].
      - rewrite <- Hc, Hget1. cbn.
        destruct (f_ltb (f_of_Z 0) (vec_length d)); [|reflexivity].
        now rewrite Hnone.
      - rewrite Hc in Hget1. congruence. }
    rewrite Htrue, Hidle2. eexists. split; [reflexivity|exact Hd2].
Qed.

Lemma set_direction_same self (d : F * F) :
  direction self = d -> set_direction d self = self.
Proof. destruct self. cbn. now intros ->. Qed.

Lemma set_facing_right_same self (b : bool) :
  facing_right self = b -> set_facing_right b self = self.
Proof. destruct self. cbn. now intros ->. Qed.

(** X6: [move] is idempotent.  After [move(d)] has returned, a second
    [move(d)] with a direction that equals itself changes nothing: the
    animation is not restarted, and frame, timer, image and facing stay. *)
Theorem move_idempotent self (d : F * F) self' :
  vec_ne d d = false -> move self d = Done self' -> move self' d = Done self'.
Proof.
  intros Hrefl Hmove.
  assert (Hshape : exists self1 self2,
    set_animation (set_direction d self)
      (if f_ltb (f_of_Z 0) (vec_length d) then "walking" else "idle") = Ok self1
    /\ self2 = (if f_ltb (f_of_Z 0) (vec_length d) then
                  if f_ltb (f_of_Z 0) (fst d) then set_facing_right true self1
                  else if f_ltb (fst d) (f_of_Z 0) then set_facing_right false self1
                  else self1
                else self1)
    /\ (self' = self2 \/ exists img, self' = set_image img self2)).
  { unfold move in Hmove.
    change (is_moving (set_direction d self))
      with (f_ltb (f_of_Z 0) (vec_length d)) in Hmove.
    destruct (f_ltb (f_of_Z 0) (vec_length d)).
    - destruct (set_animation (set_direction d self) "walking") as [self1|e] eqn:Hset;
        [|discriminate].
      destruct (set_animation_current _ _ _ Hset) as (_ & Hdir & _).
      cbn in Hdir. rewrite Hdir in Hmove.
      exists self1, (if f_ltb (f_of_Z 0) (fst d) then set_facing_right true self1
                     else if f_ltb (fst d) (f_of_Z 0) then set_facing_right false self1
                     else self1).
      split; [reflexivity|]. split; [reflexivity|].
      match type of Hmove with context [if vec_ne ?a ?b then _ else _] =>
        destruct (vec_ne a b) end.
      + match type of Hmove with context [dict_get ?k ?t] =>
          destruct (dict_get k t) as [frames|] end; [|discriminate].
        match type of Hmove with context [py_getitem ?l ?i] =>
          destruct (py_getitem l i) end; [|discriminate].
        injection Hmove as <-. eauto.
      + injection Hmove as <-. auto.
    - destruct (set_animation (set_direction d self) "idle") as [self1|e] eqn:Hset;
        [|discriminate].
      exists self1, self1. split; [reflexivity|]. split; [reflexivity|].
      match type of Hmove with context [if vec_ne ?a ?b then _ else _] =>
        destruct (vec_ne a b) end.
      + match type of Hmove with context [dict_get ?k ?t] =>
          destruct (dict_get k t) as [frames|] end; [|discriminate].
        match type of Hmove with context [py_getitem ?l ?i] =>
          destruct (py_getitem l i) end; [|discriminate].
        injection Hmove as <-. eauto.
      + injection Hmove as <-. auto. }
  destruct Hshape as (self1 & self2 & Hset & H2 & H').
  destruct (set_animation_current _ _ _ Hset) as (Hf1 & Hdir1 & _ & Hcur1).
  cbn in Hf1, Hdir1.
  set (target := if f_ltb (f_of_Z 0) (vec_length d) then "walking" else "idle") in *.
  assert (Hprops : direction self' = d
            /\ (dict_get target (animation_frames self') = None
                \/ current_animation self' = target)
            /\ (f_ltb (f_of_Z 0) (vec_length d) = true ->
                (f_ltb (f_of_Z 0) (fst d) = true -> facing_right self' = true)
                /\ (f_ltb (f_of_Z 0) (fst d) = false ->
                    f_ltb (fst d) (f_of_Z 0) = true -> facing_right self' = false))).
  { assert (H2' : direction self2 = d
              /\ animation_frames self2 = animation_frames self1
              /\ current_animation self2 = current_animation self1
              /\ (f_ltb (f_of_Z 0) (vec_length d) = true ->
                  (f_ltb (f_of_Z 0) (fst d) = true -> facing_right self2 = true)
                  /\ (f_ltb (f_of_Z 0) (fst d) = false ->
                      f_ltb (fst d) (f_of_Z 0) = true -> facing_right self2 = false))).
    { subst self2. destruct (f_ltb (f_of_Z 0) (vec_length d)).
      - destruct (f_ltb (f_of_Z 0) (fst d)); cbn; [intuition congruence|].
        destruct (f_ltb (fst d) (f_of_Z 0)); cbn; intuition congruence.
      - intuition congruence. }
    destruct H2' as (Hd2 & Hf2 & Hc2 & Hface).
    assert (Hkeep : direction self' = direction self2
              /\ animation_frames self' = animation_frames self2
              /\ current_animation self' = current_animation self2
              /\ facing_right self' = facing_right self2).
    { destruct H' as [->|[img ->]]; cbn; auto. }
    destruct Hkeep as (-> & -> & -> & ->).
    rewrite Hf2, Hc2, Hf1. split; [exact Hd2|]. split; [|exact Hface].
    destruct Hcur1 as [[Hnone _]|[_ Hc]]; auto. }
  destruct Hprops as (Hd & Htarget & Hface).
  unfold move. rewrite (set_direction_same self' d Hd).
  unfold is_moving. rewrite Hd. fold target.
  destruct (f_ltb (f_of_Z 0) (vec_length d)) eqn:Hmov.
  - rewrite (set_animation_noop self' "walking" Htarget). rewrite Hd.
    destruct (Hface eq_refl) as [Hr Hl].
    destruct (f_ltb (f_of_Z 0) (fst d)).
    + rewrite (set_facing_right_same self' true (Hr eq_refl)). rewrite Hd, Hrefl.
      reflexivity.
    + destruct (f_ltb (fst d) (f_of_Z 0)).
      * rewrite (set_facing_right_same self' false (Hl eq_refl eq_refl)).
        rewrite Hd, Hrefl. reflexivity.
      * rewrite Hd, Hrefl. reflexivity.
  - rewrite (set_animation_noop self' "idle" Htarget). rewrite Hd, Hrefl. reflexivity.
Qed.

Lemma dict_get_not_in {V : Type} (d : list (string * V)) (k : string) :
  ~ In k (map fst d) -> dict_get k d = None.
Proof.
  induction d as [|[k' v'] d IH]; cbn; [reflexivity|].
  intros Hnot. destruct (String.eqb k k') eqn:E.
  - apply String.eqb_eq in E. subst k'. tauto.
  - apply IH. tauto.
Qed.

(** X7: [set_all_animation_speeds(speed_dict)] stores every speed of the
    dictionary and keeps the others: afterwards the speed under a name is
    the one the dictionary gives, and otherwise the one the player had.  The
    table, the current animation and the frame index are untouched. *)
Theorem set_all_animation_speeds_lookup (speed_dict : list (string * F)) :
  List.NoDup (map fst speed_dict) ->
  forall self,
    let self' := set_all_animation_speeds self speed_dict in
    (forall name,
       dict_get name (animation_speeds self')
       = match dict_get name speed_dict with
         | Some v => Some v
         | None => dict_get name (animation_speeds self)
         end)
    /\ animation_frames self' = animation_frames self
    /\ current_animation self' = current_animation self
    /\ frame_index self' = frame_index self
    /\ animation_timer self' = animation_timer self.
Proof.
  unfold set_all_animation_speeds.
  induction speed_dict as [|[k v] rest IH]; intros Hnodup self; cbn [fold_left].
  - cbn. auto.
  - cbn in Hnodup. apply List.NoDup_cons_iff in Hnodup as [Hfresh Hnodup].
    destruct (IH Hnodup (set_animation_speed self k v)) as (Hget & Hf & Hc & Hi & Ht).
    cbv zeta. split; [|cbn in Hf, Hc, Hi, Ht; auto].
    intros name. rewrite Hget. cbn [dict_get fst snd animation_speeds set_animation_speed].
    destruct (String.eqb name k) eqn:E.
    + apply String.eqb_eq in E. subst name.
      rewrite (dict_get_not_in rest k Hfresh). apply dict_get_set_eq.
    + apply String.eqb_neq in E.
      destruct (dict_get name rest); [reflexivity|].
      now apply dict_get_set_ne.
Qed.

End Methods.

(** ** [animate] with a speed that is not positive *)
Section ExactMotion.
Implicit Types (self : Player Q).

Lemma animate_loop_stuck (s : Q) (c : Z) :
  (s <= 0)%Q -> c <> 0 ->
  forall (fuel : nat) (t : Q) (i : Z),
    (s <= t)%Q -> animate_loop fuel s c t i = None.
Proof.
  intros Hs Hc. apply Z.eqb_neq in Hc.
  induction fuel as [|fuel IH]; intros t i Ht; cbn [animate_loop f_leb f_sub exact];
    rewrite (proj2 (Qle_bool_iff s t) Ht); [reflexivity|].
  rewrite Hc. apply IH. lra.
Qed.

(** X10: a speed that is not positive stops the player for good.  With the
    current animation in the table and a speed of zero or less (as
    [set_animation_speed] accepts), [animate(dt)] never returns once the
    timer has reached the speed: the loop takes nothing off the timer. *)
Theorem animate_never_returns_without_positive_speed self (dt : Q)
    (frames : list Frame) :
  dict_get (current_animation self) (animation_frames self) = Some frames ->
  frames <> [] ->
  (get_current_animation_speed self <= 0)%Q ->
  (get_current_animation_speed self <= animation_timer self + dt)%Q ->
  forall fuel, animate fuel self dt = None.
Proof.
  intros Hget Hne Hspeed Htimer fuel. unfold animate. rewrite Hget.
  cbn [f_leb f_add exact]. rewrite (proj2 (Qle_bool_iff _ _) Htimer).
  rewrite animate_loop_stuck; auto.
  destruct frames; [congruence|]. cbn. lia.
Qed.

End ExactMotion.

(** ** [update] and the rectangle *)
Section Update.
Context {F : Type} `{PyFloat F} `{Vector2 F}.
Implicit Types (self : Player F).

(** What [update(dt)] does after [animate]: a sprite that does not move
    keeps its rectangle, a moving one has both coordinates stored anew. *)
Lemma update_cases (fuel : nat) self (dt : F) self' :
  update fuel self dt = Some (Ok self') ->
  direction self' = direction self /\ speed self' = speed self
  /\ (is_moving self = false /\ rect self' = rect self
      \/ exists n x y,
           is_moving self = true
           /\ vec_normalize (direction self) = Ok n
           /\ rect_add (rect_x (rect self))
                (f_mul (f_mul (fst n) (speed self)) (py_max dt (f_lit 1 1000))) = Ok x
           /\ rect_add (rect_y (rect self))
                (f_mul (f_mul (snd n) (speed self)) (py_max dt (f_lit 1 1000))) = Ok y
           /\ rect self' = {| rect_x := x; rect_y := y;
                              rect_w := rect_w (rect self);
                              rect_h := rect_h (rect self) |}).
Proof.
  unfold update.
  destruct (animate fuel self (py_max dt (f_lit 1 1000))) as [[self0|e]|] eqn:Hanim;
    try discriminate.
  assert (Hkeep : direction self0 = direction self /\ speed self0 = speed self
                  /\ rect self0 = rect self).
  { destruct (animate_frame _ _ _ _ Hanim) as [->|(t & i & img & ->)]; auto. }
  destruct Hkeep as (Hdir & Hsp & Hrect).
  unfold is_moving. rewrite Hdir, Hsp, Hrect.
  destruct (f_ltb _ _) eqn:Hmov.
  - destruct (vec_normalize (direction self)) as [n|e]; [|discriminate].
    destruct (rect_add (rect_x _) _) as [x|e] eqn:Hx; [|discriminate].
    destruct (rect_add (rect_y _) _) as [y|e] eqn:Hy; [|discriminate].
    intros [= <-]. cbn [direction speed rect set_rect].
    split; [exact Hdir|]. split; [exact Hsp|].
    right. exists n, x, y. auto.
  - intros [= <-]. split; [exact Hdir|]. split; [exact Hsp|]. left. auto.
Qed.

(** X11: [update] keeps no fraction of a pixel.  The new rectangle is
    computed from the stored (whole) coordinates, the direction, the speed
    and [dt] alone, so a step that is too small to change the stored
    coordinates is lost: when [update(dt)] has left the rectangle where it
    was, [update(dt)] again leaves it there as well, in any arithmetic and
    however the animation has advanced in between. *)
Theorem update_keeps_no_fraction (fuel fuel' : nat) self (dt : F) self1 self2 :
  update fuel self dt = Some (Ok self1) ->
  rect self1 = rect self ->
  update fuel' self1 dt = Some (Ok self2) ->
  rect self2 = rect self1.
Proof.
  intros H1 Hsame H2.
  destruct (update_cases _ _ _ _ H1) as (Hdir & Hsp & Hfirst).
  destruct (update_cases _ _ _ _ H2) as (_ & _ & Hsecond).
  unfold is_moving in *. rewrite Hdir, Hsp, Hsame in Hsecond.
  destruct Hsecond as [[_ Hr]|(n2 & x2 & y2 & Hm2 & Hn2 & Hx2 & Hy2 & Hr2)];
    [rewrite Hr; symmetry; exact Hsame|].
  destruct Hfirst as [[Hm1 _]|(n1 & x1 & y1 & _ & Hn1 & Hx1 & Hy1 & Hr1)];
    [congruence|].
  rewrite Hn1 in Hn2. injection Hn2 as <-.
  rewrite Hx1 in Hx2. injection Hx2 as <-.
  rewrite Hy1 in Hy2. injection Hy2 as <-.
  rewrite Hr2, Hr1. reflexivity.
Qed.

End Update.

(** ** The facts above at concrete players *)

Lemma built_well_formed {F : Type} `{PyFloat F} (fs : FileSystem) (pos : Z * Z)
    (animation_paths : list (string * string)) :
  well_formed (built (F := F) fs pos animation_paths).
Proof.
  unfold built.
  destruct (init_result fs pos animation_paths (f_of_Z 5 : F) (f_of_Z 1))
    as (a & self & _ & Hok & _).
  rewrite Hok. eapply well_formed_init, Hok.
Qed.

(** X3 at the player made with no file at all. *)
Lemma reachable_well_formed_witness :
  well_formed (placeholder_player (F := float)).
Proof.
  apply (reachable_well_formed (placeholder_player (F := float))).
  apply (reach_init no_files (0, 0) [] (f_of_Z 5) (f_of_Z 1)).
  vm_compute. reflexivity.
Defined.

(** X4 at the player made with no file at all. *)
Lemma methods_do_not_raise_witness :
  (exists self', attack (built (F := float) no_files (0, 0) []) = Ok self')
  /\ forall (fuel : nat) (dt : float) (e : exn),
       animate fuel (built no_files (0, 0) []) dt <> Some (Raise e).
Proof.
  destruct (methods_do_not_raise (built (F := float) no_files (0, 0) [])
              (built_well_formed no_files (0, 0) []))
    as (_ & Hattack & Hanimate & _).
  split; [exact Hattack|exact Hanimate].
Defined.

(** X5 where only [attack] could be loaded: the first step to the right
    raises [KeyError('idle')]. *)
Lemma move_raises_only_without_idle_witness :
  exists self' : Player float,
    move (built only_attack (0, 0) idle_and_attack) (1%float, 0%float)
    = KeyError "idle" self'
    /\ direction self' = (1%float, 0%float).
Proof.
  pose proof (move_raises_only_without_idle
                (built (F := float) only_attack (0, 0) idle_and_attack)
                (1%float, 0%float)
                (built_well_formed only_attack (0, 0) idle_and_attack)) as Hmove.
  match type of Hmove with (if ?c then _ else _) =>
    assert (Hc : c = true) by (vm_compute; reflexivity); rewrite Hc in Hmove end.
  exact Hmove.
Defined.

(** X6 at the player made with no file at all, stepping to the right. *)
Lemma move_idempotent_witness :
  exists self' : Player float,
    move (placeholder_player (F := float)) (1%float, 0%float) = Done self'
    /\ move self' (1%float, 0%float) = Done self'.
Proof.
  eexists. split; [vm_compute; reflexivity|].
  apply (move_idempotent (placeholder_player (F := float)) (1%float, 0%float));
    vm_compute; reflexivity.
Defined.

(** X7 with two speeds, one of them for a new name. *)
Lemma set_all_animation_speeds_lookup_witness :
  let self' := set_all_animation_speeds (placeholder_player (F := Q))
                 [("idle", 1 # 5); ("run", 3 # 10)] in
  dict_get "idle" (animation_speeds self') = Some (1 # 5)
  /\ dict_get "run" (animation_speeds self') = Some (3 # 10)
  /\ dict_get "walking" (animation_speeds self') = Some (f_lit 8 100).
Proof.
  destruct (set_all_animation_speeds_lookup [("idle", 1 # 5); ("run", 3 # 10)])
    with (self := placeholder_player (F := Q)) as (Hget & _).
  - repeat constructor; cbn; intuition discriminate.
  - cbv zeta. rewrite !Hget. repeat split; reflexivity.
Defined.

(** X10 after [set_animation_speed('idle', 0)]. *)
Lemma animate_never_returns_without_positive_speed_witness :
  animate 1000 (set_animation_speed (placeholder_player (F := Q)) "idle" 0%Q) (1 # 60)
  = None.
Proof.
  apply (animate_never_returns_without_positive_speed
           (set_animation_speed (placeholder_player (F := Q)) "idle" 0%Q) (1 # 60)
           [placeholder_frame]).
  - reflexivity.
  - discriminate.
  - vm_compute. discriminate.
  - vm_compute. discriminate.
Defined.

(** X11 on Python's floats, at 60 frames a second and the default speed of
    5: the step is a twelfth of a pixel, and a sprite at (84, 84) that walks
    to the right stays where it is, turn after turn. *)
Lemma update_keeps_no_fraction_witness :
  exists self1 self2 : Player float,
    update 1 (set_direction (f_of_Z 1, f_of_Z 0) (built no_files (100, 100) []))
      (f_lit 1 60) = Some (Ok self1)
    /\ update 1 self1 (f_lit 1 60) = Some (Ok self2)
    /\ rect_x (rect (built (F := float) no_files (100, 100) [])) = 84
    /\ rect_x (rect self1) = 84
    /\ rect self2 = rect self1.
Proof.
  pose (p := set_direction (f_of_Z 1, f_of_Z 0)
               (built (F := float) no_files (100, 100) [])).
  destruct (update 1 p (f_lit 1 60)) as [[self1|e]|] eqn:H1;
    try (vm_compute in H1; discriminate H1).
  destruct (update 1 self1 (f_lit 1 60)) as [[self2|e]|] eqn:H2;
    try (vm_compute in H1; injection H1 as <-; vm_compute in H2; discriminate H2).
  exists self1, self2. split; [exact H1|]. split; [exact H2|].
  split; [reflexivity|].
  assert (Hx : rect_x (rect self1) = 84)
    by (vm_compute in H1; injection H1 as <-; reflexivity).
  split; [exact Hx|].
  apply (update_keeps_no_fraction 1 1 p (f_lit 1 60) self1 self2 H1); [|exact H2].
  vm_compute in H1. injection H1 as <-. reflexivity.
Defined.

(** X2 at a file system with one frame for [idle]. *)
Lemma init_loads_decodable_frames_witness :
  exists self : Player float,
    fst (init only_idle (0, 0) idle_and_walking (f_of_Z 5) (f_of_Z 1)) = Ok self
    /\ dict_get "idle" (animation_frames self)
       = Some [{| original := Image "assets/idle/0.png" 64 64;
                  flipped := Flipped (Image "assets/idle/0.png" 64 64) |}]
    /\ image self = Image "assets/idle/0.png" 64 64.
Proof.
  destruct (init_loads_decodable_frames only_idle (0, 0) idle_and_walking
              (f_of_Z 5 : float) (f_of_Z 1) "idle" "assets/idle" ["0.png"])
    as (self & Hok & Hget & Himg).
  - vm_compute. reflexivity.
  - repeat constructor; cbn; intuition discriminate.
  - left. reflexivity.
  - reflexivity.
  - reflexivity.
  - vm_compute. discriminate.
  - exists self. split; [exact Hok|]. split; [exact Hget|].
    destruct (Himg eq_refl) as (fr & rest & Hfr & Hi).
    vm_compute in Hfr. injection Hfr as <- <-. exact Hi.
Defined.

End MotionFacts.

(* ===================================================================== *)
(** * Facts about the button: resizing and the constructor *)
(* ===================================================================== *)

Module ButtonGeometry.
Import Py Py.Notations Pygame Button ButtonFacts Widget.

Section Resize.
Context {F : Type} `{PyFloat F}.

Ltac next_step :=
  match goal with
  | |- context [match ?x with _ => _ end] =>
      lazymatch x with
      | context [match _ with _ => _ end] => fail
      | _ => destruct x
      end
  end.

Lemma resize_same_source (b : Button) (scale_x scale_y : F) :
  same_source b (snd (resize scale_x scale_y b)).
Proof.
  destruct b as [tx ox oy ow oh rc hv ip im si hi shi bs u9].
  unfold same_source, resize, scale_image, scale_hover_image, bind, get, lift, modify, ret.
  cbn.
  repeat (next_step; cbn);
    repeat split; try reflexivity; intros; try discriminate; intuition discriminate.
Qed.

Lemma resize_from_same_source (b b' : Button) (scale_x scale_y : F) :
  same_source b b' ->
  fst (resize scale_x scale_y b) = Ok tt ->
  resize scale_x scale_y b' = resize scale_x scale_y b.
Proof.
  destruct b as [tx ox oy ow oh rc hv ip im si hi shi bs u9].
  destruct b' as [tx' ox' oy' ow' oh' rc' hv' ip' im' si' hi' shi' bs' u9'].
  unfold same_source. cbn.
  intros (-> & -> & -> & -> & -> & -> & -> & -> & -> & -> & -> & Hsi & Hshi).
  unfold resize, scale_image, scale_hover_image, bind, get, lift, modify, ret.
  cbn.
  destruct (rect_assign (f_mul (f_of_Z ox) scale_x)) as [x|e]; cbn; [|discriminate].
  destruct (rect_assign (f_mul (f_of_Z oy) scale_y)) as [y|e]; cbn; [|discriminate].
  destruct (rect_assign (f_mul (f_of_Z ow) scale_x)) as [w|e]; cbn; [|discriminate].
  destruct (rect_assign (f_mul (f_of_Z oh) scale_y)) as [h|e]; cbn; [|discriminate].
  destruct im as [img|]; cbn.
  2:{ intros _. rewrite Hsi, Hshi by auto. reflexivity. }
  unfold set_rect, set_scaled_image, set_scaled_hover_image, fits_9slice, scale_9slice.
  cbn.
  match goal with |- context [match (if ?c then ?a else ?b) with _ => _ end] =>
    destruct (if c then a else b) as [s|e] end; cbn; [|discriminate].
  destruct hi as [himg|]; cbn.
  2:{ intros _. rewrite Hshi by auto. reflexivity. }
  match goal with |- context [match (if ?c then ?a else ?b) with _ => _ end] =>
    destruct (if c then a else b) as [s'|e] end; cbn; [|discriminate].
  reflexivity.
Qed.

(** X12: [resize] is absolute.  The rectangle and the scaled images come
    from the geometry the button was made with, never from what an earlier
    [resize] left: whatever resize came before, also one that raised half
    way, a [resize] that returns gives the button it gives on the original,
    so repeated resizes of the window do not accumulate rounding. *)
Theorem resize_is_absolute (b : Button) (scale_x scale_y scale_x' scale_y' : F) :
  fst (resize scale_x scale_y b) = Ok tt ->
  resize scale_x scale_y (snd (resize scale_x' scale_y' b)) = resize scale_x scale_y b.
Proof.
  intros Hok. apply resize_from_same_source; [|exact Hok].
  apply resize_same_source.
Qed.

(** X13: a scaled size below the 9-slice border makes [resize] raise.  For
    a button with an image that is cut in nine (the border is not negative
    and fits twice into the image), when the new width or height is below
    twice the border, [resize] raises a [ValueError] from
    [pygame.transform.scale]; the rectangle has its new value by then, and
    the scaled images are the stale ones. *)
Theorem resize_raises_below_border (b : Button) (scale_x scale_y : F)
    (img : Surface) (x y width height : Z) :
  image b = Some img ->
  fits_9slice b img = true ->
  0 <= border_size b ->
  rect_assign (f_mul (f_of_Z (original_x b)) scale_x) = Ok x ->
  rect_assign (f_mul (f_of_Z (original_y b)) scale_y) = Ok y ->
  rect_assign (f_mul (f_of_Z (original_width b)) scale_x) = Ok width ->
  rect_assign (f_mul (f_of_Z (original_height b)) scale_y) = Ok height ->
  0 <= width -> 0 <= height ->
  width < 2 * border_size b \/ height < 2 * border_size b ->
  resize scale_x scale_y b
  = (Raise ValueError,
     set_rect {| rect_x := x; rect_y := y; rect_w := width; rect_h := height |} b).
Proof.
  destruct b as [tx ox oy ow oh rc hv ip im si hi shi bs u9]. cbn.
  intros -> Hfits Hbs Hx Hy Hw Hh Hw0 Hh0 Hsmall.
  unfold resize, scale_image, bind, get, lift, modify, ret. cbn.
  rewrite Hx, Hy, Hw, Hh. cbn.
  unfold set_rect, fits_9slice, scale_9slice in *. cbn in *. rewrite Hfits.
  apply andb_prop in Hfits as [Hfits Hgh]. apply andb_prop in Hfits as [_ Hgw].
  apply Z.leb_le in Hgw, Hgh.
  assert (Hborder : min3 bs (get_width img / 2) (get_height img / 2) = bs).
  { unfold min3.
    assert (bs <= get_width img / 2) by (apply Z.div_le_lower_bound; lia).
    assert (bs <= get_height img / 2) by (apply Z.div_le_lower_bound; lia).
    lia. }
  rewrite Hborder.
  destruct ((width <? 0) || (height <? 0)) eqn:Hneg.
  { apply orb_prop in Hneg as [Hn|Hn]; apply Z.ltb_lt in Hn; lia. }
  destruct (bs <? 0) eqn:Hbneg; [apply Z.ltb_lt in Hbneg; lia|].
  destruct ((width - 2 * bs <? 0) || (height - 2 * bs <? 0)) eqn:Hfit; [reflexivity|].
  apply orb_false_elim in Hfit as [Hn1 Hn2]. apply Z.ltb_ge in Hn1, Hn2. lia.
Qed.

End Resize.

Lemma min3_border (border w h : Z) :
  border * 2 <= w -> border * 2 <= h -> min3 border (w / 2) (h / 2) = border.
Proof.
  intros Hw Hh. unfold min3.
  assert (border <= w / 2) by (apply Z.div_le_lower_bound; lia).
  assert (border <= h / 2) by (apply Z.div_le_lower_bound; lia).
  lia.
Qed.

(** X14: what the constructor lets out.  [load_image] catches
    [pygame.error] only.  A file that is no image leaves a button without an
    image, with the geometry it was given; so does an image that is cut in
    nine with a negative border, whose [pygame.error] comes from
    [subsurface].  Any other exception of the decoder, such as the
    [FileNotFoundError] of a file that is not there, leaves the constructor;
    and an image that is cut in nine on a button narrower or lower than
    twice the border makes the constructor raise the [ValueError] of
    [pygame.transform.scale]. *)
Theorem init_catches_only_pygame_error (decode : string -> result Surface)
    (text0 path : string) (x y width height border_size0 : Z) (use_9slice0 : bool) :
  path <> "" ->
  let made := init decode text0 x y width height (Some path) border_size0 use_9slice0 in
  (forall msg, decode path = Raise (PygameError msg) ->
     fst made = Ok tt /\ image (snd made) = None
     /\ rect (snd made)
        = {| rect_x := x; rect_y := y; rect_w := width; rect_h := height |})
  /\ (forall e, decode path = Raise e -> is_pygame_error e = false ->
        fst made = Raise e)
  /\ (forall img, decode path = Ok img ->
        use_9slice0 = true -> border_size0 < 0 ->
        border_size0 * 2 <= get_width img -> border_size0 * 2 <= get_height img ->
        0 <= width -> 0 <= height ->
        fst made = Ok tt /\ image (snd made) = None)
  /\ (forall img, decode path = Ok img ->
        use_9slice0 = true -> 0 <= border_size0 ->
        border_size0 * 2 <= get_width img -> border_size0 * 2 <= get_height img ->
        0 <= width -> 0 <= height ->
        width < 2 * border_size0 \/ height < 2 * border_size0 ->
        fst made = Raise ValueError).
Proof.
  intros Hpath made. apply String.eqb_neq in Hpath.
  unfold made, init. rewrite Hpath. unfold load_image, try_catch, bind, lift.
  split; [|split; [|split]].
  - intros msg ->. cbn. auto.
  - intros e -> He. cbn. rewrite He. reflexivity.
  - intros img -> -> Hb Hgw Hgh Hw Hh.
    unfold modify, scale_image, bind, get, lift. cbn.
    unfold fits_9slice, scale_9slice. cbn.
    rewrite (proj2 (Z.leb_le _ _) Hgw), (proj2 (Z.leb_le _ _) Hgh). cbn.
    rewrite (min3_border _ _ _ Hgw Hgh).
    destruct ((width <? 0) || (height <? 0)) eqn:Hneg; [cbn; auto|].
    rewrite (proj2 (Z.ltb_lt _ _) Hb). cbn. auto.
  - intros img -> -> Hb Hgw Hgh Hw Hh Hsmall.
    unfold modify, scale_image, bind, get, lift. cbn.
    unfold fits_9slice, scale_9slice. cbn.
    rewrite (proj2 (Z.leb_le _ _) Hgw), (proj2 (Z.leb_le _ _) Hgh). cbn.
    rewrite (min3_border _ _ _ Hgw Hgh).
    destruct ((width <? 0) || (height <? 0)) eqn:Hneg.
    { apply orb_prop in Hneg as [Hn|Hn]; apply Z.ltb_lt in Hn; lia. }
    destruct (border_size0 <? 0) eqn:Hbneg; [apply Z.ltb_lt in Hbneg; lia|].
    destruct ((width - 2 * border_size0 <? 0) || (height - 2 * border_size0 <? 0))
      eqn:Hfit; [reflexivity|].
    apply orb_false_elim in Hfit as [Hn1 Hn2]. apply Z.ltb_ge in Hn1, Hn2. lia.
Qed.

Lemma Q_round_product (a m : Z) : Q_round (inject_Z a * inject_Z m) = a * m.
Proof.
  assert (Hfloor : forall z : Z, Qfloor (inject_Z z + (1 # 2)) = z).
  { intros z. unfold Qfloor, inject_Z, Qplus. cbn.
    replace (z * 2 + 1 * 1) with (1 + z * 2) by lia.
    rewrite Z.div_add by lia. cbn. reflexivity. }
  unfold Q_round. rewrite <- inject_Z_mult.
  destruct (Qle_bool 0 (inject_Z (a * m))); [apply Hfloor|].
  rewrite <- inject_Z_opp, Hfloor. lia.
Qed.

Lemma rect_assign_product (a m : Z) :
  rect_assign (F := Q) (f_mul (f_of_Z a) (inject_Z m))
  = if fits_int (a * m) then Ok (a * m) else Raise TypeError.
Proof.
  unfold rect_assign. cbn [f_round f_mul f_of_Z exact].
  rewrite Q_round_product. reflexivity.
Qed.

(** X15: in exact arithmetic a whole factor scales a button exactly, as far
    as a rectangle of C integers can hold the result.  When the four
    products fit, [resize(m, n)] puts the rectangle at [(x * m, y * n)] with
    size [(width * m, height * n)]; when the first one does not fit,
    [resize] raises a [TypeError] and leaves the button as it was; and when
    the position fits and the width does not, it raises a [TypeError] with
    the rectangle half written: the new position, the old size. *)
Theorem resize_exact_on_whole_factors (b : Button) (m n : Z) :
  (fits_int (original_x b * m) = true -> fits_int (original_y b * n) = true ->
   fits_int (original_width b * m) = true -> fits_int (original_height b * n) = true ->
   rect (snd (resize (F := Q) (inject_Z m) (inject_Z n) b))
   = {| rect_x := original_x b * m; rect_y := original_y b * n;
        rect_w := original_width b * m; rect_h := original_height b * n |})
  /\ (fits_int (original_x b * m) = false ->
      resize (F := Q) (inject_Z m) (inject_Z n) b = (Raise TypeError, b))
  /\ (fits_int (original_x b * m) = true -> fits_int (original_y b * n) = true ->
      fits_int (original_width b * m) = false ->
      resize (F := Q) (inject_Z m) (inject_Z n) b
      = (Raise TypeError,
         set_rect {| rect_x := original_x b * m; rect_y := original_y b * n;
                     rect_w := rect_w (rect b); rect_h := rect_h (rect b) |} b)).
Proof.
  split; [|split].
  - intros Hx Hy Hw Hh.
    apply resize_rect; rewrite rect_assign_product;
      [rewrite Hx|rewrite Hy|rewrite Hw|rewrite Hh]; reflexivity.
  - intros Hx. unfold resize, bind, get, lift.
    rewrite rect_assign_product, Hx. reflexivity.
  - intros Hx Hy Hw. unfold resize, bind, get, lift, modify.
    rewrite !rect_assign_product, Hx. cbn [fst snd].
    cbn [original_x original_y original_width original_height set_rect].
    rewrite Hy. cbn [fst snd].
    cbn [original_x original_y original_width original_height set_rect].
    rewrite Hw. destruct b; reflexivity.
Qed.

(** X12 at the framed button: to 3x3, then to 2x1. *)
Lemma resize_is_absolute_witness :
  resize (F := float) 2%float 1%float (snd (resize 3%float 3%float framed_button))
  = resize 2%float 1%float framed_button.
Proof.
  apply (resize_is_absolute framed_button 2%float 1%float 3%float 3%float).
  vm_compute. reflexivity.
Defined.

(** X13 on Python's floats at the framed button, shrunk to a fifth: 20x10 is
    below the border of 12 on each side. *)
Lemma resize_raises_below_border_witness :
  resize (F := float) (f_lit 1 5) (f_lit 1 5) framed_button
  = (Raise ValueError,
     set_rect {| rect_x := 2; rect_y := 2; rect_w := 20; rect_h := 10 |} framed_button).
Proof.
  apply (resize_raises_below_border framed_button (f_lit 1 5 : float) (f_lit 1 5)
           (Image "button.png" 64 64));
    try (vm_compute; reflexivity); try (vm_compute; discriminate).
  left. vm_compute. reflexivity.
Defined.

(** X14 for a button of 20x20 with the default border of 12: a file that is
    no image, no file, and an image of 64x64. *)
Lemma init_catches_only_pygame_error_witness :
  fst (init corrupt_image "Play" 0 0 20 20 (Some "button.png") 12 true) = Ok tt
  /\ fst (init no_decoder "Play" 0 0 20 20 (Some "button.png") 12 true)
     = Raise (FileNotFoundError "button.png")
  /\ fst (init any_image "Play" 0 0 20 20 (Some "button.png") (-1) true) = Ok tt
  /\ fst (init any_image "Play" 0 0 20 20 (Some "button.png") 12 true)
     = Raise ValueError.
Proof.
  split; [|split; [|split]].
  - destruct (init_catches_only_pygame_error corrupt_image "Play" "button.png"
                0 0 20 20 12 true ltac:(discriminate)) as [Hcaught _].
    apply (Hcaught "Unsupported image format"). reflexivity.
  - destruct (init_catches_only_pygame_error no_decoder "Play" "button.png"
                0 0 20 20 12 true ltac:(discriminate)) as (_ & Hescapes & _).
    apply Hescapes; reflexivity.
  - destruct (init_catches_only_pygame_error any_image "Play" "button.png"
                0 0 20 20 (-1) true ltac:(discriminate)) as (_ & _ & Hcaught & _).
    apply (Hcaught (Image "button.png" 64 64));
      try reflexivity; try (vm_compute; discriminate).
  - destruct (init_catches_only_pygame_error any_image "Play" "button.png"
                0 0 20 20 12 true ltac:(discriminate)) as (_ & _ & _ & Hescapes).
    apply (Hescapes (Image "button.png" 64 64));
      try reflexivity; try (vm_compute; discriminate).
    left. reflexivity.
Defined.

(** X15 at the play button: doubled, and with a factor of 10^8, which the
    position can take and the width cannot. *)
Lemma resize_exact_on_whole_factors_witness :
  rect (snd (resize (F := Q) (inject_Z 2) (inject_Z 2) play_button))
  = {| rect_x := 20; rect_y := 20; rect_w := 200; rect_h := 100 |}
  /\ resize (F := Q) (inject_Z 100000000) (inject_Z 1) play_button
     = (Raise TypeError,
        set_rect {| rect_x := 1000000000; rect_y := 10; rect_w := 100; rect_h := 50 |}
          play_button).
Proof.
  split.
  - destruct (resize_exact_on_whole_factors play_button 2 2) as [Hfits _].
    apply Hfits; reflexivity.
  - destruct (resize_exact_on_whole_factors play_button 100000000 1) as (_ & _ & Hhalf).
    apply Hhalf; reflexivity.
Defined.

End ButtonGeometry.

(* ===================================================================== *)
(** * Facts about the game: events, layout, a transition that cannot end *)
(* ===================================================================== *)

Module LoopFacts.
Import Py Py.Notations Main MainFacts Loop.

Section LoopFacts.
Context {F : Type} `{PyFloat F}.
Variable host : Host F.

Ltac run_handle_resize :=
  match goal with
  | |- context [handle_resize ?h ?w] =>
      let r := fresh "r" in
      let w' := fresh "w'" in
      let Heq := fresh "Heq" in
      destruct (handle_resize_effect h w) as (?fnt & ?hp & Heq & ?Hhp);
      destruct (handle_resize h w) as [r w'];
      cbv [snd] in Heq; subst w'; destruct r
  end.

(** ** Events *)

Lemma process_event_flag (running : bool) (ev : Event) (w : World) (b : bool) :
  fst (process_event host running ev w) = Ok b ->
  b = if is_quit ev then false else running.
Proof.
  destruct ev; cbn; try (now intros [= <-]).
  unfold bind, gets. destruct (negb (fullscreen (self w))); [|now intros [= <-]].
  unfold update_self, modify.
  match goal with |- context [handle_resize host ?w1] =>
    destruct (handle_resize host w1) as [[[]|e] w2] end; cbn; [|discriminate].
  now intros [= <-].
Qed.

(** X16: the loop over the events answers [running = False] exactly when a
    [QUIT] is among them; no later event sets it back. *)
Theorem process_events_stop_on_quit (evs : list Event) :
  forall (running : bool) (w : World) (b : bool),
    fst (process_events host running evs w) = Ok b ->
    b = running && negb (existsb is_quit evs).
Proof.
  induction evs as [|ev evs IH]; intros running w b; cbn [process_events existsb].
  - intros [= <-]. now rewrite andb_true_r.
  - unfold bind.
    pose proof (process_event_flag running ev w) as Hev.
    destruct (process_event host running ev w) as [[b1|e] w1]; cbn [fst] in *;
      [|discriminate].
    specialize (Hev b1 eq_refl). intros Hrest. apply IH in Hrest. subst b b1.
    destruct (is_quit ev), running; cbn; reflexivity.
Qed.

(** X17: a turn of [run] that the transition preempts does not look at its
    events: with any other events in the queue it computes the same, and it
    answers [running = True]; a [QUIT] read in such a turn is lost. *)
Theorem preempted_turn_ignores_events (inp : Input) (evs : list Event)
    (last_time : F) (w : World) :
  let w2 := snd (yield_to_tasks (due inp) (snd (emit Pump w))) in
  transition_screen (self w2) <> None ->
  fst (handle_transition host w2) = Ok (Some true) ->
  run_iteration host (with_events evs inp) last_time w
  = run_iteration host inp last_time w
  /\ forall st, fst (run_iteration host inp last_time w) = Ok st -> fst st = true.
Proof.
  intros w2 Hts Hpre. subst w2.
  unfold run_iteration, with_events. cbn [ticks events due].
  cbv beta iota delta [bind gets ret].
  destruct (emit Pump w) as [[[]|e] w1] eqn:Hemit; [|discriminate].
  cbn [snd] in *.
  destruct (yield_to_tasks (due inp) w1) as [[[]|e] w2]; cbn [fst snd] in *;
    [|split; [reflexivity|discriminate]].
  destruct (transition_screen (self w2)) as [ts|]; [|congruence].
  destruct (handle_transition host w2) as [[r|e] w3]; cbn [fst] in Hpre;
    [|discriminate].
  injection Hpre as ->.
  destruct (render_transition w3) as [[[]|e] w4]; cbn [fst].
  - split; [reflexivity|]. now intros st [= <-].
  - split; [reflexivity|discriminate].
Qed.

(** ** The layout of the current view *)

(** Whatever came before, a [handle_resize] that returns leaves the current
    view laid out for the window. *)
Lemma handle_resize_lays_out (w : World) :
  fst (handle_resize host w) = Ok tt ->
  laid_out (snd (handle_resize host w))
  /\ WIDTH (self (snd (handle_resize host w))) = WIDTH (self w)
  /\ HEIGHT (self (snd (handle_resize host w))) = HEIGHT (self w)
  /\ transition_screen (self (snd (handle_resize host w))) = transition_screen (self w).
Proof.
  destruct w as [g hp tk mv bl dp pq].
  destruct g as [ap dw dh W Hh fps fs sf ws fnt cv ts pv win lt sgv].
  unfold handle_resize, laid_out. step_world.
  destruct (py_div W dw) as [sx|e]; [|discriminate].
  destruct (py_div Hh dh) as [sy|e]; [|discriminate].
  destruct (py_int _) as [size|e]; [|discriminate].
  destruct cv as [r|]; step_world; intros _; [|auto].
  split; [|auto]. rewrite lookup_alter_eq.
  destruct (hp !! r) as [v|]; cbn; [|exact I]. destruct v; reflexivity.
Qed.

Lemma handle_resize_ok_effect (w : World) :
  fst (handle_resize host w) = Ok tt ->
  exists fnt,
    snd (handle_resize host w)
    = set_heap (resized_heap w) (set_self (set_font fnt (self w)) w).
Proof.
  destruct w as [g hp tk mv bl dp pq].
  destruct g as [ap dw dh W Hh fps fs sf ws fnt cv ts pv win lt sgv].
  unfold handle_resize, resized_heap. step_world.
  destruct (py_div W dw) as [sx|e]; [|discriminate].
  destruct (py_div Hh dh) as [sy|e]; [|discriminate].
  destruct (py_int _) as [size|e]; [|discriminate].
  destruct cv as [r|]; step_world; eauto.
Qed.

Lemma then_handle_resize_lays_out {A} (m : M World A) (w : World) :
  fst (bind m (fun _ => handle_resize host) w) = Ok tt ->
  laid_out (snd (bind m (fun _ => handle_resize host) w)).
Proof.
  unfold bind. destruct (m w) as [[a|e] w1]; [|discriminate].
  intros Hok. now apply handle_resize_lays_out.
Qed.

(** X18: every handler that changes the view or the window ends with the
    current view laid out for the size [Game] holds: after [switch_view]
    with any name, after [toggle_fullscreen] (which also gives a live
    overlay that size), and after a [VIDEORESIZE] in windowed mode,
    provided the handler returns. *)
Theorem handlers_lay_out_current_view (w : World) :
  (forall view_name,
     fst (switch_view host view_name w) = Ok tt ->
     laid_out (snd (switch_view host view_name w)))
  /\ (fst (toggle_fullscreen host w) = Ok tt ->
      laid_out (snd (toggle_fullscreen host w))
      /\ forall ts, transition_screen (self w) = Some ts ->
           exists ts', transition_screen (self (snd (toggle_fullscreen host w))) = Some ts'
             /\ current_width ts' = WIDTH (self (snd (toggle_fullscreen host w)))
             /\ current_height ts' = HEIGHT (self (snd (toggle_fullscreen host w))))
  /\ (forall running ew eh,
        fullscreen (self w) = false ->
        fst (process_event host running (VIDEORESIZE ew eh) w) = Ok running ->
        laid_out (snd (process_event host running (VIDEORESIZE ew eh) w))
        /\ WIDTH (self (snd (process_event host running (VIDEORESIZE ew eh) w))) = ew
        /\ HEIGHT (self (snd (process_event host running (VIDEORESIZE ew eh) w))) = eh).
Proof.
  split; [|split].
  - intros view_name. unfold switch_view. apply then_handle_resize_lays_out.
  - destruct w as [g hp tk mv bl dp pq].
    destruct g as [ap dw dh W Hh fps fs sf ws fnt cv ts pv win lt sgv].
    unfold toggle_fullscreen, laid_out. step_world.
    destruct (negb fs); step_world;
      (match goal with |- context [handle_resize host ?w0] =>
         pose proof (handle_resize_ok_effect w0) as Heff;
         destruct (handle_resize host w0) as [[[]|e] w']
       end; cbn [fst snd] in Heff; [|discriminate]);
      destruct (Heff eq_refl) as [fnt' ->]; unfold resized_heap; step_world;
      destruct ts as [ts|]; step_world; intros _;
      (split; [destruct cv as [r|]; [|exact I]; rewrite lookup_alter_eq;
               destruct (hp !! r) as [v|]; cbn; [destruct v; reflexivity|exact I]|]);
      intros ts0 Hts0; try discriminate;
      eexists; (split; [reflexivity|]); split; reflexivity.
  - intros running ew eh Hfs.
    destruct w as [g hp tk mv bl dp pq].
    destruct g as [ap dw dh W Hh fps fs sf ws fnt cv ts pv win lt sgv].
    cbn in Hfs. subst fs.
    unfold process_event, laid_out. step_world. cbv [negb].
    match goal with |- context [handle_resize host ?w0] =>
      pose proof (handle_resize_ok_effect w0) as Heff;
      destruct (handle_resize host w0) as [[[]|e] w']
    end; cbn [fst snd] in Heff; [|discriminate].
    destruct (Heff eq_refl) as [fnt' ->]. unfold resized_heap. step_world. intros _.
    split; [|split; reflexivity].
    destruct cv as [r|]; [|exact I]. rewrite lookup_alter_eq.
    destruct (hp !! r) as [v|]; cbn; [destruct v; reflexivity|exact I].
Qed.

(** X19: [return_to_game] does not lay the game view out again.  With a
    game view [v] at address [r] current in windowed mode: open the in-game
    settings, resize the window to [(ew, eh)], return to the game.  The game
    view is current again and [Game] holds the new size, but the object at
    [r] is still [v]: it has not been told of the resize, so it is laid out
    for the new size only if it already was. *)
Theorem return_to_game_keeps_stale_layout (w : World) (r : ref) (v : ViewObj)
    (ew eh : Z) :
  current_view (self w) = Some r ->
  heap w !! r = Some v ->
  is_GameView v = true ->
  fullscreen (self w) = false ->
  let embedded := snd (switch_view host "ingame_settings" w) in
  let resized := snd (process_event host true (VIDEORESIZE ew eh) embedded) in
  let resumed := snd (return_to_game resized) in
  current_view (self resumed) = Some r
  /\ heap resumed !! r = Some v
  /\ WIDTH (self resumed) = ew
  /\ HEIGHT (self resumed) = eh
  /\ (laid_out resumed <-> view_layout v = Some (ew, eh)).
Proof.
  intros Hcur Hobj Hgame Hfs embedded resized resumed.
  destruct w as [g hp tk mv bl dp pq].
  destruct g as [ap dw dh W Hh fps fs sf ws fnt cv ts pv win lt sgv].
  cbn in Hcur, Hobj, Hfs. subst cv fs.
  pose proof (fresh_ref_new hp r v Hobj) as Hfresh.
  assert (Hgoal : current_view (self resumed) = Some r
                  /\ heap resumed !! r = Some v
                  /\ WIDTH (self resumed) = ew /\ HEIGHT (self resumed) = eh).
  { subst resumed resized embedded.
    unfold switch_view. cbn [String.eqb Ascii.eqb Bool.eqb]. step_world.
    rewrite Hobj, Hgame. step_world.
    run_handle_resize; unfold process_event; step_world; cbv [negb];
      run_handle_resize; unfold return_to_game; step_world;
      repeat match goal with
             | Hh : _ \/ _ |- _ => destruct Hh as [->|(?r0 & ?Hr0 & ->)]
             end;
      repeat match goal with
             | Hr : current_view _ = Some _ |- _ => cbn in Hr; injection Hr as <-
             end;
      step_world;
      rewrite ?lookup_alter_ne by exact Hfresh;
      rewrite lookup_insert_ne by exact Hfresh; auto. }
  destruct Hgoal as (Hc & Hh' & Hw & Hhh).
  split; [exact Hc|]. split; [exact Hh'|]. split; [exact Hw|]. split; [exact Hhh|].
  unfold laid_out. rewrite Hc, Hh', Hw, Hhh. reflexivity.
Qed.

(** ** A transition that cannot end *)

Lemma insert_nth_error {A} (l : list A) (i : nat) (x : A) :
  nth_error l i = Some x -> <[i := x]> l = l.
Proof.
  revert i. induction l as [|y l IH]; intros [|i]; cbn; try discriminate.
  - now intros [= ->].
  - intros Hnth. f_equal. now apply IH.
Qed.

Lemma step_task_finished (due : bool) (t : Task) (w : World) :
  finished t = true -> step_task due t w = (Ok t, w).
Proof.
  unfold finished, step_task.
  destruct (failure t); [reflexivity|].
  destruct (coro t); [discriminate|discriminate|reflexivity].
Qed.

Lemma step_tasks_finished (due : bool) (n : nat) (w : World) :
  Forall (fun t => finished t = true) (tasks w) ->
  step_tasks due n w = (Ok tt, w).
Proof.
  intros Hall. induction n as [|n IH]; [reflexivity|].
  cbn [step_tasks]. unfold bind at 1. rewrite IH. unfold bind, get.
  destruct (nth_error (tasks w) n) as [t|] eqn:Hnth; [|reflexivity].
  rewrite step_task_finished.
  - unfold modify. rewrite (insert_nth_error _ _ _ Hnth). now destruct w.
  - rewrite List.Forall_forall in Hall. apply Hall. eapply nth_error_In, Hnth.
Qed.

Section Stuck.
Hypothesis fade_keeps_active : forall ts, active (update_fade host ts) = active ts.

Lemma stuck_handle_transition (w : World) :
  stuck w ->
  fst (handle_transition host w) = Ok (Some true)
  /\ stuck (snd (handle_transition host w)).
Proof.
  destruct w as [g hp tk mv bl dp pq].
  destruct g as [ap dw dh W Hh fps fs sf ws fnt cv tso pv win lt sgv].
  unfold stuck. cbn. intros (Hlt & -> & (ts & -> & Hact) & Hall).
  unfold handle_transition. step_named.
  rewrite fade_keeps_active, Hact.
  destruct (alpha (update_fade host ts) <? 255); step_world.
  - split; [reflexivity|]. split; [exact Hlt|]. split; [reflexivity|].
    split; [|exact Hall]. eexists. split; [reflexivity|].
    now rewrite fade_keeps_active.
  - destruct lt as [t|]; [|congruence]. step_world.
    split; [reflexivity|]. split; [discriminate|]. split; [reflexivity|].
    split; [|exact Hall]. eexists. split; [reflexivity|].
    now rewrite fade_keeps_active.
Qed.

Lemma stuck_run_op (op : LoopOp) (w : World) :
  stuck w -> stuck (snd (run_op host op w)).
Proof.
  intros Hstuck. destruct op as [due| | |]; cbn [run_op].
  - unfold yield_to_tasks, bind, get.
    rewrite step_tasks_finished; [exact Hstuck|]. apply Hstuck.
  - pose proof (stuck_handle_transition w Hstuck) as [_ Hs]. unfold bind, ret.
    destruct (handle_transition host w) as [[r|e] w']; exact Hs.
  - destruct w as [g hp tk mv bl dp pq].
    destruct g as [ap dw dh W Hh fps fs sf ws fnt cv tso pv win lt sgv].
    revert Hstuck. unfold stuck, render_transition. step_world.
    destruct cv, tso; step_world; auto.
  - destruct w as [g hp tk mv bl dp pq].
    destruct g as [ap dw dh W Hh fps fs sf ws fnt cv tso pv win lt sgv].
    revert Hstuck. unfold stuck, toggle_fullscreen. step_world.
    intros (Hlt & Hpv & (ts & -> & Hact) & Hall).
    destruct (negb fs); step_world; run_handle_resize; step_world;
      (split; [exact Hlt|]); (split; [exact Hpv|]); (split; [|exact Hall]);
      eexists; split; reflexivity || exact Hact.
Qed.

(** X20: a held load task blocks the next transition for good.  When a
    game-start transition is pending with its overlay active, while
    [load_task] is still held from an earlier transition and no task is
    left to run, then over any run of the steps of the loop (tasks' turns,
    [handle_transition], frames, fullscreen toggles) no task is created,
    the overlay stays active and the transition stays pending: every call
    of [handle_transition] answers [True], so every turn of [run] is
    preempted.  The fade is any [update_fade] that leaves [active] alone. *)
Theorem held_task_blocks_transition (ops : list LoopOp) (w : World) :
  stuck w ->
  let w' := run_ops host ops w in
  stuck w'
  /\ tasks w' = tasks w
  /\ fst (handle_transition host w') = Ok (Some true).
Proof.
  intros Hstuck. cbv zeta.
  assert (Hrun : stuck (run_ops host ops w)
                 /\ tasks_created (run_ops host ops w) = tasks_created w
                 /\ Forall (fun t => finished t = true) (tasks (run_ops host ops w))).
  { revert w Hstuck. induction ops as [|op ops IH]; intros w Hstuck; cbn [run_ops].
    - split; [exact Hstuck|]. split; [reflexivity|apply Hstuck].
    - pose proof (stuck_run_op op w Hstuck) as Hs.
      pose proof (run_op_guard host op w) as Hg. cbv zeta in Hg.
      assert (Hallowed : tasks_allowed w = 0%nat).
      { unfold tasks_allowed. destruct Hstuck as (Hlt & _).
        destruct (load_task (self w)); congruence. }
      destruct (run_op host op w) as [[u|e] w1]; cbn [snd] in *.
      + destruct (IH w1 Hs) as (H1 & H2 & H3). split; [exact H1|].
        split; [lia|exact H3].
      + split; [exact Hs|]. split; [lia|apply Hs]. }
  destruct Hrun as (Hs & Hcount & Hall).
  split; [exact Hs|]. split; [|apply (stuck_handle_transition _ Hs)].
  clear Hcount Hall Hs. revert w Hstuck.
  induction ops as [|op ops IH]; intros w Hstuck; cbn [run_ops]; [reflexivity|].
  pose proof (stuck_run_op op w Hstuck) as Hs.
  assert (Htasks : tasks (snd (run_op host op w)) = tasks w).
  { destruct op as [due| | |]; cbn [run_op].
    - unfold yield_to_tasks, bind, get.
      rewrite step_tasks_finished; [reflexivity|apply Hstuck].
    - pose proof (handle_transition_guard host w) as Hg. cbv zeta in Hg.
      destruct Hg as (_ & _ & Hkeep & _). unfold bind, ret.
      destruct (handle_transition host w) as [[r|e] w']; cbn [snd] in *;
        apply Hkeep, Hstuck.
    - destruct w as [g hp tk mv bl dp pq].
      destruct g as [ap dw dh W Hh fps fs sf ws fnt cv tso pv win lt sgv].
      unfold render_transition. step_world. destruct cv, tso; reflexivity.
    - destruct w as [g hp tk mv bl dp pq].
      destruct g as [ap dw dh W Hh fps fs sf ws fnt cv tso pv win lt sgv].
      unfold toggle_fullscreen. step_world.
      destruct (negb fs); step_world; run_handle_resize; step_world;
        destruct tso; reflexivity. }
  destruct (run_op host op w) as [[u|e] w1]; cbn [snd] in *.
  - rewrite (IH w1 Hs). exact Htasks.
  - exact Htasks.
Qed.
End Stuck.

End LoopFacts.

(** ** The facts above at concrete worlds *)

(** X16 in the menu: a mouse move, the window is closed, a key. *)
Lemma process_events_stop_on_quit_witness :
  exists b,
    fst (process_events (plain_host (F := float)) true
           [MOUSEMOTION 1 1; QUIT; KEYDOWN 27] menu_world) = Ok b
    /\ b = false.
Proof.
  eexists. split; [vm_compute; reflexivity|].
  apply (process_events_stop_on_quit (plain_host (F := float))
           [MOUSEMOTION 1 1; QUIT; KEYDOWN 27] true menu_world false).
  vm_compute. reflexivity.
Defined.

(** X17 while the overlay fades in: the window is closed, and the loop goes
    on. *)
Lemma preempted_turn_ignores_events_witness :
  run_iteration (plain_host (F := float)) (with_events [] closing_input) 0%float
    fading_world
  = run_iteration (plain_host (F := float)) closing_input 0%float fading_world
  /\ exists st,
       fst (run_iteration (plain_host (F := float)) closing_input 0%float fading_world)
       = Ok st
       /\ fst st = true.
Proof.
  destruct (preempted_turn_ignores_events (plain_host (F := float)) closing_input []
              0%float fading_world) as [Hsame Hrunning].
  - vm_compute. discriminate.
  - vm_compute. reflexivity.
  - split; [exact Hsame|]. eexists. split; [vm_compute; reflexivity|].
    apply Hrunning. vm_compute. reflexivity.
Defined.

(** X19 in the world where the game runs, with a resize to 1024x768. *)
Lemma return_to_game_keeps_stale_layout_witness :
  let embedded := snd (switch_view (plain_host (F := float)) "ingame_settings"
                         playing_world) in
  let resized := snd (process_event (plain_host (F := float)) true
                        (VIDEORESIZE 1024 768) embedded) in
  let resumed := snd (return_to_game resized) in
  heap resumed !! 2%positive = Some loaded_game_view
  /\ WIDTH (self resumed) = 1024
  /\ ~ laid_out resumed.
Proof.
  destruct (return_to_game_keeps_stale_layout (plain_host (F := float)) playing_world
              2%positive loaded_game_view 1024 768)
    as (_ & Hobj & Hw & _ & Hlaid);
    try (vm_compute; reflexivity).
  cbv zeta. split; [exact Hobj|]. split; [exact Hw|].
  intros Hl. pose proof (proj1 Hlaid Hl) as Hv. discriminate Hv.
Defined.

Lemma restarted_world_stuck : stuck restarted_world.
Proof.
  split; [vm_compute; discriminate|]. split; [vm_compute; reflexivity|]. split.
  - eexists. split; vm_compute; reflexivity.
  - vm_compute. repeat constructor.
Qed.

(** X20 in the world where the game is asked for again while the task of
    the abandoned load is still held. *)
Lemma held_task_blocks_transition_witness :
  let w' := run_ops (plain_host (F := float))
              [OpYield true; OpHandleTransition; OpRenderTransition;
               OpYield true; OpHandleTransition; OpRenderTransition] restarted_world in
  tasks w' = tasks restarted_world
  /\ fst (handle_transition (plain_host (F := float)) w') = Ok (Some true).
Proof.
  destruct (held_task_blocks_transition (plain_host (F := float)))
    with (ops := [OpYield true; OpHandleTransition; OpRenderTransition;
                  OpYield true; OpHandleTransition; OpRenderTransition])
         (w := restarted_world)
    as (_ & Htasks & Hpre).
  - intros ts. unfold plain_host, update_fade, update_fade_by.
    destruct (active ts) eqn:Hact; cbn; exact Hact.
  - exact restarted_world_stuck.
  - cbv zeta. split; [exact Htasks|exact Hpre].
Defined.

End LoopFacts.

(* ===================================================================== *)
(** * Facts about the layout: one factor for both axes *)
(* ===================================================================== *)

Module LayoutFacts.
Import Py Py.Notations Pygame Button ButtonFacts Widget ButtonGeometry Main MainFacts Loop
  LoopFacts Layout.

Section LayoutFacts.
Context {F : Type} `{PyFloat F}.
Variable host : Host F.

(** A [resize] that returns has stored the four rounded products. *)
Lemma resize_ok_rect (b : Button) (scale_x scale_y : F) :
  fst (resize scale_x scale_y b) = Ok tt ->
  exists x y width height,
    rect_assign (f_mul (f_of_Z (original_x b)) scale_x) = Ok x
    /\ rect_assign (f_mul (f_of_Z (original_y b)) scale_y) = Ok y
    /\ rect_assign (f_mul (f_of_Z (original_width b)) scale_x) = Ok width
    /\ rect_assign (f_mul (f_of_Z (original_height b)) scale_y) = Ok height
    /\ rect (snd (resize scale_x scale_y b))
       = {| rect_x := x; rect_y := y; rect_w := width; rect_h := height |}.
Proof.
  intros Hok.
  destruct (rect_assign (f_mul (f_of_Z (original_x b)) scale_x)) as [x|e] eqn:Hx.
  2:{ unfold resize, bind, get, lift in Hok. rewrite Hx in Hok. discriminate Hok. }
  destruct (rect_assign (f_mul (f_of_Z (original_y b)) scale_y)) as [y|e] eqn:Hy.
  2:{ unfold resize, bind, get, lift, modify in Hok. rewrite Hx in Hok.
      cbn [fst snd] in Hok. rewrite Hy in Hok. discriminate Hok. }
  destruct (rect_assign (f_mul (f_of_Z (original_width b)) scale_x)) as [wd|e] eqn:Hw.
  2:{ unfold resize, bind, get, lift, modify in Hok. rewrite Hx in Hok.
      cbn [fst snd] in Hok. rewrite Hy in Hok. cbn [fst snd] in Hok.
      rewrite Hw in Hok. discriminate Hok. }
  destruct (rect_assign (f_mul (f_of_Z (original_height b)) scale_y)) as [ht|e] eqn:Hh.
  2:{ unfold resize, bind, get, lift, modify in Hok. rewrite Hx in Hok.
      cbn [fst snd] in Hok. rewrite Hy in Hok. cbn [fst snd] in Hok.
      rewrite Hw in Hok. cbn [fst snd] in Hok. rewrite Hh in Hok. discriminate Hok. }
  exists x, y, wd, ht. repeat (split; [reflexivity|]).
  now apply resize_rect.
Qed.

Lemma resize_buttons_uniform (scale : F) (buttons : list Button) :
  forall buttons',
    resize_buttons scale buttons = (Ok tt, buttons') ->
    Forall2 (fun b b' => same_source b b' /\ uniformly_scaled b scale (rect b'))
      buttons buttons'.
Proof.
  induction buttons as [|b rest IH]; intros buttons'; cbn [resize_buttons].
  - intros [= <-]. constructor.
  - destruct (resize scale scale b) as [[[]|e] b'] eqn:Hb; [|discriminate].
    destruct (resize_buttons scale rest) as [r rest'] eqn:Hrest.
    intros [= -> <-]. constructor; [|now apply IH].
    pose proof (resize_same_source b scale scale) as Hsame.
    destruct (resize_ok_rect b scale scale) as (x & y & wd & ht & Hx & Hy & Hw & Hh & Hr).
    { now rewrite Hb. }
    rewrite Hb in Hsame, Hr. cbn [snd] in Hsame, Hr.
    split; [exact Hsame|]. unfold uniformly_scaled. rewrite Hr. cbn. auto.
Qed.

(** C8: [handle_resize] scales with one factor.  [Game.handle_resize] hands
    the window size [(WIDTH, HEIGHT)] to the current view; a menu or
    settings view made for [(design_w, design_h)] that lays its buttons out
    for that size resizes every button with the single factor
    [min(WIDTH / design_w, HEIGHT / design_h)] on both axes: each new
    rectangle is the original position and size, times that factor; and for
    a view made with the design size of the game, as [switch_view] makes
    them, the font of [Game] is sized with the same factor. *)
Theorem handle_resize_scales_uniformly (w : World) (r : ref) (v : ViewObj)
    (design_w design_h : Z) (buttons buttons' : list Button) :
  current_view (self w) = Some r ->
  heap w !! r = Some v ->
  view_design v = Some (design_w, design_h) ->
  fst (handle_resize host w) = Ok tt ->
  view_resize_buttons design_w design_h (WIDTH (self w)) (HEIGHT (self w)) buttons
  = (Ok tt, buttons') ->
  exists v' scale_x scale_y,
    heap (snd (handle_resize host w)) !! r = Some v'
    /\ view_design v' = Some (design_w, design_h)
    /\ view_layout v' = Some (WIDTH (self w), HEIGHT (self w))
    /\ py_div (WIDTH (self w)) design_w = Ok scale_x
    /\ py_div (HEIGHT (self w)) design_h = Ok scale_y
    /\ Forall2 (fun b b' =>
                  same_source b b'
                  /\ uniformly_scaled b (py_min scale_x scale_y) (rect b'))
         buttons buttons'
    /\ (design_w = design_width (self w) -> design_h = design_height (self w) ->
        exists size,
          py_int (f_mul (f_of_Z (const_font_medium host)) (py_min scale_x scale_y))
          = Ok size
          /\ font (self (snd (handle_resize host w))) = Some {| font_size := size |}).
Proof.
  intros Hcv Hv Hdesign Hok Hview.
  unfold view_resize_buttons, view_scale in Hview.
  destruct (py_div (WIDTH (self w)) design_w) as [sx|e] eqn:Hsx; [|discriminate].
  destruct (py_div (HEIGHT (self w)) design_h) as [sy|e] eqn:Hsy; [|discriminate].
  exists (view_handle_resize v (WIDTH (self w)) (HEIGHT (self w))), sx, sy.
  destruct (handle_resize_ok_effect host w Hok) as (fnt & Heff).
  split.
  { rewrite Heff. unfold resized_heap. rewrite Hcv. cbn [heap set_heap].
    rewrite lookup_alter_eq, Hv. reflexivity. }
  split; [destruct v; cbn in *; congruence|].
  split; [destruct v; reflexivity|].
  split; [reflexivity|]. split; [reflexivity|].
  split; [now apply resize_buttons_uniform|].
  intros -> ->.
  destruct (py_int (f_mul (f_of_Z (const_font_medium host)) (py_min sx sy)))
    as [size|e] eqn:Hsize.
  - exists size. split; [reflexivity|].
    now rewrite (handle_resize_font host w sx sy size Hsx Hsy Hsize).
  - exfalso. revert Hok.
    destruct w as [g hp tk mv bl dp pq].
    destruct g as [ap dw dh W Hh fps fs sf ws fnt0 cv0 ts pv win lt sgv].
    cbn in Hsx, Hsy. unfold handle_resize, bind, gets, lift. cbn.
    rewrite Hsx, Hsy. cbn. rewrite Hsize. discriminate.
Qed.

End LayoutFacts.

(** C8 in the menu, with the window resized to 1600x900: the factor is
    [min(2, 1.5)], and the play button of 100x50 at (10, 10) becomes 150x75
    at (15, 15). *)
Lemma handle_resize_scales_uniformly_witness :
  exists buttons',
    view_resize_buttons (F := float) 800 600 1600 900 [play_button; framed_button]
    = (Ok tt, buttons')
    /\ Forall2 (fun b b' => same_source b b'
                            /\ uniformly_scaled b (f_lit 3 2 : float) (rect b'))
         [play_button; framed_button] buttons'
    /\ map rect buttons'
       = [{| rect_x := 15; rect_y := 15; rect_w := 150; rect_h := 75 |};
          {| rect_x := 15; rect_y := 15; rect_w := 150; rect_h := 75 |}].
Proof.
  destruct (view_resize_buttons (F := float) 800 600 1600 900 [play_button; framed_button])
    as [r buttons'] eqn:Hrun.
  assert (Hr : r = Ok tt /\ map rect buttons'
       = [{| rect_x := 15; rect_y := 15; rect_w := 150; rect_h := 75 |};
          {| rect_x := 15; rect_y := 15; rect_w := 150; rect_h := 75 |}]).
  { vm_compute in Hrun. injection Hrun as <- <-. split; reflexivity. }
  destruct Hr as [-> Hrects].
  exists buttons'. split; [reflexivity|]. split; [|exact Hrects].
  destruct (handle_resize_scales_uniformly (plain_host (F := float)) wide_world
              1%positive (MainMenu 800 600 (Some (1600, 900))) 800 600
              [play_button; framed_button] buttons')
    as (v' & sx & sy & _ & _ & _ & Hsx & Hsy & Hall & _).
  - vm_compute. reflexivity.
  - vm_compute. reflexivity.
  - reflexivity.
  - vm_compute. reflexivity.
  - exact Hrun.
  - assert (Hs : py_min sx sy = (f_lit 3 2 : float)).
    { vm_compute in Hsx, Hsy. injection Hsx as <-. injection Hsy as <-.
      vm_compute. reflexivity. }
    rewrite <- Hs. exact Hall.
Defined.

End LayoutFacts.
